(** * Hopalong orbit visualiser: a shallow embedding of [src/hopalong.ts]
    and [src/gamepad.ts], and the properties their specification states.

    JavaScript numbers are kept abstract behind the class [JsNumber], with two
    instances: IEEE-754 binary64 ([PrimFloat.float], what the runtime
    computes with) and the real numbers ([R], exact arithmetic).  The object
    state of the [Hopalong] class is a record threaded explicitly through
    every method; a method that can throw returns [option]. *)

From Stdlib Require Import ZArith QArith Reals Lra Permutation Ascii.
From Stdlib Require PrimFloat Uint63.
From stdpp Require Import base option list gmap strings pretty.

#[local] Set Warnings "-clear-no-such-hyp".

(** ** JavaScript numbers *)

Declare Scope num_scope.
Delimit Scope num_scope with num.

Class JsNumber (num : Type) := {
  lit : Q → num;                 (* a numeric literal of the source text *)
  num_add : num → num → num;
  num_sub : num → num → num;
  num_mul : num → num → num;
  num_div : num → num → num;
  num_neg : num → num;
  Math_sqrt : num → num;
  Math_abs : num → num;
  num_lt : num → num → bool;     (* [x < y] *)
  num_le : num → num → bool;     (* [x <= y] *)
}.

Infix "+" := num_add : num_scope.
Infix "-" := num_sub : num_scope.
Infix "*" := num_mul : num_scope.
Infix "/" := num_div : num_scope.
Notation "- x" := (num_neg x) : num_scope.
Notation "x <? y" := (num_lt x y) : num_scope.
Notation "x >? y" := (num_lt y x) : num_scope.
Notation "x <=? y" := (num_le x y) : num_scope.
Notation "x >=? y" := (num_le y x) : num_scope.

(** A count or loop index used as a number. *)
Definition ofZ {num : Type} `{!JsNumber num} (z : Z) : num := lit (inject_Z z).
Definition ofNat {num : Type} `{!JsNumber num} (n : nat) : num := ofZ (Z.of_nat n).

(** *** binary64 *)

Definition float_of_Z (z : Z) : PrimFloat.float :=
  match z with
  | Z0 => PrimFloat.zero
  | Zpos _ => PrimFloat.of_uint63 (Uint63.of_Z z)
  | Zneg p => PrimFloat.opp (PrimFloat.of_uint63 (Uint63.of_Z (Zpos p)))
  end.

(** Numerator and denominator of the literals of this program are exact in
    binary64, so the correctly rounded quotient is the literal's value. *)
Definition float_of_Q (q : Q) : PrimFloat.float :=
  PrimFloat.div (float_of_Z (Qnum q)) (float_of_Z (Zpos (Qden q))).

#[export] Instance float_JsNumber : JsNumber PrimFloat.float := {|
  lit := float_of_Q;
  num_add := PrimFloat.add;
  num_sub := PrimFloat.sub;
  num_mul := PrimFloat.mul;
  num_div := PrimFloat.div;
  num_neg := PrimFloat.opp;
  Math_sqrt := PrimFloat.sqrt;
  Math_abs := PrimFloat.abs;
  num_lt := PrimFloat.ltb;
  num_le := PrimFloat.leb;
|}.

(** *** exact arithmetic *)

Definition Rltb (x y : R) : bool := if Rlt_dec x y then true else false.
Definition Rleb (x y : R) : bool := if Rle_dec x y then true else false.

#[export] Instance R_JsNumber : JsNumber R := {|
  lit := Q2R;
  num_add := Rplus;
  num_sub := Rminus;
  num_mul := Rmult;
  num_div := Rdiv;
  num_neg := Ropp;
  Math_sqrt := R_sqrt.sqrt;
  Math_abs := Rabs;
  num_lt := Rltb;
  num_le := Rleb;
|}.

(** ** Orbit maps and input shaping (functions outside the class) *)

Section Math.
Context {num : Type} `{!JsNumber num}.
Local Open Scope num_scope.

(** [Math.sign]: 1 for a positive argument, -1 for a negative one, and the
    argument itself otherwise (a zero, or NaN). *)
Definition Math_sign (x : num) : num :=
  if x >? lit 0 then lit 1 else if x <? lit 0 then - lit 1 else x.

(** NaN, the number [undefined] converts to: in binary64 the quotient 0/0.
    The reals have no NaN (the quotient is 0 there); what is proved over
    them about a function that can meet NaN fixes inputs on which it does
    not. *)
Definition NaN : num := lit 0 / lit 0.

(** NaN is the one number that is not [<=] itself. *)
Definition isNaN (x : num) : bool := negb (x <=? x).

(** [Math.max] and [Math.min] of two arguments: NaN when either is NaN, and
    -0 counts as smaller than +0.  Two numbers of which neither is smaller
    are equal, and then [1 / x < 0] tells a negative [x], -0 included. *)
Definition Math_max (x y : num) : num :=
  if isNaN x then x else if isNaN y then y
  else if x <? y then y else if y <? x then x
  else if lit 1 / x <? lit 0 then y else x.
Definition Math_min (x y : num) : num :=
  if isNaN x then x else if isNaN y then y
  else if y <? x then y else if x <? y then x
  else if lit 1 / x <? lit 0 then x else y.

(** A nonzero number that is not NaN is truthy. *)
Definition truthy (x : num) : bool := (x <? lit 0) || (x >? lit 0).

Definition hopalong (x y a b c : num) : num * num :=
  (y - Math_sqrt (Math_abs (b * x - c)) * Math_sign x, a - x).

Definition hopalong2 (x y a b c : num) : num * num :=
  (y - lit 1 - Math_sqrt (Math_abs (b * x - lit 1 - c)) * Math_sign (x - lit 1),
   a - x - lit 1).

(** *** gamepad.ts *)

Record Movement := {
  mv_speed : num;
  mv_rotationSpeed : num;
  mv_x : num;
  mv_y : num;
}.

Record Bounds := { width : num; height : num }.

(** The polled device: [axes] as the browser reports them. *)
Record Gamepad := { axes : list num }.

(** [gamepad.axes[i]] as the strategies use it, in arithmetic only: an axis
    the device does not report reads [undefined], which is NaN there. *)
Definition axis (gamepad : Gamepad) (i : nat) : num :=
  match axes gamepad !! i with
  | Some a => a
  | None => NaN
  end.

(** [clamp(min, target, max = Infinity)]; [None] is the default bound. *)
Definition clamp (min target : num) (max : option num) : num :=
  Math_max min (match max with Some m => Math_min target m | None => target end).

(** [deadzone(stickOffset, deadzone = 0.1)] *)
Definition deadzone_with (stickOffset threshold : num) : num :=
  if Math_abs stickOffset <? threshold then lit 0 else stickOffset - threshold.
Definition deadzone (stickOffset : num) : num := deadzone_with stickOffset (lit 0.1).

Definition signedSqrt (n : num) : num := Math_sqrt (Math_abs n) * Math_sign n.

(** [Math.pow] is a host function; it is a parameter of the strategy. *)
Variable Math_pow : num → num → num.

(** [exponentiate(stickOffset, base = 2)] *)
Definition exponentiate (stickOffset : num) : num :=
  Math_sign stickOffset * Math_pow (lit 2) (Math_abs stickOffset).

Definition magnitude (axs : list num) : num :=
  Math_sqrt (fold_left (λ acc axis, acc + Math_pow axis (lit 2)) axs (lit 0)).

(** The standard strategy never throws: it reads four axes and computes
    with them, with NaN for an axis the device does not report.  It returns
    in [option] as every [MovementStrategy] does. *)
Definition stdGamepadMovementStrategy
    (bounds : Bounds) (current : Movement) (gamepad : Gamepad) : option Movement :=
  let x := mv_x current in
  let y := mv_y current in
  (* Rotational momentum *)
  let leftStickHorizontal := deadzone (- axis gamepad 0) in
  let newRotationSpeed := leftStickHorizontal / lit 50 in
  (* Forward momentum *)
  let leftStickVertical := deadzone (- axis gamepad 1) in
  let leftStickMagnitude := magnitude [leftStickHorizontal; leftStickVertical] in
  let forwardSpeed :=
    clamp (lit 0)
          (exponentiate (leftStickMagnitude * lit 4) * Math_sign leftStickVertical)
          None in
  (* Transverse momentum *)
  let rightStickHorizontal := deadzone (axis gamepad 2) in
  let transverseSpeedX := signedSqrt rightStickHorizontal * lit 10 in
  let newX := clamp (- width bounds / lit 2) (transverseSpeedX + x)
                    (Some (width bounds / lit 2)) in
  let rightStickVertical := deadzone (axis gamepad 3) in
  let transverseSpeedY := signedSqrt rightStickVertical * lit 10 in
  let newY := clamp (- height bounds / lit 2) (transverseSpeedY + y)
                    (Some (height bounds / lit 2)) in
  Some {| mv_speed := forwardSpeed;
          mv_rotationSpeed := newRotationSpeed;
          mv_x := newX;
          mv_y := newY |}.
End Math.

Arguments Movement : clear implicits.
Arguments Bounds : clear implicits.
Arguments Gamepad : clear implicits.

(** ** Control flow shared by the methods *)

(** [for (const x of l) body] where the body may throw. *)
Fixpoint for_each {A S : Type} (l : list A) (body : A → S → option S) (s : S) : option S :=
  match l with
  | [] => Some s
  | x :: l' => s' ← body x s; for_each l' body s'
  end.

(** The indices of [for (let i = 0; i < n; i++)]. *)
Definition upto (n : Z) : list nat := seq 0 (Z.to_nat n).

(** [v || prior] on an optional count: zero and [undefined] are falsy. *)
Definition or_prior (v : option Z) (prior : Z) : Z :=
  match v with
  | Some z => if (z =? 0)%Z then prior else z
  | None => prior
  end.

(** The template string [`${level}-${subset}`]. *)
Definition key (level subset : nat) : string := pretty level +:+ "-" +:+ pretty subset.

(** ** The state of a [Hopalong] object (types/hopalong.ts, hopalong.ts) *)

Section Simulation.
Context {num : Type} `{!JsNumber num}.
Local Open Scope num_scope.

(** [Math.random()]: its n-th call returns [random n]. *)
Variable random : nat → num.

(** [hsvToHsl] of util/color is not among the sources; it is a parameter.
    Its first argument is [this.hueValues[subset]], [None] when that read
    is [undefined]. *)
Variable hsvToHsl : option num → num → num → num * num * num.

Definition SCALE_FACTOR : num := lit 1500.
Definition CAMERA_BOUND : num := lit 200.
Definition LEVEL_DEPTH : num := lit 600.
Definition DEF_BRIGHTNESS : num := lit 1.
Definition DEF_SATURATION : num := lit 0.8.

Definition A_MIN : num := lit (-30).
Definition A_MAX : num := lit 30.
Definition B_MIN : num := lit 0.2.
Definition B_MAX : num := lit 1.8.
Definition C_MIN : num := lit 5.
Definition C_MAX : num := lit 17.
Definition D_MIN : num := lit 0.
Definition D_MAX : num := lit 10.
Definition E_MIN : num := lit 0.
Definition E_MAX : num := lit 12.

Definition DEFAULT_SPEED : num := lit 8.
Definition DEFAULT_ROTATION_SPEED : num := lit 0.005.
Definition DEFAULT_FOV : num := lit 60.
Definition DEFAULT_POINTS_SUBSET : Z := 4000.
Definition DEFAULT_SUBSETS : Z := 7.
Definition DEFAULT_LEVELS : Z := 7.

Definition SPEED_DELTA : num := lit 0.25.
Definition SPEED_DELTA_EXTRA : num := SPEED_DELTA * lit 4.
Definition ROTATION_DELTA : num := lit 0.0005.
Definition ROTATION_DELTA_EXTRA : num := ROTATION_DELTA * lit 4.
Definition POINTS_DELTA : Z := 1000.
Definition FOV_DELTA : num := lit 2.

Record Vector3 := { v_x : num; v_y : num; v_z : num }.

Record OrbitParams := { op_a : num; op_b : num; op_c : num; op_d : num; op_e : num }.

Record SubsetPoint := { sp_x : num; sp_y : num; vertex : Vector3 }.

Record Orbit := {
  subsets : list (list SubsetPoint);
  xMin : num;
  xMax : num;
  yMin : num;
  yMax : num;
  scaleX : num;
  scaleY : num
}.

(** A three.js [Points] object.  [drawable] is its identity; [geometry] is
    the position attribute, into which [setFromPoints] copies coordinates. *)
Record Points := {
  drawable : nat;
  geometry : list Vector3;
  position : Vector3;
  rotation_z : num
}.

(** [myMaterial] is the material's colour, as the HSL triple last set. *)
Record ParticleSet := {
  myMaterial : num * num * num;
  myLevel : nat;
  mySubset : nat;
  needsUpdate : bool;
  particles : Points
}.

Record Camera := { cam_position : Vector3; fov : num }.

Record SimSettings := {
  s_speed : num;
  s_rotationSpeed : num;
  s_cameraFov : num;
  s_pointsPerSubset : Z;
  s_subsetCount : Z;
  s_levelCount : Z;
  s_mouseLocked : bool
}.

(** [Partial<SimSettings>]: an absent field is [None]. *)
Record PartialSimSettings := {
  p_speed : option num;
  p_rotationSpeed : option num;
  p_cameraFov : option num;
  p_pointsPerSubset : option Z;
  p_subsetCount : option Z;
  p_levelCount : option Z;
  p_mouseLocked : option bool
}.

Definition no_settings : PartialSimSettings :=
  Build_PartialSimSettings None None None None None None None.

(** Calls made to the collaborators of the class. *)
Inductive Effect :=
| SceneAdd (d : nat)
| SceneRemove (d : nat)
| SettingsUpdate (s : SimSettings)
| RenderFrame.

Record Hopalong := {
  orbitParams : OrbitParams;
  hueValues : list num;
  mouseX : num;
  mouseY : num;
  mouseLocked : bool;
  windowHalfX : num;
  windowHalfY : num;
  speed : num;
  rotationSpeed : num;
  numPointsSubset : Z;
  numSubsets : Z;
  numLevels : Z;
  controllerConnected : bool;
  orbit : Orbit;
  particleSets : list ParticleSet;
  camera : Camera;
  scene : list nat; (* children of the scene, by drawable identity *)
  destroyed : bool;
  randomCalls : nat; (* calls of Math.random made so far *)
  allocated : nat; (* drawables created so far: the next identity *)
  effects : list Effect (* calls made to the collaborators, oldest first *)
}.

(** Assignments to one field of [this]. *)
Definition set_orbitParams (v : OrbitParams) (st : Hopalong) : Hopalong :=
  Build_Hopalong v (hueValues st) (mouseX st) (mouseY st) (mouseLocked st) (windowHalfX
    st) (windowHalfY st) (speed st) (rotationSpeed st) (numPointsSubset st) (numSubsets
    st) (numLevels st) (controllerConnected st) (orbit st) (particleSets st) (camera st)
    (scene st) (destroyed st) (randomCalls st) (allocated st) (effects st).
Definition set_hueValues (v : list num) (st : Hopalong) : Hopalong :=
  Build_Hopalong (orbitParams st) v (mouseX st) (mouseY st) (mouseLocked st)
    (windowHalfX st) (windowHalfY st) (speed st) (rotationSpeed st) (numPointsSubset st)
    (numSubsets st) (numLevels st) (controllerConnected st) (orbit st) (particleSets st)
    (camera st) (scene st) (destroyed st) (randomCalls st) (allocated st) (effects st).
Definition set_mouseX (v : num) (st : Hopalong) : Hopalong :=
  Build_Hopalong (orbitParams st) (hueValues st) v (mouseY st) (mouseLocked st)
    (windowHalfX st) (windowHalfY st) (speed st) (rotationSpeed st) (numPointsSubset st)
    (numSubsets st) (numLevels st) (controllerConnected st) (orbit st) (particleSets st)
    (camera st) (scene st) (destroyed st) (randomCalls st) (allocated st) (effects st).
Definition set_mouseY (v : num) (st : Hopalong) : Hopalong :=
  Build_Hopalong (orbitParams st) (hueValues st) (mouseX st) v (mouseLocked st)
    (windowHalfX st) (windowHalfY st) (speed st) (rotationSpeed st) (numPointsSubset st)
    (numSubsets st) (numLevels st) (controllerConnected st) (orbit st) (particleSets st)
    (camera st) (scene st) (destroyed st) (randomCalls st) (allocated st) (effects st).
Definition set_mouseLocked (v : bool) (st : Hopalong) : Hopalong :=
  Build_Hopalong (orbitParams st) (hueValues st) (mouseX st) (mouseY st) v (windowHalfX
    st) (windowHalfY st) (speed st) (rotationSpeed st) (numPointsSubset st) (numSubsets
    st) (numLevels st) (controllerConnected st) (orbit st) (particleSets st) (camera st)
    (scene st) (destroyed st) (randomCalls st) (allocated st) (effects st).
Definition set_windowHalfX (v : num) (st : Hopalong) : Hopalong :=
  Build_Hopalong (orbitParams st) (hueValues st) (mouseX st) (mouseY st) (mouseLocked
    st) v (windowHalfY st) (speed st) (rotationSpeed st) (numPointsSubset st)
    (numSubsets st) (numLevels st) (controllerConnected st) (orbit st) (particleSets st)
    (camera st) (scene st) (destroyed st) (randomCalls st) (allocated st) (effects st).
Definition set_windowHalfY (v : num) (st : Hopalong) : Hopalong :=
  Build_Hopalong (orbitParams st) (hueValues st) (mouseX st) (mouseY st) (mouseLocked
    st) (windowHalfX st) v (speed st) (rotationSpeed st) (numPointsSubset st)
    (numSubsets st) (numLevels st) (controllerConnected st) (orbit st) (particleSets st)
    (camera st) (scene st) (destroyed st) (randomCalls st) (allocated st) (effects st).
Definition set_speed (v : num) (st : Hopalong) : Hopalong :=
  Build_Hopalong (orbitParams st) (hueValues st) (mouseX st) (mouseY st) (mouseLocked
    st) (windowHalfX st) (windowHalfY st) v (rotationSpeed st) (numPointsSubset st)
    (numSubsets st) (numLevels st) (controllerConnected st) (orbit st) (particleSets st)
    (camera st) (scene st) (destroyed st) (randomCalls st) (allocated st) (effects st).
Definition set_rotationSpeed (v : num) (st : Hopalong) : Hopalong :=
  Build_Hopalong (orbitParams st) (hueValues st) (mouseX st) (mouseY st) (mouseLocked
    st) (windowHalfX st) (windowHalfY st) (speed st) v (numPointsSubset st) (numSubsets
    st) (numLevels st) (controllerConnected st) (orbit st) (particleSets st) (camera st)
    (scene st) (destroyed st) (randomCalls st) (allocated st) (effects st).
Definition set_numPointsSubset (v : Z) (st : Hopalong) : Hopalong :=
  Build_Hopalong (orbitParams st) (hueValues st) (mouseX st) (mouseY st) (mouseLocked
    st) (windowHalfX st) (windowHalfY st) (speed st) (rotationSpeed st) v (numSubsets
    st) (numLevels st) (controllerConnected st) (orbit st) (particleSets st) (camera st)
    (scene st) (destroyed st) (randomCalls st) (allocated st) (effects st).
Definition set_numSubsets (v : Z) (st : Hopalong) : Hopalong :=
  Build_Hopalong (orbitParams st) (hueValues st) (mouseX st) (mouseY st) (mouseLocked
    st) (windowHalfX st) (windowHalfY st) (speed st) (rotationSpeed st) (numPointsSubset
    st) v (numLevels st) (controllerConnected st) (orbit st) (particleSets st) (camera
    st) (scene st) (destroyed st) (randomCalls st) (allocated st) (effects st).
Definition set_numLevels (v : Z) (st : Hopalong) : Hopalong :=
  Build_Hopalong (orbitParams st) (hueValues st) (mouseX st) (mouseY st) (mouseLocked
    st) (windowHalfX st) (windowHalfY st) (speed st) (rotationSpeed st) (numPointsSubset
    st) (numSubsets st) v (controllerConnected st) (orbit st) (particleSets st) (camera
    st) (scene st) (destroyed st) (randomCalls st) (allocated st) (effects st).
Definition set_controllerConnected (v : bool) (st : Hopalong) : Hopalong :=
  Build_Hopalong (orbitParams st) (hueValues st) (mouseX st) (mouseY st) (mouseLocked
    st) (windowHalfX st) (windowHalfY st) (speed st) (rotationSpeed st) (numPointsSubset
    st) (numSubsets st) (numLevels st) v (orbit st) (particleSets st) (camera st) (scene
    st) (destroyed st) (randomCalls st) (allocated st) (effects st).
Definition set_orbit (v : Orbit) (st : Hopalong) : Hopalong :=
  Build_Hopalong (orbitParams st) (hueValues st) (mouseX st) (mouseY st) (mouseLocked
    st) (windowHalfX st) (windowHalfY st) (speed st) (rotationSpeed st) (numPointsSubset
    st) (numSubsets st) (numLevels st) (controllerConnected st) v (particleSets st)
    (camera st) (scene st) (destroyed st) (randomCalls st) (allocated st) (effects st).
Definition set_particleSets (v : list ParticleSet) (st : Hopalong) : Hopalong :=
  Build_Hopalong (orbitParams st) (hueValues st) (mouseX st) (mouseY st) (mouseLocked
    st) (windowHalfX st) (windowHalfY st) (speed st) (rotationSpeed st) (numPointsSubset
    st) (numSubsets st) (numLevels st) (controllerConnected st) (orbit st) v (camera st)
    (scene st) (destroyed st) (randomCalls st) (allocated st) (effects st).
Definition set_camera (v : Camera) (st : Hopalong) : Hopalong :=
  Build_Hopalong (orbitParams st) (hueValues st) (mouseX st) (mouseY st) (mouseLocked
    st) (windowHalfX st) (windowHalfY st) (speed st) (rotationSpeed st) (numPointsSubset
    st) (numSubsets st) (numLevels st) (controllerConnected st) (orbit st) (particleSets
    st) v (scene st) (destroyed st) (randomCalls st) (allocated st) (effects st).
Definition set_scene (v : list nat) (st : Hopalong) : Hopalong :=
  Build_Hopalong (orbitParams st) (hueValues st) (mouseX st) (mouseY st) (mouseLocked
    st) (windowHalfX st) (windowHalfY st) (speed st) (rotationSpeed st) (numPointsSubset
    st) (numSubsets st) (numLevels st) (controllerConnected st) (orbit st) (particleSets
    st) (camera st) v (destroyed st) (randomCalls st) (allocated st) (effects st).
Definition set_destroyed (v : bool) (st : Hopalong) : Hopalong :=
  Build_Hopalong (orbitParams st) (hueValues st) (mouseX st) (mouseY st) (mouseLocked
    st) (windowHalfX st) (windowHalfY st) (speed st) (rotationSpeed st) (numPointsSubset
    st) (numSubsets st) (numLevels st) (controllerConnected st) (orbit st) (particleSets
    st) (camera st) (scene st) v (randomCalls st) (allocated st) (effects st).
Definition set_randomCalls (v : nat) (st : Hopalong) : Hopalong :=
  Build_Hopalong (orbitParams st) (hueValues st) (mouseX st) (mouseY st) (mouseLocked
    st) (windowHalfX st) (windowHalfY st) (speed st) (rotationSpeed st) (numPointsSubset
    st) (numSubsets st) (numLevels st) (controllerConnected st) (orbit st) (particleSets
    st) (camera st) (scene st) (destroyed st) v (allocated st) (effects st).
Definition set_allocated (v : nat) (st : Hopalong) : Hopalong :=
  Build_Hopalong (orbitParams st) (hueValues st) (mouseX st) (mouseY st) (mouseLocked
    st) (windowHalfX st) (windowHalfY st) (speed st) (rotationSpeed st) (numPointsSubset
    st) (numSubsets st) (numLevels st) (controllerConnected st) (orbit st) (particleSets
    st) (camera st) (scene st) (destroyed st) (randomCalls st) v (effects st).
Definition set_effects (v : list Effect) (st : Hopalong) : Hopalong :=
  Build_Hopalong (orbitParams st) (hueValues st) (mouseX st) (mouseY st) (mouseLocked
    st) (windowHalfX st) (windowHalfY st) (speed st) (rotationSpeed st) (numPointsSubset
    st) (numSubsets st) (numLevels st) (controllerConnected st) (orbit st) (particleSets
    st) (camera st) (scene st) (destroyed st) (randomCalls st) (allocated st) v.

Definition set_subsets (v : list (list SubsetPoint)) (o : Orbit) : Orbit :=
  Build_Orbit v (xMin o) (xMax o) (yMin o) (yMax o) (scaleX o) (scaleY o).

Definition set_needsUpdate (v : bool) (ps : ParticleSet) : ParticleSet :=
  Build_ParticleSet (myMaterial ps) (myLevel ps) (mySubset ps) v (particles ps).

(** ** Collaborators *)

Definition Math_random (st : Hopalong) : num * Hopalong :=
  (random (randomCalls st), set_randomCalls (S (randomCalls st)) st).

Definition emit (e : Effect) (st : Hopalong) : Hopalong :=
  set_effects (effects st ++ [e]) st.

(** [this.scene.add(particles)] for a freshly created object. *)
Definition scene_add (d : nat) (st : Hopalong) : Hopalong :=
  emit (SceneAdd d) (set_scene (scene st ++ [d]) st).

(** [this.scene.remove(particles)] *)
Definition scene_remove (d : nat) (st : Hopalong) : Hopalong :=
  emit (SceneRemove d) (set_scene (filter (λ d', d' ≠ d) (scene st)) st).

Definition getSettings (st : Hopalong) : SimSettings :=
  {| s_speed := speed st;
     s_rotationSpeed := rotationSpeed st;
     s_mouseLocked := mouseLocked st;
     s_cameraFov := fov (camera st);
     s_levelCount := numLevels st;
     s_subsetCount := numSubsets st;
     s_pointsPerSubset := numPointsSubset st |}.

Definition fireSettingsChange (st : Hopalong) : Hopalong :=
  emit (SettingsUpdate (getSettings st)) st.

(** ** Orbit generation *)

Definition newSubsetPoint : SubsetPoint :=
  {| sp_x := lit 0; sp_y := lit 0;
     vertex := {| v_x := lit 0; v_y := lit 0; v_z := lit 0 |} |}.

Definition initOrbit (numSubsets numPointsSubset : Z) (st : Hopalong) : Hopalong :=
  set_orbit
    (set_subsets
       (replicate (Z.to_nat numSubsets)
                  (replicate (Z.to_nat numPointsSubset) newSubsetPoint))
       (orbit st))
    st.

Definition shuffleParams (st : Hopalong) : Hopalong :=
  let '(r1, st) := Math_random st in
  let '(r2, st) := Math_random st in
  let '(r3, st) := Math_random st in
  let '(r4, st) := Math_random st in
  let '(r5, st) := Math_random st in
  set_orbitParams
    {| op_a := A_MIN + r1 * (A_MAX - A_MIN);
       op_b := B_MIN + r2 * (B_MAX - B_MIN);
       op_c := C_MIN + r3 * (C_MAX - C_MIN);
       op_d := D_MIN + r4 * (D_MAX - D_MIN);
       op_e := E_MIN + r5 * (E_MAX - E_MIN) |}
    st.

Definition prepareOrbit (st : Hopalong) : Hopalong :=
  let st := shuffleParams st in
  let o := orbit st in
  set_orbit (Build_Orbit (subsets o) (lit 0) (lit 0) (lit 0) (lit 0) (scaleX o) (scaleY o)) st.

(** The running extents, local variables of [generateOrbit]. *)
Record Extents := { e_xMin : num; e_xMax : num; e_yMin : num; e_yMax : num }.

Definition updateExtents (x y : num) (ex : Extents) : Extents :=
  let '(xmin, xmax) :=
    if x <? e_xMin ex then (x, e_xMax ex)
    else if x >? e_xMax ex then (e_xMin ex, x)
    else (e_xMin ex, e_xMax ex) in
  let '(ymin, ymax) :=
    if y <? e_yMin ex then (y, e_yMax ex)
    else if y >? e_yMax ex then (e_yMin ex, y)
    else (e_yMin ex, e_yMax ex) in
  {| e_xMin := xmin; e_xMax := xmax; e_yMin := ymin; e_yMax := ymax |}.

Definition set_xy (x y : num) (p : SubsetPoint) : SubsetPoint :=
  {| sp_x := x; sp_y := y; vertex := vertex p |}.

(** The inner loop of the first pass, from index [i] for [n] more points.
    [curSubset] is [subsets[s]], [None] when that read is [undefined];
    writing through it, or through an element it does not have, throws. *)
Fixpoint iteratePoints (n i : nat) (a b c x y : num)
    (curSubset : option (list SubsetPoint)) (ex : Extents)
    : option (option (list SubsetPoint) * Extents) :=
  match n with
  | O => Some (curSubset, ex)
  | S n' =>
      let '(xn, yn) := hopalong x y a b c in
      cur ← curSubset;
      p ← cur !! i;
      iteratePoints n' (S i) a b c xn yn
        (Some (<[i := set_xy xn yn p]> cur)) (updateExtents xn yn ex)
  end.

(** One round of the outer loop of the first pass. *)
Definition iterateSubset (numPointsSubset : Z) (a b c : num) (s : nat)
    (acc : Hopalong * Extents) : option (Hopalong * Extents) :=
  let '(st, ex) := acc in
  (* Use a different starting point for each orbit subset *)
  let '(r1, st) := Math_random st in
  let x := ofNat s * lit 0.005 * (lit 0.5 - r1) in
  let '(r2, st) := Math_random st in
  let y := ofNat s * lit 0.005 * (lit 0.5 - r2) in
  let curSubset := subsets (orbit st) !! s in
  '(written, ex) ← iteratePoints (Z.to_nat numPointsSubset) 0 a b c x y curSubset ex;
  match written with
  | Some cur => Some (set_orbit (set_subsets (<[s := cur]> (subsets (orbit st))) (orbit st)) st, ex)
  | None => Some (st, ex)
  end.

Definition set_vertex_xy (x y : num) (p : SubsetPoint) : SubsetPoint :=
  {| sp_x := sp_x p; sp_y := sp_y p;
     vertex := {| v_x := x; v_y := y; v_z := v_z (vertex p) |} |}.

(** The body of the second pass at subset [s], point [i]. *)
Definition normalizePoint (sX sY xmin ymin : num) (s i : nat) (st : Hopalong)
    : option Hopalong :=
  cur ← subsets (orbit st) !! s;
  p ← cur !! i;
  let p' := set_vertex_xy (sX * (sp_x p - xmin) - SCALE_FACTOR)
                          (sY * (sp_y p - ymin) - SCALE_FACTOR) p in
  Some (set_orbit (set_subsets (<[s := <[i := p']> cur]> (subsets (orbit st))) (orbit st)) st).

(** The parameters are primed: the second pass reads the field
    [this.numSubsets], not the parameter. *)
Definition generateOrbit (numSubsets' numPointsSubset' : Z) (st : Hopalong)
    : option Hopalong :=
  let st := prepareOrbit st in
  let a := op_a (orbitParams st) in
  let b := op_b (orbitParams st) in
  let c := op_c (orbitParams st) in
  let ex := {| e_xMin := lit 0; e_xMax := lit 0; e_yMin := lit 0; e_yMax := lit 0 |} in
  let '(choice, st) := Math_random st in
  '(st, ex) ← for_each (upto numSubsets') (iterateSubset numPointsSubset' a b c) (st, ex);
  let sX := (lit 2 * SCALE_FACTOR) / (e_xMax ex - e_xMin ex) in
  let sY := (lit 2 * SCALE_FACTOR) / (e_yMax ex - e_yMin ex) in
  let st :=
    set_orbit (Build_Orbit (subsets (orbit st)) (e_xMin ex) (e_xMax ex)
                           (e_yMin ex) (e_yMax ex) sX sY) st in
  (* Normalize and update vertex data *)
  for_each (upto (numSubsets st))
    (λ s, for_each (upto numPointsSubset')
            (normalizePoint sX sY (e_xMin ex) (e_yMin ex) s))
    st.

(** [numSubsets] calls of [Math.random], in index order. *)
Fixpoint draw (n : nat) (st : Hopalong) : list num * Hopalong :=
  match n with
  | O => ([], st)
  | S n' =>
      let '(r, st) := Math_random st in
      let '(rs, st) := draw n' st in
      (r :: rs, st)
  end.

(** [new Array(numSubsets)] throws on a negative length. *)
Definition generateHues (numSubsets : Z) (st : Hopalong) : option Hopalong :=
  if (numSubsets <? 0)%Z then None
  else let '(hues, st) := draw (Z.to_nat numSubsets) st in
       Some (set_hueValues hues st).

Definition updateOrbit (st : Hopalong) : option Hopalong :=
  st ← generateOrbit (numSubsets st) (numPointsSubset st) st;
  st ← generateHues (numSubsets st) st;
  Some (set_particleSets (map (set_needsUpdate true) (particleSets st)) st).

(** ** Particle sets *)

Definition generateParticleSet (level subset : nat) (st : Hopalong) : option Hopalong :=
  curSubset ← subsets (orbit st) !! subset;
  let vertices := map vertex curSubset in
  let color := hsvToHsl (hueValues st !! subset) DEF_SATURATION DEF_BRIGHTNESS in
  let z := - LEVEL_DEPTH * ofNat level
           - (ofNat subset * LEVEL_DEPTH) / ofZ (numSubsets st)
           + SCALE_FACTOR / lit 2 in
  let particles :=
    {| drawable := allocated st;
       geometry := vertices;
       position := {| v_x := lit 0; v_y := lit 0; v_z := z |};
       rotation_z := lit 0 |} in
  let particleSet :=
    {| myMaterial := color;
       myLevel := level;
       mySubset := subset;
       needsUpdate := false;
       particles := particles |} in
  let st := set_allocated (S (allocated st)) st in
  let st := scene_add (drawable particles) st in
  Some (set_particleSets (particleSets st ++ [particleSet]) st).

Definition in_range (st : Hopalong) (ps : ParticleSet) : bool :=
  (Z.of_nat (myLevel ps) <? numLevels st)%Z && (Z.of_nat (mySubset ps) <? numSubsets st)%Z.

(** The [filter] callback of [setLevelSubsetCount], run over the tracked
    sets in order: the sets kept, the keys recorded in [exists], and the
    state after the scene removals. *)
Fixpoint dropStale (l : list ParticleSet) (exists_ : gset string) (st : Hopalong)
    : list ParticleSet * gset string * Hopalong :=
  match l with
  | [] => ([], exists_, st)
  | ps :: l' =>
      let keep := in_range st ps in
      if keep then
        let '(kept, exists_, st) :=
          dropStale l' ({[ key (myLevel ps) (mySubset ps) ]} ∪ exists_) st in
        (ps :: kept, exists_, st)
      else
        dropStale l' exists_ (scene_remove (drawable (particles ps)) st)
  end.

(** Generate any new particle sets: the creation loops, [exists_] being the
    keys the filter recorded. *)
Definition create_missing (exists_ : gset string) (st : Hopalong) : option Hopalong :=
  for_each (upto (numLevels st))
    (λ k, for_each (upto (numSubsets st))
            (λ s st, if bool_decide (key k s ∈ exists_) then Some st
                     else generateParticleSet k s st))
    st.

(** Delete the particle sets no longer needed, generate the new ones. *)
Definition reconcile (st : Hopalong) : option Hopalong :=
  let '(kept, exists_, st) := dropStale (particleSets st) ∅ st in
  let st := set_particleSets kept st in
  create_missing exists_ st.

Definition setLevelSubsetCount (partialSettings : PartialSimSettings) (st : Hopalong)
    : option Hopalong :=
  let levelCount := p_levelCount partialSettings in
  let pointsPerSubset := p_pointsPerSubset partialSettings in
  let subsetCount := p_subsetCount partialSettings in
  let st := set_numLevels (or_prior levelCount (numLevels st)) st in
  let st := set_numSubsets (or_prior subsetCount (numSubsets st)) st in
  let st := set_numPointsSubset (or_prior pointsPerSubset (numPointsSubset st)) st in
  (* First, generate the new orbits *)
  st ← (if bool_decide (subsetCount ≠ None) || bool_decide (pointsPerSubset ≠ None)
        then updateOrbit (initOrbit (numSubsets st) (numPointsSubset st) st)
        else Some st);
  st ← reconcile st;
  Some (fireSettingsChange st).

(** ** The frame step *)

(** Easing of one camera coordinate towards [target]. *)
Definition ease (pos target : num) : num :=
  if (pos >=? - CAMERA_BOUND) && (pos <=? CAMERA_BOUND) then
    let pos := pos + (target - pos) * lit 0.05 in
    let pos := if pos <? - CAMERA_BOUND then - CAMERA_BOUND else pos in
    if pos >? CAMERA_BOUND then CAMERA_BOUND else pos
  else pos.

Definition set_position_z (z : num) (pts : Points) : Points :=
  {| drawable := drawable pts; geometry := geometry pts;
     position := {| v_x := v_x (position pts); v_y := v_y (position pts); v_z := z |};
     rotation_z := rotation_z pts |}.

(** The body of the loop of [render] for one particle set. *)
Definition advance (st : Hopalong) (particleSet : ParticleSet) : option ParticleSet :=
  let pts := particles particleSet in
  let z := v_z (position pts) + speed st in
  let pts :=
    {| drawable := drawable pts; geometry := geometry pts;
       position := {| v_x := v_x (position pts); v_y := v_y (position pts); v_z := z |};
       rotation_z := rotation_z pts + rotationSpeed st |} in
  (* if the particle level has passed the fade distance *)
  if z >? v_z (cam_position (camera st)) then
    (* move the particle level back in front of the camera *)
    let pts := set_position_z (- (ofZ (numLevels st) - lit 1) * LEVEL_DEPTH) pts in
    if needsUpdate particleSet then
      (* update the geometry and color *)
      curSubset ← subsets (orbit st) !! mySubset particleSet;
      let vertices := map vertex curSubset in
      Some {| myMaterial :=
                hsvToHsl (hueValues st !! mySubset particleSet) DEF_SATURATION DEF_BRIGHTNESS;
              myLevel := myLevel particleSet;
              mySubset := mySubset particleSet;
              needsUpdate := false;
              particles :=
                {| drawable := drawable pts; geometry := vertices;
                   position := position pts; rotation_z := rotation_z pts |} |}
    else
      Some {| myMaterial := myMaterial particleSet;
              myLevel := myLevel particleSet;
              mySubset := mySubset particleSet;
              needsUpdate := needsUpdate particleSet;
              particles := pts |}
  else
    Some {| myMaterial := myMaterial particleSet;
            myLevel := myLevel particleSet;
            mySubset := mySubset particleSet;
            needsUpdate := needsUpdate particleSet;
            particles := pts |}.

Definition getMouseX (st : Hopalong) : num := mouseX st.
Definition getMouseY (st : Hopalong) : num := mouseY st.

Definition render (st : Hopalong) : option Hopalong :=
  let cam := camera st in
  let cx := ease (v_x (cam_position cam)) (getMouseX st) in
  let cy := ease (v_y (cam_position cam)) (- getMouseY st) in
  let st :=
    set_camera {| cam_position := {| v_x := cx; v_y := cy; v_z := v_z (cam_position cam) |};
                  fov := fov cam |} st in
  (* update particle positions *)
  sets ← mapM (advance st) (particleSets st);
  Some (emit RenderFrame (set_particleSets sets st)).

(** [requestAnimationFrame] queues the next frame; one call runs one frame. *)
Definition animate (st : Hopalong) : option Hopalong :=
  if destroyed st then Some st else render st.

(** ** Event listeners *)

Record MouseEvent := { clientX : num; clientY : num }.
Record Touch := { pageX : num; pageY : num }.
Record TouchEvent := { touches : list Touch }.

Definition onDocumentMouseMove (event : MouseEvent) (st : Hopalong) : Hopalong :=
  if mouseLocked st then st
  else
    let st := set_mouseX (clientX event - windowHalfX st) st in
    set_mouseY (clientY event - windowHalfY st) st.

Definition onDocumentTouchStart (event : TouchEvent) (st : Hopalong) : Hopalong :=
  if mouseLocked st then st
  else
    match touches event with
    | [t] =>
        let st := set_mouseX (pageX t - windowHalfX st) st in
        set_mouseY (pageY t - windowHalfY st) st
    | _ => st
    end.

Definition onDocumentTouchMove (event : TouchEvent) (st : Hopalong) : Hopalong :=
  if mouseLocked st then st
  else
    match touches event with
    | [t] =>
        let st := set_mouseX (pageX t - windowHalfX st) st in
        set_mouseY (pageY t - windowHalfY st) st
    | _ => st
    end.

(** [setMouseLock(locked?)]: [None] is the call without an argument. *)
Definition setMouseLock (locked : option bool) (st : Hopalong) : Hopalong :=
  let st :=
    match locked with
    | None => set_mouseLocked (negb (mouseLocked st)) st
    | Some b => set_mouseLocked b st
    end in
  fireSettingsChange st.

Definition set_camera_xy (x y : num) (cam : Camera) : Camera :=
  {| cam_position := {| v_x := x; v_y := y; v_z := v_z (cam_position cam) |};
     fov := fov cam |}.

Definition recenterCamera (st : Hopalong) : Hopalong :=
  let st := set_camera (set_camera_xy (lit 0) (lit 0) (camera st)) st in
  let st := set_mouseX (lit 0) st in
  let st := set_mouseY (lit 0) st in
  setMouseLock (Some true) st.

(** ** Settings *)

Definition setCameraFOV (fov' : num) (st : Hopalong) : Hopalong :=
  let st := set_camera {| cam_position := cam_position (camera st); fov := fov' |} st in
  fireSettingsChange st.

Definition applySettings (settings : PartialSimSettings) (st : Hopalong) : option Hopalong :=
  let st := match p_speed settings with Some v => set_speed v st | None => st end in
  let st := match p_rotationSpeed settings with
            | Some v => set_rotationSpeed v st | None => st end in
  let st := match p_mouseLocked settings with
            | Some v => set_mouseLocked v st | None => st end in
  let st := match p_cameraFov settings with Some v => setCameraFOV v st | None => st end in
  let advancedSettings :=
    {| p_speed := None; p_rotationSpeed := None; p_cameraFov := None;
       p_pointsPerSubset := p_pointsPerSubset settings;
       p_subsetCount := p_subsetCount settings;
       p_levelCount := p_levelCount settings;
       p_mouseLocked := None |} in
  if bool_decide (p_levelCount settings ≠ None)
     || bool_decide (p_subsetCount settings ≠ None)
     || bool_decide (p_pointsPerSubset settings ≠ None)
  then setLevelSubsetCount advancedSettings st
  else Some st.

Definition changeFov (delta : num) (st : Hopalong) : Hopalong :=
  setCameraFOV (fov (camera st) + delta) st.

Definition changeSpeed (delta : num) (st : Hopalong) : Hopalong :=
  let newSpeed := speed st + delta in
  let st := if newSpeed >=? lit 0 then set_speed newSpeed st else set_speed (lit 0) st in
  fireSettingsChange st.

Definition changeRotationSpeed (delta : num) (st : Hopalong) : Hopalong :=
  fireSettingsChange (set_rotationSpeed (rotationSpeed st + delta) st).

Definition changeLevelSubset (delta : Z) (st : Hopalong) : option Hopalong :=
  setLevelSubsetCount
    {| p_speed := None; p_rotationSpeed := None; p_cameraFov := None;
       p_pointsPerSubset := None;
       p_subsetCount := Some (numSubsets st + delta)%Z;
       p_levelCount := Some (numLevels st + delta)%Z;
       p_mouseLocked := None |}
    st.

Definition changePointsPerSubset (delta : Z) (st : Hopalong) : option Hopalong :=
  setLevelSubsetCount
    {| p_speed := None; p_rotationSpeed := None; p_cameraFov := None;
       p_pointsPerSubset := Some (numPointsSubset st + delta)%Z;
       p_subsetCount := None;
       p_levelCount := None;
       p_mouseLocked := None |}
    st.

Definition resetDefaults (st : Hopalong) : option Hopalong :=
  let st := set_speed DEFAULT_SPEED st in
  let st := set_rotationSpeed DEFAULT_ROTATION_SPEED st in
  let st := set_camera {| cam_position := cam_position (camera st); fov := DEFAULT_FOV |} st in
  let st := set_mouseLocked false st in
  st ← setLevelSubsetCount
         {| p_speed := None; p_rotationSpeed := None; p_cameraFov := None;
            p_pointsPerSubset := Some DEFAULT_POINTS_SUBSET;
            p_subsetCount := Some DEFAULT_SUBSETS;
            p_levelCount := Some DEFAULT_LEVELS;
            p_mouseLocked := None |}
         st;
  Some (fireSettingsChange st).

Definition stopMovement (st : Hopalong) : Hopalong :=
  set_rotationSpeed (lit 0) (set_speed (lit 0) st).

(** [requestAnimationFrame(this.controllerLoop)] only queues the polling. *)
Definition initGamepadMode (st : Hopalong) : Hopalong :=
  let st := set_controllerConnected true st in
  let st := stopMovement st in
  recenterCamera st.

Definition onControllerConnected (st : Hopalong) : Hopalong :=
  initGamepadMode (set_controllerConnected true st).

Definition onControllerDisconnected (st : Hopalong) : Hopalong :=
  set_controllerConnected false st.

(** [String.prototype.toUpperCase] on one ASCII character. *)
Definition toUpperCase (c : ascii) : ascii :=
  let n := nat_of_ascii c in
  if (97 <=? n)%nat && (n <=? 122)%nat then ascii_of_nat (n - 32) else c.

(** [onKeyDown] for the event's [key].  The H shortcut toggles a class of
    the document body and leaves the object as it is. *)
Definition onKeyDown (key : string) (st : Hopalong) : option Hopalong :=
  let keyNormalised :=
    match key with
    | String c EmptyString => String (toUpperCase c) EmptyString
    | _ => key
    end in
  if String.eqb keyNormalised "F" then Some (changeFov FOV_DELTA st)
  else if String.eqb keyNormalised "G" then Some (changeFov (- FOV_DELTA) st)
  else if String.eqb keyNormalised "." then changeLevelSubset 1 st
  else if String.eqb keyNormalised "," then changeLevelSubset (-1) st
  else if String.eqb keyNormalised "P" then changePointsPerSubset POINTS_DELTA st
  else if String.eqb keyNormalised "O" then changePointsPerSubset (- POINTS_DELTA) st
  else if String.eqb keyNormalised "H" then Some st
  else if String.eqb keyNormalised "C" then Some (recenterCamera st)
  else if controllerConnected st then Some st
  else if String.eqb keyNormalised "ArrowUp" then Some (changeSpeed SPEED_DELTA st)
  else if String.eqb keyNormalised "W" then Some (changeSpeed SPEED_DELTA_EXTRA st)
  else if String.eqb keyNormalised "ArrowDown" then Some (changeSpeed (- SPEED_DELTA) st)
  else if String.eqb keyNormalised "S" then Some (changeSpeed (- SPEED_DELTA_EXTRA) st)
  else if String.eqb keyNormalised "ArrowLeft" then Some (changeRotationSpeed ROTATION_DELTA st)
  else if String.eqb keyNormalised "A" then Some (changeRotationSpeed ROTATION_DELTA_EXTRA st)
  else if String.eqb keyNormalised "ArrowRight"
       then Some (changeRotationSpeed (- ROTATION_DELTA) st)
  else if String.eqb keyNormalised "D"
       then Some (changeRotationSpeed (- ROTATION_DELTA_EXTRA) st)
  else if String.eqb keyNormalised "R" then resetDefaults st
  else if String.eqb keyNormalised "L" then Some (setMouseLock None st)
  else Some st.

(** ** Construction *)

(** The constructor's [settings], and the window size it reads. *)
Record ConstructorProps := {
  settings : PartialSimSettings;
  innerWidth : num;
  innerHeight : num
}.

(** The object after its field initialisers, before the constructor body. *)
Definition new_object (props : ConstructorProps) : Hopalong :=
  {| orbitParams := {| op_a := lit 0; op_b := lit 0; op_c := lit 0;
                       op_d := lit 0; op_e := lit 0 |};
     hueValues := [];
     mouseX := lit 0;
     mouseY := lit 0;
     mouseLocked := false;
     windowHalfX := innerWidth props / lit 2;
     windowHalfY := innerHeight props / lit 2;
     speed := lit 0;
     rotationSpeed := lit 0;
     numPointsSubset := 0;
     numSubsets := 0;
     numLevels := 0;
     controllerConnected := false;
     orbit := {| subsets := []; xMin := lit 0; xMax := lit 0; yMin := lit 0;
                 yMax := lit 0; scaleX := lit 0; scaleY := lit 0 |};
     particleSets := [];
     camera := {| cam_position := {| v_x := lit 0; v_y := lit 0; v_z := lit 0 |};
                  fov := lit 0 |};
     scene := [];
     destroyed := false;
     randomCalls := 0;
     allocated := 0;
     effects := [] |}.

(** [v || fallback] on an optional number. *)
Definition or_default (v : option num) (fallback : num) : num :=
  match v with
  | Some x => if truthy x then x else fallback
  | None => fallback
  end.

Definition init (st : Hopalong) : option Hopalong :=
  let st :=
    set_camera {| cam_position := {| v_x := lit 0; v_y := lit 0;
                                     v_z := SCALE_FACTOR / lit 2 |};
                  fov := DEFAULT_FOV |} st in
  let st := set_scene [] st in
  st ← generateOrbit (numSubsets st) (numPointsSubset st) st;
  st ← generateHues (numSubsets st) st;
  (* Create particle systems *)
  for_each (upto (numLevels st))
    (λ k, for_each (upto (numSubsets st)) (λ s, generateParticleSet k s))
    st.

Definition constructor (props : ConstructorProps) : option Hopalong :=
  let st := new_object props in
  let st := set_speed (or_default (p_speed (settings props)) DEFAULT_SPEED) st in
  let st := set_rotationSpeed
              (or_default (p_rotationSpeed (settings props)) DEFAULT_ROTATION_SPEED) st in
  let st := set_numSubsets (or_prior (p_subsetCount (settings props)) DEFAULT_SUBSETS) st in
  let st := set_numLevels (or_prior (p_levelCount (settings props)) DEFAULT_LEVELS) st in
  let st := set_numPointsSubset
              (or_prior (p_pointsPerSubset (settings props)) DEFAULT_POINTS_SUBSET) st in
  let st := set_mouseLocked (default false (p_mouseLocked (settings props))) st in
  let st := set_controllerConnected false st in
  let st := initOrbit (numSubsets st) (numPointsSubset st) st in
  st ← init st;
  st ← animate st;
  Some (fireSettingsChange st).

End Simulation.

Arguments Vector3 : clear implicits.
Arguments OrbitParams : clear implicits.
Arguments SubsetPoint : clear implicits.
Arguments Orbit : clear implicits.
Arguments Points : clear implicits.
Arguments ParticleSet : clear implicits.
Arguments Camera : clear implicits.
Arguments SimSettings : clear implicits.
Arguments PartialSimSettings : clear implicits.
Arguments Effect : clear implicits.
Arguments Hopalong : clear implicits.
Arguments Extents : clear implicits.
Arguments MouseEvent : clear implicits.
Arguments Touch : clear implicits.
Arguments TouchEvent : clear implicits.
Arguments ConstructorProps : clear implicits.

(** ** What the generator computes, as functions of the drawn numbers

    These definitions restate the two passes of [generateOrbit] without the
    state; the lemmas below prove that the method computes them. *)

Section Characterisation.
Context {num : Type} `{!JsNumber num}.
Local Open Scope num_scope.
Variable random : nat → num.

(** The points the map visits from [(x, y)]: [n] applications of [hopalong]. *)
Fixpoint trajectory (n : nat) (a b c x y : num) : list (num * num) :=
  match n with
  | O => []
  | S n' => let '(xn, yn) := hopalong x y a b c in (xn, yn) :: trajectory n' a b c xn yn
  end.

Definition write_point (xy : num * num) (p : SubsetPoint num) : SubsetPoint num :=
  set_xy xy.1 xy.2 p.

(** The raw coordinates a subset holds. *)
Definition raw_points (cur : list (SubsetPoint num)) : list (num * num) :=
  map (λ p, (sp_x p, sp_y p)) cur.

Definition extents_after (pts : list (num * num)) (ex : Extents num) : Extents num :=
  fold_left (λ ex xy, updateExtents xy.1 xy.2 ex) pts ex.

(** The starting coordinate of subset [s] for the draw [r]. *)
Definition seed (s : nat) (r : num) : num := ofNat s * lit 0.005 * (lit 0.5 - r).

(** The points of subset [s], when [r0] calls of [Math.random] precede the
    first pass. *)
Definition subset_trajectory (r0 N : nat) (a b c : num) (s : nat) : list (num * num) :=
  trajectory N a b c (seed s (random (r0 + 2 * s))) (seed s (random (r0 + 2 * s + 1))).

Definition with_subsets (subs : list (list (SubsetPoint num))) (st : Hopalong num)
    : Hopalong num :=
  set_orbit (set_subsets subs (orbit st)) st.

Definition zero_extents : Extents num :=
  {| e_xMin := lit 0; e_xMax := lit 0; e_yMin := lit 0; e_yMax := lit 0 |}.

Definition normalized (sX sY xmin ymin : num) (p : SubsetPoint num) : SubsetPoint num :=
  set_vertex_xy (sX * (sp_x p - xmin) - SCALE_FACTOR)
                (sY * (sp_y p - ymin) - SCALE_FACTOR) p.

(** The subsets after [k] rounds of the first pass. *)
Definition first_pass_subsets (r0 N : nat) (a b c : num) (k : nat)
    (subs : list (list (SubsetPoint num))) : list (list (SubsetPoint num)) :=
  imap (λ s cur, if bool_decide (s < k)%nat
                 then zip_with write_point (subset_trajectory r0 N a b c s) cur
                 else cur) subs.

(** The running extents after [k] rounds of the first pass. *)
Definition first_pass_extents (r0 N : nat) (a b c : num) (k : nat) : Extents num :=
  extents_after (concat (map (subset_trajectory r0 N a b c) (seq 0 k))) zero_extents.

(** The state [generateOrbit] leaves, for [S'] subsets of [N] points. *)
Definition generated (S' N : nat) (st : Hopalong num) : Hopalong num :=
  let st1 := prepareOrbit random st in
  let a := op_a (orbitParams st1) in
  let b := op_b (orbitParams st1) in
  let c := op_c (orbitParams st1) in
  let r0 := (6 + randomCalls st)%nat in
  let ex := first_pass_extents r0 N a b c S' in
  let sX := (lit 2 * SCALE_FACTOR) / (e_xMax ex - e_xMin ex) in
  let sY := (lit 2 * SCALE_FACTOR) / (e_yMax ex - e_yMin ex) in
  let raw := first_pass_subsets r0 N a b c S' (subsets (orbit st)) in
  set_orbit
    (Build_Orbit (map (map (normalized sX sY (e_xMin ex) (e_yMin ex))) raw)
                 (e_xMin ex) (e_xMax ex) (e_yMin ex) (e_yMax ex) sX sY)
    (set_randomCalls (r0 + 2 * S') st1).

(** [generate(S, N)]: [initOrbit] followed by [generateOrbit]. *)
Definition generate (S' N : Z) (st : Hopalong num) : option (Hopalong num) :=
  generateOrbit random S' N (initOrbit S' N st).

End Characterisation.

(** ** The specification's formulas, over the reals *)

(** The sign function, with [sign(0) = 0]. *)
Definition spec_sign (x : R) : R :=
  match total_order_T x 0 with
  | inleft (left _) => (-1)%R
  | inleft (right _) => 0%R
  | inright _ => 1%R
  end.

Definition variant1 (x y a b c : R) : R * R :=
  ((y - sqrt (Rabs (b * x - c)) * spec_sign x)%R, (a - x)%R).

Definition variant2 (x y a b c : R) : R * R :=
  ((y - 1 - sqrt (Rabs (b * x - 1 - c)) * spec_sign (x - 1))%R, (a - x - 1)%R).

(** ** Vocabulary of the properties *)

Section Vocabulary.
Context {num : Type} `{!JsNumber num}.
Local Open Scope num_scope.

(** The (level, subset) pair a particle set was created for. *)
Definition level_subset (ps : ParticleSet num) : nat * nat := (myLevel ps, mySubset ps).

(** The pairs the creation loops visit, in their order. *)
Definition pairs (levels subsets' : nat) : list (nat * nat) :=
  flat_map (λ k, map (λ s, (k, s)) (seq 0 subsets')) (seq 0 levels).

(** The keys [exists] holds after the filter kept the sets [l]. *)
Definition keys_of (l : list (ParticleSet num)) : gset string :=
  list_to_set (map (λ ps, key (myLevel ps) (mySubset ps)) l).

Definition drawables (l : list (ParticleSet num)) : list nat :=
  map (λ ps, drawable (particles ps)) l.

(** The tracked sets whose indices fell out of range. *)
Definition stale (st : Hopalong num) (l : list (ParticleSet num)) : list (ParticleSet num) :=
  filter (λ ps, negb (in_range st ps)) l.

Definition remove_all (ds : list nat) (st : Hopalong num) : Hopalong num :=
  fold_left (λ st d, scene_remove d st) ds st.

(** A particle set up to its dirty flag: identity, geometry, colour,
    placement and indices. *)
Definition shown (ps : ParticleSet num) : ParticleSet num := set_needsUpdate false ps.

(** Every tracked set is in range and every pair in range has its key
    among the tracked sets: what reconciliation establishes. *)
Definition reconciled (st : Hopalong num) : Prop :=
  Forall (λ ps, in_range st ps = true) (particleSets st)
  ∧ ∀ k s : nat, (Z.of_nat k < numLevels st)%Z → (Z.of_nat s < numSubsets st)%Z →
      key k s ∈ keys_of (particleSets st).

(** The fields the orbit generator and the particle-set registry only read. *)
Definition controls (st : Hopalong num)
    : (num * num * num * num * bool) * (Z * Z * Z) * (Camera num * num * num * bool * bool) :=
  ((speed st, rotationSpeed st, mouseX st, mouseY st, mouseLocked st),
   (numLevels st, numSubsets st, numPointsSubset st),
   (camera st, windowHalfX st, windowHalfY st, controllerConnected st, destroyed st)).

(** Whether a (level, subset) pair is in range for the given counts. *)
Definition pair_in_range (levels subsets' : Z) (ks : nat * nat) : bool :=
  (Z.of_nat ks.1 <? levels)%Z && (Z.of_nat ks.2 <? subsets')%Z.

(** What the creation loops maintain: the frame, every tracked set in
    range, the recorded keys among the tracked ones. *)
Definition creating (exists_ : gset string) (st0 t : Hopalong num) : Prop :=
  controls t = controls st0 ∧ orbit t = orbit st0 ∧ hueValues t = hueValues st0
  ∧ orbitParams t = orbitParams st0 ∧ randomCalls t = randomCalls st0
  ∧ Forall (λ ps, in_range st0 ps = true) (particleSets t)
  ∧ (∀ kk, kk ∈ exists_ → kk ∈ keys_of (particleSets t)).

(** [t] differs from [st] in the orbit data, the hues, the parameters and
    the count of draws at most. *)
Definition regenerated (st t : Hopalong num) : Prop :=
  particleSets t = particleSets st ∧ scene t = scene st ∧ effects t = effects st
  ∧ allocated t = allocated st ∧ controls t = controls st.

(** The three assignments that open [setLevelSubsetCount]. *)
Definition assign_counts (p : PartialSimSettings num) (st : Hopalong num) : Hopalong num :=
  let st := set_numLevels (or_prior (p_levelCount p) (numLevels st)) st in
  let st := set_numSubsets (or_prior (p_subsetCount p) (numSubsets st)) st in
  set_numPointsSubset (or_prior (p_pointsPerSubset p) (numPointsSubset st)) st.

(** Whether [setLevelSubsetCount] regenerates the orbit. *)
Definition regenerates (p : PartialSimSettings num) : bool :=
  bool_decide (p_subsetCount p ≠ None) || bool_decide (p_pointsPerSubset p ≠ None).

(** Pointer events, for sequences of them. *)
Inductive PointerEvent :=
| MouseMove (e : MouseEvent num)
| TouchStart (e : TouchEvent num)
| TouchMove (e : TouchEvent num).

Definition onPointerEvent (e : PointerEvent) (st : Hopalong num) : Hopalong num :=
  match e with
  | MouseMove e => onDocumentMouseMove e st
  | TouchStart e => onDocumentTouchStart e st
  | TouchMove e => onDocumentTouchMove e st
  end.

(** An instance of the parameter [hsvToHsl], at which the model is run. *)
Definition hsvToHsl_standard (h : option num) (s v : num) : num * num * num :=
  let l := v * (lit 1 - s / lit 2) in
  let m := Math_min l (lit 1 - l) in
  (default (lit 0) h, if truthy m then (v - l) / m else lit 0, l).

End Vocabulary.

Arguments PointerEvent : clear implicits.

(** Bounds and scales over the reals. *)
Definition ordered (ex : Extents R) : Prop :=
  (e_xMin ex <= e_xMax ex ∧ e_yMin ex <= e_yMax ex)%R.

Definition inside (ex : Extents R) (xy : R * R) : Prop :=
  (e_xMin ex <= xy.1 <= e_xMax ex ∧ e_yMin ex <= xy.2 <= e_yMax ex)%R.

Definition widens (ex ex' : Extents R) : Prop :=
  (e_xMin ex' <= e_xMin ex ∧ e_xMax ex <= e_xMax ex'
   ∧ e_yMin ex' <= e_yMin ex ∧ e_yMax ex <= e_yMax ex')%R.

(** ** Inputs at which the model is run *)

(** Every draw is 0. *)
Definition zero_draws : nat → R := λ _, 0%R.

Definition example_props_R : ConstructorProps R :=
  {| settings := no_settings; innerWidth := 800%R; innerHeight := 600%R |}.

(** An object asked for one subset, before its orbit is allocated. *)
Definition one_subset_R : Hopalong R := set_numSubsets 1 (new_object example_props_R).

(** [generate(1, 2)] on it. *)
Definition two_points_R : Hopalong R :=
  generated zero_draws 1 2 (initOrbit 1 2 one_subset_R).

(** A stream of draws in [0, 1), in binary64. *)
Definition example_random (n : nat) : PrimFloat.float :=
  PrimFloat.div (float_of_Z ((Z.of_nat n * 7919 + 104729) mod 10007))
                (float_of_Z 10007).



(** A small object: 2 levels, 2 subsets, 3 points per subset. *)
Definition small_props : ConstructorProps PrimFloat.float :=
  {| settings := {| p_speed := None; p_rotationSpeed := None; p_cameraFov := None;
                    p_pointsPerSubset := Some 3%Z; p_subsetCount := Some 2%Z;
                    p_levelCount := Some 2%Z; p_mouseLocked := None |};
     innerWidth := lit 1920; innerHeight := lit 1080 |}.

Definition small_state : Hopalong PrimFloat.float :=
  Eval vm_compute in
    default (new_object small_props)
            (constructor example_random hsvToHsl_standard small_props).

(** The small object after a regeneration, and after one more frame. *)
Definition small_regenerated : Hopalong PrimFloat.float :=
  Eval vm_compute in default small_state (updateOrbit example_random small_state).

Definition small_rendered : Hopalong PrimFloat.float :=
  Eval vm_compute in default small_regenerated (render hsvToHsl_standard small_regenerated).

(** The small object at a speed of 760, at which two of its four particle
    sets pass the camera (at z = 750) in one frame; then a regeneration,
    and then that frame. *)
Definition fast : PartialSimSettings PrimFloat.float :=
  {| p_speed := Some (lit 760); p_rotationSpeed := None; p_cameraFov := None;
     p_pointsPerSubset := None; p_subsetCount := None; p_levelCount := None;
     p_mouseLocked := None |}.

Definition small_fast : Hopalong PrimFloat.float :=
  Eval vm_compute in
    default small_state
            (applySettings example_random hsvToHsl_standard fast small_state).

Definition small_fast_regenerated : Hopalong PrimFloat.float :=
  Eval vm_compute in default small_fast (updateOrbit example_random small_fast).

Definition small_fast_rendered : Hopalong PrimFloat.float :=
  Eval vm_compute in
    default small_fast_regenerated (render hsvToHsl_standard small_fast_regenerated).

(** Partial settings: a third level; a rotation speed of 0; a rotation speed
    of 0 together with a level count of 0. *)
Definition three_levels : PartialSimSettings PrimFloat.float :=
  {| p_speed := None; p_rotationSpeed := None; p_cameraFov := None;
     p_pointsPerSubset := None; p_subsetCount := None;
     p_levelCount := Some 3%Z; p_mouseLocked := None |}.

Definition rotation_zero : PartialSimSettings PrimFloat.float :=
  {| p_speed := None; p_rotationSpeed := Some (lit 0); p_cameraFov := None;
     p_pointsPerSubset := None; p_subsetCount := None;
     p_levelCount := None; p_mouseLocked := None |}.

Definition rotation_and_levels_zero : PartialSimSettings PrimFloat.float :=
  {| p_speed := None; p_rotationSpeed := Some (lit 0); p_cameraFov := None;
     p_pointsPerSubset := None; p_subsetCount := None;
     p_levelCount := Some 0%Z; p_mouseLocked := None |}.

Definition small_three_levels : Hopalong PrimFloat.float :=
  Eval vm_compute in
    default small_state
            (setLevelSubsetCount example_random hsvToHsl_standard three_levels small_state).

Definition small_zeroed : Hopalong PrimFloat.float :=
  Eval vm_compute in
    default small_state
            (applySettings example_random hsvToHsl_standard rotation_and_levels_zero
                           small_state).

(** ** gamepad.ts: the arcade strategies and the choice of a strategy *)

(** [s.includes(searchString)] *)
Fixpoint includes (searchString s : string) : bool :=
  String.prefix searchString s
  || match s with
     | EmptyString => false
     | String _ s' => includes searchString s'
     end.

Section Gamepads.
Context {num : Type} `{!JsNumber num}.
Local Open Scope num_scope.

(** [Math.pow], the parameter of [exponentiate] and [magnitude]. *)
Variable Math_pow : num → num → num.

Record GamepadButton := { pressed : bool }.

(** The polled device with its [id] and [buttons]; [gp_axes] holds the
    [axes] the helpers of the standard strategy read. *)
Record GamepadDevice := {
  gp_id : string;
  gp_buttons : list GamepadButton;
  gp_axes : Gamepad num
}.

(** [MovementStrategy]; [None] when the strategy throws. *)
Definition MovementStrategy : Type :=
  Bounds num → Movement num → GamepadDevice → option (Movement num).

Record ArcadeButtonMapping := {
  bigRightButtonIndex : nat;
  bigLeftButtonIndex : nat;
  smallRightButtonIndex : nat;
  smallLeftButtonIndex : nat
}.

(** The first listing of gamepad.ts.  A button the device does not report
    reads [undefined], and reading [pressed] through it throws; the big left
    button is read only when the big right one is not pressed, both small
    buttons are read on every path.  An axis the device does not report
    reads NaN, as in [stdGamepadMovementStrategy], and nothing throws. *)
Definition arcadeGamepadMovementStrategyBuilder (buttons : ArcadeButtonMapping)
    : MovementStrategy :=
  λ bounds current gamepad,
    let x := mv_x current in
    let y := mv_y current in
    let bigRightButton := gp_buttons gamepad !! bigRightButtonIndex buttons in
    let bigLeftButton := gp_buttons gamepad !! bigLeftButtonIndex buttons in
    speed ← (r ← bigRightButton;
             if pressed r then Some (lit 8)
             else l ← bigLeftButton; Some (if pressed l then lit 4 else lit 2));
    let smallRightButton := gp_buttons gamepad !! smallRightButtonIndex buttons in
    let smallLeftButton := gp_buttons gamepad !! smallLeftButtonIndex buttons in
    r ← smallRightButton;
    l ← smallLeftButton;
    let rotationSpeed :=
      if pressed r && pressed l then lit 0
      else if pressed r then - lit 0.02
      else if pressed l then lit 0.02
      else lit 0 in
    let speedEasterEgg := if pressed r && pressed l then lit 4 else lit 1 in
    (* Transverse momentum *)
    let rightStickHorizontal := deadzone (axis (gp_axes gamepad) 0) in
    let transverseSpeedX := signedSqrt rightStickHorizontal * lit 10 in
    let newX := clamp (- width bounds / lit 2) (transverseSpeedX + x)
                      (Some (width bounds / lit 2)) in
    let rightStickVertical := deadzone (axis (gp_axes gamepad) 1) in
    let transverseSpeedY := signedSqrt rightStickVertical * lit 10 in
    let newY := clamp (- height bounds / lit 2) (transverseSpeedY + y)
                      (Some (height bounds / lit 2)) in
    Some {| mv_speed := speed * speedEasterEgg;
            mv_rotationSpeed := rotationSpeed;
            mv_x := newX;
            mv_y := newY |}.

Definition windowsArcadeButtonMapping : ArcadeButtonMapping :=
  {| bigRightButtonIndex := 1; bigLeftButtonIndex := 0;
     smallRightButtonIndex := 3; smallLeftButtonIndex := 2 |}.

Definition linuxArcadeButtonMapping : ArcadeButtonMapping :=
  {| bigRightButtonIndex := 0; bigLeftButtonIndex := 3;
     smallRightButtonIndex := 1; smallLeftButtonIndex := 2 |}.

(** The standard strategy on a polled device. *)
Definition standard : MovementStrategy :=
  λ bounds current gamepad,
    stdGamepadMovementStrategy Math_pow bounds current (gp_axes gamepad).

Definition buildGamepadMovementStrategy (gamepad : GamepadDevice) : MovementStrategy :=
  if includes "SPEEDLINK COMPETITION PRO (Vendor: " (gp_id gamepad) then
    arcadeGamepadMovementStrategyBuilder windowsArcadeButtonMapping
  else if includes "SPEEDLINK COMPETITION PRO Game Controller for Android"
                   (gp_id gamepad) then
    arcadeGamepadMovementStrategyBuilder linuxArcadeButtonMapping
  else standard.

(** The second listing of gamepad.ts: one arcade strategy, with the button
    indices written in and an easter egg of 2. *)
Definition arcadeGamepadMovementStrategy : MovementStrategy :=
  λ bounds current gamepad,
    let x := mv_x current in
    let y := mv_y current in
    let bigRightButton := gp_buttons gamepad !! 0%nat in
    let bigLeftButton := gp_buttons gamepad !! 3%nat in
    speed ← (r ← bigRightButton;
             if pressed r then Some (lit 8)
             else l ← bigLeftButton; Some (if pressed l then lit 4 else lit 2));
    let smallRightButton := gp_buttons gamepad !! 1%nat in
    let smallLeftButton := gp_buttons gamepad !! 2%nat in
    r ← smallRightButton;
    l ← smallLeftButton;
    let rotationSpeed :=
      if pressed r && pressed l then lit 0
      else if pressed r then - lit 0.02
      else if pressed l then lit 0.02
      else lit 0 in
    let speedEasterEgg := if pressed r && pressed l then lit 2 else lit 1 in
    (* Transverse momentum *)
    let rightStickHorizontal := deadzone (axis (gp_axes gamepad) 0) in
    let transverseSpeedX := signedSqrt rightStickHorizontal * lit 10 in
    let newX := clamp (- width bounds / lit 2) (transverseSpeedX + x)
                      (Some (width bounds / lit 2)) in
    let rightStickVertical := deadzone (axis (gp_axes gamepad) 1) in
    let transverseSpeedY := signedSqrt rightStickVertical * lit 10 in
    let newY := clamp (- height bounds / lit 2) (transverseSpeedY + y)
                      (Some (height bounds / lit 2)) in
    Some {| mv_speed := speed * speedEasterEgg;
            mv_rotationSpeed := rotationSpeed;
            mv_x := newX;
            mv_y := newY |}.

Definition buildGamepadMovementStrategy_second (gamepad : GamepadDevice)
    : MovementStrategy :=
  if includes "SPEEDLINK COMPETITION PRO Game Controller for Android" (gp_id gamepad)
  then arcadeGamepadMovementStrategy
  else standard.

(** ** hopalong.ts: the gamepad loop, resizing and destruction *)

(** [destroy]: the interval and the renderer are outside the state. *)
Definition destroy (st : Hopalong num) : Hopalong num := set_destroyed true st.

Definition getBounds (st : Hopalong num) : Bounds num :=
  {| width := windowHalfX st * lit 2; height := windowHalfY st * lit 2 |}.

Definition getCurrentMovement (st : Hopalong num) : Movement num :=
  {| mv_speed := speed st; mv_rotationSpeed := rotationSpeed st;
     mv_x := mouseX st; mv_y := mouseY st |}.

Definition applyMovement (movement : Movement num) (st : Hopalong num) : Hopalong num :=
  let st := set_speed (mv_speed movement) st in
  let st := set_rotationSpeed (mv_rotationSpeed movement) st in
  let st := set_mouseX (mv_x movement) st in
  set_mouseY (mv_y movement) st.

(** [build] is the imported [buildGamepadMovementStrategy], of either
    listing. *)
Definition updateGamepadMovement (build : GamepadDevice → MovementStrategy)
    (gamepad : GamepadDevice) (st : Hopalong num) : option (Hopalong num) :=
  let movementStrategyExecutor := build gamepad in
  let bounds := getBounds st in
  let currentMovement := getCurrentMovement st in
  nextMovement ← movementStrategyExecutor bounds currentMovement gamepad;
  let st := applyMovement nextMovement st in
  Some (fireSettingsChange st).

(** [controllerLoop]; [polled] is the first entry of
    [navigator.getGamepads()], [None] when it is [null] or missing.  The
    next poll is only queued. *)
Definition controllerLoop (build : GamepadDevice → MovementStrategy)
    (polled : option GamepadDevice) (st : Hopalong num) : option (Hopalong num) :=
  match polled with
  | Some gamepad =>
      if negb (controllerConnected st) then Some st
      else updateGamepadMovement build gamepad st
  | None => Some st
  end.

Definition exitGamepadMode (st : Hopalong num) : Hopalong num :=
  set_controllerConnected false st.

(** [onWindowResize] for the window's new inner size; the camera's aspect
    and the renderer are outside the state. *)
Definition onWindowResize (innerWidth' innerHeight' : num) (st : Hopalong num)
    : Hopalong num :=
  let st := set_windowHalfX (innerWidth' / lit 2) st in
  set_windowHalfY (innerHeight' / lit 2) st.

End Gamepads.

Arguments GamepadDevice : clear implicits.
Arguments MovementStrategy : clear implicits.

(** ** Invariants of the object, and the events that drive it *)

(** No character of the string is a dash. *)
Fixpoint dashless (s : string) : Prop :=
  match s with
  | EmptyString => True
  | String c s' => c ≠ "-"%char ∧ dashless s'
  end.

Section Invariants.
Context {num : Type} `{!JsNumber num}.
Local Open Scope num_scope.
Variable random : nat → num.
Variable hsvToHsl : option num → num → num → num * num * num.

(** The orbit is allocated for the current counts. *)
Definition allocated_for (st : Hopalong num) : Prop :=
  length (subsets (orbit st)) = Z.to_nat (numSubsets st)
  ∧ Forall (λ cur, length cur = Z.to_nat (numPointsSubset st)) (subsets (orbit st)).

(** One particle set is tracked for each (level, subset) pair in range, and
    no other. *)
Definition one_per_pair (st : Hopalong num) : Prop :=
  map level_subset (particleSets st)
  ≡ₚ pairs (Z.to_nat (numLevels st)) (Z.to_nat (numSubsets st)).

(** The children of the scene are the drawables of the tracked particle
    sets, in their order, each once and each an identity already handed
    out. *)
Definition scene_tracks (st : Hopalong num) : Prop :=
  scene st = drawables (particleSets st)
  ∧ NoDup (scene st)
  ∧ Forall (λ d, (d < allocated st)%nat) (scene st).

Definition consistent (st : Hopalong num) : Prop :=
  (1 ≤ numSubsets st)%Z ∧ allocated_for st ∧ one_per_pair st ∧ scene_tracks st.

(** What the nested creation loops of [init] have done to [st0] after [k]
    full rows of [S'] sets and [j] sets of the next row. *)
Definition created (st0 : Hopalong num) (S' k j : nat) (t : Hopalong num) : Prop :=
  let n := (k * S' + j)%nat in
  map level_subset (particleSets t)
    = map level_subset (particleSets st0) ++ pairs k S' ++ map (λ s, (k, s)) (seq 0 j)
  ∧ drawables (particleSets t) = drawables (particleSets st0) ++ seq (allocated st0) n
  ∧ scene t = scene st0 ++ seq (allocated st0) n
  ∧ allocated t = (allocated st0 + n)%nat
  ∧ effects t = effects st0 ++ map SceneAdd (seq (allocated st0) n)
  ∧ (Forall (λ ps, needsUpdate ps = false) (particleSets st0) →
     Forall (λ ps, needsUpdate ps = false) (particleSets t))
  ∧ controls t = controls st0 ∧ orbit t = orbit st0 ∧ hueValues t = hueValues st0
  ∧ orbitParams t = orbitParams st0 ∧ randomCalls t = randomCalls st0.

(** [t] has the counts, the orbit, the scene and the tracked pairs and
    drawables of [st]. *)
Definition same_registry (st t : Hopalong num) : Prop :=
  numLevels t = numLevels st ∧ numSubsets t = numSubsets st
  ∧ numPointsSubset t = numPointsSubset st ∧ orbit t = orbit st
  ∧ map level_subset (particleSets t) = map level_subset (particleSets st)
  ∧ drawables (particleSets t) = drawables (particleSets st)
  ∧ scene t = scene st ∧ allocated t = allocated st.

(** The partial settings that ask for all of [s]. *)
Definition all_of (s : SimSettings num) : PartialSimSettings num :=
  {| p_speed := Some (s_speed s);
     p_rotationSpeed := Some (s_rotationSpeed s);
     p_cameraFov := Some (s_cameraFov s);
     p_pointsPerSubset := Some (s_pointsPerSubset s);
     p_subsetCount := Some (s_subsetCount s);
     p_levelCount := Some (s_levelCount s);
     p_mouseLocked := Some (s_mouseLocked s) |}.

(** The keys of the two shortcut tables of [onKeyDown]. *)
Definition settingsShortcuts : list string :=
  ["F"; "G"; "."; ","; "P"; "O"; "H"; "C"].
Definition movementShortcuts : list string :=
  ["ArrowUp"; "W"; "ArrowDown"; "S"; "ArrowLeft"; "A"; "ArrowRight"; "D"; "R"; "L"].

(** [keyNormalised] of [onKeyDown]. *)
Definition keyNormalised (key : string) : string :=
  match key with
  | String c EmptyString => String (toUpperCase c) EmptyString
  | _ => key
  end.

(** What the browser and the timers deliver to the object. *)
Inductive UiEvent :=
| KeyDown (key : string)
| Pointer (e : PointerEvent num)
| Frame
| Tick
| GamepadConnected
| GamepadDisconnected
| Resize (innerWidth' innerHeight' : num).

(** The listener or callback an event runs: [animate] for a frame,
    [updateOrbit] for a tick of the 3 s interval. *)
Definition dispatch (e : UiEvent) (st : Hopalong num) : option (Hopalong num) :=
  match e with
  | KeyDown key => onKeyDown random hsvToHsl key st
  | Pointer e => Some (onPointerEvent e st)
  | Frame => animate hsvToHsl st
  | Tick => updateOrbit random st
  | GamepadConnected => Some (onControllerConnected st)
  | GamepadDisconnected => Some (onControllerDisconnected st)
  | Resize w h => Some (onWindowResize w h st)
  end.

(** A key press that has a shortcut; any other event. *)
Definition shortcut (e : UiEvent) : Prop :=
  match e with
  | KeyDown key => keyNormalised key ∈ settingsShortcuts ++ movementShortcuts
  | _ => True
  end.

End Invariants.

Arguments UiEvent : clear implicits.

(** A strategy that leaves the pointer within the window it is given. *)
Definition keeps_pointer_within (strategy : MovementStrategy R) (g : GamepadDevice R)
    : Prop :=
  ∀ bounds current m,
    (0 <= width bounds)%R → (0 <= height bounds)%R →
    strategy bounds current g = Some m →
    (- (width bounds / 2) <= mv_x m <= width bounds / 2)%R
    ∧ (- (height bounds / 2) <= mv_y m <= height bounds / 2)%R.

(** ** Further inputs *)

(** A request for a negative subset count. *)
Definition negative_subsets : PartialSimSettings PrimFloat.float :=
  {| p_speed := None; p_rotationSpeed := None; p_cameraFov := None;
     p_pointsPerSubset := None; p_subsetCount := Some (-1)%Z;
     p_levelCount := None; p_mouseLocked := None |}.

(** The small configuration, asked for a speed of 0. *)
Definition still_props : ConstructorProps PrimFloat.float :=
  {| settings := {| p_speed := Some (lit 0); p_rotationSpeed := None;
                    p_cameraFov := None; p_pointsPerSubset := Some 3%Z;
                    p_subsetCount := Some 2%Z; p_levelCount := Some 2%Z;
                    p_mouseLocked := Some true |};
     innerWidth := lit 1920; innerHeight := lit 1080 |}.

Definition still_state : Hopalong PrimFloat.float :=
  Eval vm_compute in
    default (new_object still_props)
            (constructor example_random hsvToHsl_standard still_props).

(** The small object after [changeLevelSubset(-1)], and after
    [changePointsPerSubset(-3)]. *)
Definition small_one_level : Hopalong PrimFloat.float :=
  Eval vm_compute in
    default small_state
            (changeLevelSubset example_random hsvToHsl_standard (-1) small_state).

Definition small_same_points : Hopalong PrimFloat.float :=
  Eval vm_compute in
    default small_state
            (changePointsPerSubset example_random hsvToHsl_standard (-3) small_state).

(** Settings to apply to the small object, and the object after them. *)
Definition example_settings : SimSettings PrimFloat.float :=
  {| s_speed := lit 1; s_rotationSpeed := lit 0; s_cameraFov := lit 90;
     s_pointsPerSubset := 2; s_subsetCount := 1; s_levelCount := 3;
     s_mouseLocked := true |}.

Definition small_applied : Hopalong PrimFloat.float :=
  Eval vm_compute in
    default small_state
            (applySettings example_random hsvToHsl_standard (all_of example_settings)
                           small_state).

(** What the browser delivers in a short session with the small object. *)
Definition example_events : list (UiEvent PrimFloat.float) :=
  [KeyDown ","; Frame; KeyDown "p"; Tick; Frame; GamepadConnected; KeyDown "w";
   KeyDown "ArrowUp"; GamepadDisconnected; KeyDown "r"; Resize (lit 800) (lit 600);
   Frame].

(** Over the reals: an object with one clean particle set one level behind
    the camera. *)
Definition resting_set_R : ParticleSet R :=
  {| myMaterial := (0, 0, 0)%R; myLevel := 0; mySubset := 0; needsUpdate := false;
     particles := {| drawable := 0; geometry := [];
                     position := {| v_x := 0%R; v_y := 0%R; v_z := (-600)%R |};
                     rotation_z := 0%R |} |}.

Definition one_set_R : Hopalong R :=
  set_numLevels 1 (set_particleSets [resting_set_R] one_subset_R).

(** A window, a movement at rest, a standard device with its sticks at rest
    and an arcade stick with no button pressed. *)
Definition example_bounds_R : Bounds R := {| width := 800%R; height := 600%R |}.

Definition resting_movement_R : Movement R :=
  {| mv_speed := 0%R; mv_rotationSpeed := 0%R; mv_x := 0%R; mv_y := 0%R |}.

Definition resting_pad_R : GamepadDevice R :=
  {| gp_id := "Xbox Wireless Controller";
     gp_buttons := [];
     gp_axes := {| axes := [0; 0; 0; 0]%R |} |}.

Definition arcade_pad_R : GamepadDevice R :=
  {| gp_id := "SPEEDLINK COMPETITION PRO Game Controller for Android";
     gp_buttons := [ {| pressed := false |}; {| pressed := false |};
                     {| pressed := false |}; {| pressed := false |} ];
     gp_axes := {| axes := [0; 0]%R |} |}.

(** An object with a controller connected. *)
Definition connected_R : Hopalong R :=
  set_controllerConnected true (new_object example_props_R).

(** A controller connects and leaves, between two key presses. *)
Definition real_events : list (UiEvent R) :=
  [GamepadConnected; KeyDown "f"; GamepadDisconnected; KeyDown "ArrowDown"].

(** * Properties *)

(** ** The generator computes [generated] *)

Section OrbitLemmas.
Context {num : Type} `{!JsNumber num}.
Local Open Scope num_scope.
Variable random : nat → num.

Lemma for_each_seq_fun {St : Type} (f : nat → St) (body : nat → St → option St) (n : nat) :
  (∀ k, (k < n)%nat → body k (f k) = Some (f (S k))) →
  for_each (seq 0 n) body (f O) = Some (f n).
Proof.
  intros Hstep.
  cut (∀ m i, (i + m ≤ n)%nat → for_each (seq i m) body (f i) = Some (f (i + m)%nat)).
  { intros Hcut. apply (Hcut n O). lia. }
  induction m as [|m IH]; intros i Hle; simpl.
  - by rewrite Nat.add_0_r.
  - rewrite Hstep by lia. simpl. rewrite IH by lia. f_equal. f_equal. lia.
Qed.

Lemma iteratePoints_spec (a b c : num) (n : nat) :
  ∀ (i : nat) (x y : num) (cur : list (SubsetPoint num)) (ex : Extents num),
    (i + n ≤ length cur)%nat →
    iteratePoints n i a b c x y (Some cur) ex =
      Some (Some (take i cur
                  ++ zip_with write_point (trajectory n a b c x y) (drop i cur)
                  ++ drop (i + n) cur),
            extents_after (trajectory n a b c x y) ex).
Proof.
  induction n as [|n IH]; intros i x y cur ex Hlen.
  - simpl. rewrite Nat.add_0_r, take_drop. done.
  - cbn [iteratePoints trajectory].
    destruct (hopalong x y a b c) as [xn yn].
    destruct (lookup_lt_is_Some_2 cur i) as [p Hp]; [lia|].
    cbn [mbind option_bind]. rewrite Hp. cbn [mbind option_bind].
    rewrite IH by (rewrite length_insert; lia).
    f_equal. f_equal. f_equal.
    rewrite (take_S_r _ i (set_xy xn yn p)) by (apply list_lookup_insert_eq; lia).
    rewrite take_insert_ge by lia.
    rewrite !drop_insert_lt by lia.
    rewrite (drop_S cur p i Hp). simpl.
    rewrite <- app_assoc. simpl.
    replace (i + S n)%nat with (S (i + n))%nat by lia. done.
Qed.

Lemma iterateSubset_spec (N : Z) (a b c : num) (r0 s : nat) (st : Hopalong num)
    (ex : Extents num) (cur : list (SubsetPoint num)) :
  randomCalls st = (r0 + 2 * s)%nat →
  subsets (orbit st) !! s = Some cur →
  length cur = Z.to_nat N →
  iterateSubset random N a b c s (st, ex) =
    Some (with_subsets
            (<[s := zip_with write_point (subset_trajectory random r0 (Z.to_nat N) a b c s) cur]>
               (subsets (orbit st)))
            (set_randomCalls (r0 + 2 * S s) st),
          extents_after (subset_trajectory random r0 (Z.to_nat N) a b c s) ex).
Proof.
  intros Hr Hs Hlen. unfold iterateSubset, Math_random.
  cbn [randomCalls set_randomCalls orbit subsets].
  rewrite Hs, iteratePoints_spec by (rewrite Hlen; lia).
  cbn [mbind option_bind]. rewrite drop_0, take_0, (drop_ge cur) by (rewrite Hlen; lia).
  rewrite app_nil_r. cbn [app].
  unfold subset_trajectory, seed. rewrite Hr.
  replace (r0 + 2 * s + 1)%nat with (S (r0 + 2 * s)) by lia.
  replace (S (S (r0 + 2 * s))) with (r0 + 2 * S s)%nat by lia.
  reflexivity.
Qed.

Lemma first_pass_subsets_step (r0 N : nat) (a b c : num) (k : nat)
    (subs : list (list (SubsetPoint num))) (cur : list (SubsetPoint num)) :
  subs !! k = Some cur →
  <[k := zip_with write_point (subset_trajectory random r0 N a b c k) cur]>
    (first_pass_subsets random r0 N a b c k subs)
  = first_pass_subsets random r0 N a b c (S k) subs.
Proof.
  intros Hk. apply list_eq. intros j. unfold first_pass_subsets.
  rewrite list_lookup_insert, length_imap, !list_lookup_imap.
  destruct (decide (k = j)) as [<-|Hne].
  - rewrite Hk. simpl. rewrite decide_True by (apply lookup_lt_Some in Hk; lia).
    rewrite bool_decide_true by lia. done.
  - rewrite decide_False by tauto.
    destruct (subs !! j); simpl; [|done].
    destruct (decide (j < k)%nat).
    + rewrite !bool_decide_true by lia. done.
    + rewrite !bool_decide_false by lia. done.
Qed.

Lemma first_pass_extents_step (r0 N : nat) (a b c : num) (k : nat) :
  extents_after (subset_trajectory random r0 N a b c k) (first_pass_extents random r0 N a b c k)
  = first_pass_extents random r0 N a b c (S k).
Proof.
  unfold first_pass_extents, extents_after.
  rewrite seq_S, map_app, concat_app, fold_left_app. simpl. by rewrite app_nil_r.
Qed.

Lemma first_pass_subsets_0 (r0 N : nat) (a b c : num) (subs : list (list (SubsetPoint num))) :
  first_pass_subsets random r0 N a b c 0 subs = subs.
Proof.
  apply list_eq. intros j. unfold first_pass_subsets. rewrite list_lookup_imap.
  destruct (subs !! j) as [cur|]; [|done].
  cbn [fmap option_fmap option_map]. by rewrite bool_decide_false by lia.
Qed.

(** The first pass over a state whose orbit has [S'] subsets of [N] points. *)
Lemma first_pass_spec (S' N : Z) (a b c : num) (st : Hopalong num) :
  length (subsets (orbit st)) = Z.to_nat S' →
  Forall (λ cur, length cur = Z.to_nat N) (subsets (orbit st)) →
  for_each (upto S') (iterateSubset random N a b c) (st, zero_extents) =
    Some (with_subsets
            (first_pass_subsets random (randomCalls st) (Z.to_nat N) a b c (Z.to_nat S')
                                (subsets (orbit st)))
            (set_randomCalls (randomCalls st + 2 * Z.to_nat S') st),
          first_pass_extents random (randomCalls st) (Z.to_nat N) a b c (Z.to_nat S')).
Proof.
  intros Hlen Hall. unfold upto.
  set (r0 := randomCalls st) in *. set (subs := subsets (orbit st)) in *.
  set (f := λ k : nat,
         (with_subsets (first_pass_subsets random r0 (Z.to_nat N) a b c k subs)
                       (set_randomCalls (r0 + 2 * k) st),
          first_pass_extents random r0 (Z.to_nat N) a b c k)).
  assert (for_each (seq 0 (Z.to_nat S')) (iterateSubset random N a b c) (f O)
          = Some (f (Z.to_nat S'))) as Hloop.
  { apply for_each_seq_fun. intros k Hk.
    destruct (lookup_lt_is_Some_2 subs k) as [cur Hcur]; [lia|].
    assert (length cur = Z.to_nat N) as Hcl.
    { eapply (Forall_lookup_1 _ _ _ _ Hall). exact Hcur. }
    unfold f. erewrite (iterateSubset_spec N a b c r0 k).
    - f_equal. f_equal; [|apply first_pass_extents_step].
      cbn [with_subsets orbit set_orbit set_subsets subsets].
      rewrite first_pass_subsets_step by done. reflexivity.
    - reflexivity.
    - cbn [with_subsets orbit set_orbit set_subsets subsets].
      unfold first_pass_subsets. rewrite list_lookup_imap, Hcur.
      cbn [fmap option_fmap option_map]. by rewrite bool_decide_false by lia.
    - done. }
  unfold f in Hloop. rewrite first_pass_subsets_0 in Hloop.
  replace (for_each _ _ (st, zero_extents)) with
    (for_each (seq 0 (Z.to_nat S')) (iterateSubset random N a b c)
       (with_subsets subs (set_randomCalls (r0 + 2 * 0) st),
        first_pass_extents random r0 (Z.to_nat N) a b c 0)).
  { exact Hloop. }
  f_equal. f_equal. subst r0 subs. rewrite Nat.add_0_r.
  destruct st as [? ? ? ? ? ? ? ? ? ? ? ? ? [] ? ? ? ? ? ? ?]; reflexivity.
Qed.

Lemma lookup_map_take_drop {A : Type} (g : A → A) (l : list A) (i : nat) :
  (map g (take i l) ++ drop i l) !! i = l !! i.
Proof.
  destruct (decide (i < length l)%nat) as [Hlt|Hge].
  - rewrite lookup_app_r; rewrite length_map, length_take; [|lia].
    rewrite lookup_drop. f_equal. lia.
  - rewrite (lookup_ge_None_2 l i) by lia. apply lookup_ge_None_2.
    rewrite length_app, length_map, length_take, length_drop. lia.
Qed.

Lemma insert_map_take_drop {A : Type} (g : A → A) (l : list A) (i : nat) (x : A) :
  l !! i = Some x →
  <[i := g x]> (map g (take i l) ++ drop i l) = map g (take (S i) l) ++ drop (S i) l.
Proof.
  intros Hx. pose proof (lookup_lt_Some _ _ _ Hx) as Hlt.
  rewrite insert_app_r_alt; rewrite length_map, length_take; [|lia].
  replace (i - i `min` length l)%nat with O by lia.
  rewrite (drop_S l x i Hx), (take_S_r l i x Hx), map_app, <- app_assoc. done.
Qed.

Lemma with_subsets_twice (subs subs' : list (list (SubsetPoint num))) (st : Hopalong num) :
  with_subsets subs (with_subsets subs' st) = with_subsets subs st.
Proof. reflexivity. Qed.

Lemma normalizePoint_spec (sX sY xmin ymin : num) (s i : nat)
    (subs : list (list (SubsetPoint num))) (cur : list (SubsetPoint num))
    (p : SubsetPoint num) (st : Hopalong num) :
  subs !! s = Some cur → cur !! i = Some p →
  normalizePoint sX sY xmin ymin s i (with_subsets subs st)
  = Some (with_subsets (<[s := <[i := normalized sX sY xmin ymin p]> cur]> subs) st).
Proof.
  intros Hs Hi. unfold normalizePoint.
  cbn [with_subsets orbit set_orbit set_subsets subsets].
  rewrite Hs. cbn [mbind option_bind]. rewrite Hi. reflexivity.
Qed.

(** The inner loop of the second pass. *)
Lemma normalize_subset_spec (sX sY xmin ymin : num) (N : nat) (s : nat)
    (subs : list (list (SubsetPoint num))) (cur : list (SubsetPoint num))
    (st : Hopalong num) :
  subs !! s = Some cur → length cur = N →
  for_each (seq 0 N) (normalizePoint sX sY xmin ymin s) (with_subsets subs st)
  = Some (with_subsets (<[s := map (normalized sX sY xmin ymin) cur]> subs) st).
Proof.
  intros Hs Hlen.
  set (g := normalized sX sY xmin ymin).
  set (f := λ i : nat, with_subsets (<[s := map g (take i cur) ++ drop i cur]> subs) st).
  assert (f O = with_subsets subs st) as <-.
  { unfold f. rewrite take_0, drop_0. simpl. by rewrite list_insert_id. }
  assert (f N = with_subsets (<[s := map g cur]> subs) st) as <-.
  { unfold f. rewrite <- Hlen, firstn_all, drop_all, app_nil_r. done. }
  apply for_each_seq_fun. intros i Hi.
  destruct (lookup_lt_is_Some_2 cur i) as [p Hp]; [lia|].
  unfold f at 1.
  erewrite normalizePoint_spec.
  - subst f g. cbv beta. rewrite list_insert_insert_eq.
    rewrite (insert_map_take_drop _ cur i p Hp). reflexivity.
  - apply list_lookup_insert_eq. by eapply lookup_lt_Some.
  - rewrite lookup_map_take_drop. exact Hp.
Qed.

(** The second pass. *)
Lemma second_pass_spec (sX sY xmin ymin : num) (S' N : nat)
    (subs : list (list (SubsetPoint num))) (st : Hopalong num) :
  length subs = S' →
  Forall (λ cur, length cur = N) subs →
  for_each (seq 0 S')
    (λ s, for_each (seq 0 N) (normalizePoint sX sY xmin ymin s))
    (with_subsets subs st)
  = Some (with_subsets (map (map (normalized sX sY xmin ymin)) subs) st).
Proof.
  intros Hlen Hall.
  set (g := map (normalized sX sY xmin ymin)).
  set (f := λ k : nat, with_subsets (map g (take k subs) ++ drop k subs) st).
  assert (f O = with_subsets subs st) as <-.
  { unfold f. by rewrite take_0, drop_0. }
  assert (f S' = with_subsets (map g subs) st) as <-.
  { unfold f. rewrite <- Hlen, firstn_all, drop_all, app_nil_r. done. }
  apply for_each_seq_fun. intros k Hk.
  destruct (lookup_lt_is_Some_2 subs k) as [cur Hcur]; [lia|].
  unfold f at 1.
  erewrite normalize_subset_spec.
  - subst f g. cbv beta. rewrite (insert_map_take_drop _ subs k cur Hcur). reflexivity.
  - rewrite lookup_map_take_drop. exact Hcur.
  - eapply (Forall_lookup_1 _ _ _ _ Hall). exact Hcur.
Qed.

Lemma length_first_pass_subsets (r0 N : nat) (a b c : num) (k : nat)
    (subs : list (list (SubsetPoint num))) :
  length (first_pass_subsets random r0 N a b c k subs) = length subs.
Proof. unfold first_pass_subsets. apply length_imap. Qed.

Lemma trajectory_length (n : nat) (a b c : num) : ∀ x y, length (trajectory n a b c x y) = n.
Proof.
  induction n as [|n IH]; intros x y; [done|].
  cbn [trajectory]. destruct (hopalong x y a b c). simpl. by rewrite IH.
Qed.

Lemma Forall_length_first_pass_subsets (r0 N : nat) (a b c : num) (k : nat)
    (subs : list (list (SubsetPoint num))) :
  Forall (λ cur, length cur = N) subs →
  Forall (λ cur, length cur = N) (first_pass_subsets random r0 N a b c k subs).
Proof.
  intros Hall. apply Forall_lookup_2. intros j cur'. unfold first_pass_subsets.
  rewrite list_lookup_imap. destruct (subs !! j) as [cur|] eqn:Hj; [|done].
  cbn [fmap option_fmap option_map]. intros [= <-].
  pose proof (Forall_lookup_1 _ _ _ _ Hall Hj) as Hc. simpl in Hc.
  case_bool_decide; [|done].
  rewrite length_zip_with, Hc. unfold subset_trajectory. rewrite trajectory_length. lia.
Qed.

(** [generateOrbit] on a state whose orbit has the shape it is asked to fill
    succeeds, and produces [generated]. *)
Lemma generateOrbit_generated (S' N : Z) (st : Hopalong num) :
  length (subsets (orbit st)) = Z.to_nat S' →
  Forall (λ cur, length cur = Z.to_nat N) (subsets (orbit st)) →
  Z.to_nat (numSubsets st) = Z.to_nat S' →
  generateOrbit random S' N st = Some (generated random (Z.to_nat S') (Z.to_nat N) st).
Proof.
  intros Hlen Hall HS. unfold generateOrbit.
  set (st1 := prepareOrbit random st).
  cbn [Math_random].
  set (st2 := set_randomCalls (S (randomCalls st1)) st1).
  rewrite (first_pass_spec S' N _ _ _ st2 Hlen Hall).
  cbn [mbind option_bind].
  set (ex := first_pass_extents random _ _ _ _ _ _).
  set (raw := first_pass_subsets random _ _ _ _ _ _ _).
  set (sX := (lit 2 * SCALE_FACTOR / (e_xMax ex - e_xMin ex))).
  set (sY := (lit 2 * SCALE_FACTOR / (e_yMax ex - e_yMin ex))).
  
  unfold upto. 
  change (numSubsets (set_orbit _ _)) with (numSubsets st). rewrite HS.
  
  match goal with |- for_each _ _ ?X = _ =>
    change X with (with_subsets raw
      (set_orbit (Build_Orbit [] (e_xMin ex) (e_xMax ex) (e_yMin ex) (e_yMax ex) sX sY)
                 (set_randomCalls (randomCalls st2 + 2 * Z.to_nat S') st2)))
  end.
  
  rewrite (second_pass_spec sX sY (e_xMin ex) (e_yMin ex) (Z.to_nat S') (Z.to_nat N)).
  
  - apply f_equal. unfold generated. fold st1. cbv zeta.
    assert (randomCalls st2 = (6 + randomCalls st)%nat) as Hr by (vm_compute; reflexivity).
    assert (subsets (orbit st2) = subsets (orbit st)) as Hsub by (vm_compute; reflexivity).
    subst sX sY ex raw. rewrite Hr, Hsub.
    set (ex := first_pass_extents random _ _ _ _ _ _).
    set (raw := first_pass_subsets random _ _ _ _ _ _ _).
    clearbody ex raw. reflexivity.
  - subst raw. by rewrite length_first_pass_subsets.
  - subst raw. by apply Forall_length_first_pass_subsets.
Qed.
End OrbitLemmas.

(** ** Generated subsets, for every number type *)

Section GeneratedLemmas.
Context {num : Type} `{!JsNumber num}.
Local Open Scope num_scope.
Variable random : nat → num.

Lemma raw_points_zip_with (T : list (num * num)) (cur : list (SubsetPoint num)) :
  length T = length cur → raw_points (zip_with write_point T cur) = T.
Proof.
  revert cur. induction T as [|[x y] T IH]; intros [|p cur] Hlen; try done.
  simpl in *. f_equal. apply IH. lia.
Qed.

Lemma raw_points_normalized (sX sY xmin ymin : num) (cur : list (SubsetPoint num)) :
  raw_points (map (normalized sX sY xmin ymin) cur) = raw_points cur.
Proof. unfold raw_points. rewrite map_map. done. Qed.

Lemma first_pass_subsets_lookup (r0 N : nat) (a b c : num)
    (subs : list (list (SubsetPoint num))) (s : nat) (cur' : list (SubsetPoint num)) :
  first_pass_subsets random r0 N a b c (length subs) subs !! s = Some cur' →
  ∃ cur, subs !! s = Some cur ∧
         cur' = zip_with write_point (subset_trajectory random r0 N a b c s) cur.
Proof.
  unfold first_pass_subsets. rewrite list_lookup_imap.
  destruct (subs !! s) as [cur|] eqn:Hs; [|done].
  cbn [fmap option_fmap option_map].
  rewrite bool_decide_true by (by eapply lookup_lt_Some).
  intros [= <-]. eauto.
Qed.

(** What a subset of the generated orbit holds. *)
Lemma generated_lookup (S' N : nat) (st : Hopalong num) (s : nat)
    (cur' : list (SubsetPoint num)) :
  length (subsets (orbit st)) = S' →
  subsets (orbit (generated random S' N st)) !! s = Some cur' →
  ∃ cur, subsets (orbit st) !! s = Some cur ∧
    cur' = map (normalized (scaleX (orbit (generated random S' N st)))
                           (scaleY (orbit (generated random S' N st)))
                           (xMin (orbit (generated random S' N st)))
                           (yMin (orbit (generated random S' N st))))
             (zip_with write_point
                (subset_trajectory random (6 + randomCalls st) N
                   (op_a (orbitParams (generated random S' N st)))
                   (op_b (orbitParams (generated random S' N st)))
                   (op_c (orbitParams (generated random S' N st))) s) cur).
Proof.
  intros <-. unfold generated at 1. cbn [orbit set_orbit subsets].
  rewrite list_lookup_fmap.
  destruct (first_pass_subsets _ _ _ _ _ _ _ _ !! s) as [w|] eqn:Hw; [|done].
  apply first_pass_subsets_lookup in Hw as (cur & Hcur & ->).
  cbn [fmap option_fmap option_map]. intros [= <-]. exists cur. split; [done|].
  reflexivity.
Qed.

Lemma generated_shape (S' N : nat) (st : Hopalong num) :
  length (subsets (orbit st)) = S' →
  Forall (λ cur, length cur = N) (subsets (orbit st)) →
  length (subsets (orbit (generated random S' N st))) = S' ∧
  Forall (λ cur, length cur = N) (subsets (orbit (generated random S' N st))).
Proof.
  intros Hlen Hall. unfold generated. cbn [orbit set_orbit subsets]. split.
  - by rewrite length_map, length_first_pass_subsets.
  - apply Forall_fmap. eapply Forall_impl.
    + apply Forall_length_first_pass_subsets, Hall.
    + intros cur Hc. simpl. by rewrite length_map.
Qed.

Lemma initOrbit_shape (S' N : Z) (st : Hopalong num) :
  length (subsets (orbit (initOrbit S' N st))) = Z.to_nat S' ∧
  Forall (λ cur, length cur = Z.to_nat N) (subsets (orbit (initOrbit S' N st))).
Proof.
  unfold initOrbit. cbn [orbit set_orbit set_subsets subsets]. split.
  - apply length_replicate.
  - apply Forall_replicate. apply length_replicate.
Qed.

(** [generate] always returns: the orbit it fills is the one it allocated. *)
Lemma generate_generated (S' N : Z) (st : Hopalong num) :
  numSubsets st = S' →
  generate random S' N st
  = Some (generated random (Z.to_nat S') (Z.to_nat N) (initOrbit S' N st)).
Proof.
  intros HS. unfold generate.
  destruct (initOrbit_shape S' N st) as [Hlen Hall].
  apply generateOrbit_generated; [done|done|]. cbn. by rewrite HS.
Qed.

End GeneratedLemmas.

(** ** Exact arithmetic *)

Section Reals.
Local Open Scope R_scope.

Lemma Rltb_true (x y : R) : x < y → Rltb x y = true.
Proof. intros Hlt. unfold Rltb. destruct (Rlt_dec x y); [done|lra]. Qed.

Lemma Rltb_false (x y : R) : y <= x → Rltb x y = false.
Proof. intros Hle. unfold Rltb. destruct (Rlt_dec x y); [lra|done]. Qed.

Lemma lit_R_0 : lit (num := R) 0 = 0.
Proof. cbn. unfold Q2R. cbn. lra. Qed.

Lemma lit_R_1 : lit (num := R) 1 = 1.
Proof. cbn. unfold Q2R. cbn. lra. Qed.

Lemma Math_sign_R (x : R) : Math_sign x = spec_sign x.
Proof.
  unfold Math_sign, spec_sign. cbn [num_lt num_neg R_JsNumber].
  rewrite lit_R_0, lit_R_1.
  destruct (total_order_T x 0) as [[Hlt|Heq]|Hgt].
  - rewrite (Rltb_false 0 x), (Rltb_true x 0) by lra. done.
  - rewrite (Rltb_false 0 x), (Rltb_false x 0) by lra. done.
  - rewrite (Rltb_true 0 x) by lra. done.
Qed.

Lemma updateExtents_widens (x y : R) (ex : Extents R) :
  ordered ex →
  widens ex (updateExtents x y ex) ∧ ordered (updateExtents x y ex)
  ∧ inside (updateExtents x y ex) (x, y).
Proof.
  unfold ordered, widens, inside, updateExtents. cbn [num_lt R_JsNumber].
  unfold Rltb. intros [Hx Hy].
  destruct (Rlt_dec x (e_xMin ex)), (Rlt_dec (e_xMax ex) x),
    (Rlt_dec y (e_yMin ex)), (Rlt_dec (e_yMax ex) y); cbn; lra.
Qed.

Lemma widens_inside (ex ex' : Extents R) (xy : R * R) :
  widens ex ex' → inside ex xy → inside ex' xy.
Proof. unfold widens, inside. lra. Qed.

Lemma extents_after_inside (pts : list (R * R)) :
  ∀ ex, ordered ex →
    widens ex (extents_after pts ex) ∧ ordered (extents_after pts ex)
    ∧ Forall (inside (extents_after pts ex)) pts.
Proof.
  induction pts as [|[x y] pts IH]; intros ex Hord.
  - cbn. split; [|split; [done|constructor]]. unfold widens. lra.
  - destruct (updateExtents_widens x y ex Hord) as (Hw1 & Ho1 & Hin1).
    destruct (IH _ Ho1) as (Hw2 & Ho2 & Hin2).
    change (extents_after ((x, y) :: pts) ex)
      with (extents_after pts (updateExtents x y ex)).
    split; [|split; [done|]].
    + unfold widens in *. lra.
    + constructor; [|done]. by apply (widens_inside _ _ _ Hw2).
Qed.

Lemma ordered_zero_extents : ordered zero_extents.
Proof. unfold ordered, zero_extents. cbn. lra. Qed.

Lemma inside_zero_extents : inside zero_extents (0, 0).
Proof. unfold inside, zero_extents. cbn. unfold Q2R. cbn. lra. Qed.


(** Every point a generated orbit stores lies inside the recorded extents. *)
Lemma generated_points_inside (random : nat → R) (S' N : nat) (st : Hopalong R) :
  length (subsets (orbit st)) = S' →
  Forall (λ cur, length cur = N) (subsets (orbit st)) →
  let o := orbit (generated random S' N st) in
  Forall (Forall (λ p, xMin o <= sp_x p <= xMax o ∧ yMin o <= sp_y p <= yMax o))
         (subsets o)
  ∧ (xMin o <= 0 <= xMax o ∧ yMin o <= 0 <= yMax o).
Proof.
  intros Hlen Hall o.
  set (a := op_a (orbitParams (generated random S' N st))).
  set (b := op_b (orbitParams (generated random S' N st))).
  set (c := op_c (orbitParams (generated random S' N st))).
  set (T := subset_trajectory random (6 + randomCalls st) N a b c).
  set (ex := first_pass_extents random (6 + randomCalls st) N a b c S').
  assert (xMin o = e_xMin ex ∧ xMax o = e_xMax ex ∧ yMin o = e_yMin ex ∧ yMax o = e_yMax ex)
    as (-> & -> & -> & ->) by done.
  destruct (extents_after_inside (concat (map T (seq 0 S'))) zero_extents
              ordered_zero_extents) as (Hw & _ & Hin).
  fold (first_pass_extents random (6 + randomCalls st) N a b c S') in Hw, Hin.
  fold ex in Hw, Hin.
  split.
  - apply Forall_lookup_2. intros s cur' Hs.
    destruct (generated_lookup random S' N st s cur' Hlen Hs) as (cur & Hcur & Heq).
    fold a b c T in Heq.
    assert (length cur = N) as HcN by (eapply (Forall_lookup_1 _ _ _ _ Hall); exact Hcur).
    assert (raw_points cur' = T s) as Hraw.
    { rewrite Heq, raw_points_normalized. apply raw_points_zip_with.
      unfold T, subset_trajectory. by rewrite trajectory_length. }
    apply Forall_forall. intros p Hp.
    assert ((sp_x p, sp_y p) ∈ T s) as Hmem.
    { rewrite <- Hraw. unfold raw_points.
      apply (list_elem_of_fmap_2 (λ p, (sp_x p, sp_y p))). exact Hp. }
    assert (inside ex (sp_x p, sp_y p)) as Hi; [|exact Hi].
    rewrite Forall_forall in Hin. apply Hin.
    apply list_elem_of_In, in_concat. exists (T s). split.
    + apply in_map, in_seq. apply lookup_lt_Some in Hcur. lia.
    + by apply list_elem_of_In.
  - pose proof (widens_inside _ _ _ Hw inside_zero_extents) as Hz.
    change (inside ex (0, 0)) in Hz. unfold inside in Hz. cbn [fst snd] in Hz. lra.
Qed.

(** C2: for every S >= 1 and N >= 1, [generate(S, N)] (initOrbit followed by
    generateOrbit, on an object whose [numSubsets] is S) returns; each of the
    S subsets then holds exactly N points; every stored raw point satisfies
    xMin <= x <= xMax and yMin <= y <= yMax; and the extents straddle zero:
    xMin <= 0 <= xMax and yMin <= 0 <= yMax.  Numbers are the reals. *)
Theorem C2_generate_extents_bound_points
    (random : nat → R) (st : Hopalong R) (S' N : Z) :
  (1 ≤ S')%Z → (1 ≤ N)%Z → numSubsets st = S' →
  ∃ st', generate random S' N st = Some st'
    ∧ Z.of_nat (length (subsets (orbit st'))) = S'
    ∧ Forall (λ cur, Z.of_nat (length cur) = N) (subsets (orbit st'))
    ∧ Forall (Forall (λ p, xMin (orbit st') <= sp_x p <= xMax (orbit st')
                           ∧ yMin (orbit st') <= sp_y p <= yMax (orbit st')))
             (subsets (orbit st'))
    ∧ (xMin (orbit st') <= 0 <= xMax (orbit st')
       ∧ yMin (orbit st') <= 0 <= yMax (orbit st')).
Proof.
  intros HS HN Hnum.
  exists (generated random (Z.to_nat S') (Z.to_nat N) (initOrbit S' N st)).
  destruct (initOrbit_shape S' N st) as [Hlen Hall].
  destruct (generated_shape random _ _ _ Hlen Hall) as [Hlen' Hall'].
  destruct (generated_points_inside random _ _ _ Hlen Hall) as [Hin Hzero].
  split; [by apply generate_generated|].
  split; [rewrite Hlen'; lia|].
  split; [|done].
  eapply Forall_impl; [exact Hall'|]. intros cur Hc. simpl in Hc. rewrite Hc. lia.
Qed.

End Reals.

Section RealClaims.
Local Open Scope R_scope.

Lemma SCALE_FACTOR_R : SCALE_FACTOR (num := R) = 1500.
Proof. unfold SCALE_FACTOR. cbn. unfold Q2R. cbn. lra. Qed.

(** A point of a generated orbit is the normalisation of the raw point
    written over the point found there. *)
Lemma generated_point (random : nat → R) (S' N : nat) (st : Hopalong R)
    (s i : nat) (cur' : list (SubsetPoint R)) (p : SubsetPoint R) :
  length (subsets (orbit st)) = S' →
  subsets (orbit (generated random S' N st)) !! s = Some cur' →
  cur' !! i = Some p →
  let o := orbit (generated random S' N st) in
  ∃ cur q, subsets (orbit st) !! s = Some cur ∧ cur !! i = Some q
    ∧ v_x (vertex p) = scaleX o * (sp_x p - xMin o) - SCALE_FACTOR
    ∧ v_y (vertex p) = scaleY o * (sp_y p - yMin o) - SCALE_FACTOR
    ∧ v_z (vertex p) = v_z (vertex q).
Proof.
  intros Hlen Hs Hi o.
  destruct (generated_lookup random S' N st s cur' Hlen Hs) as (cur & Hcur & ->).
  rewrite list_lookup_fmap in Hi.
  destruct (zip_with _ _ _ !! i) as [w|] eqn:Hw; [|done].
  apply lookup_zip_with_Some in Hw as (t & q & -> & _ & Hq).
  injection Hi as <-. exists cur, q. done.
Qed.

(** C3: when the generated batch is non-degenerate (xMax <> xMin and
    yMax <> yMin), after [generate(S, N)] the scales are
    scaleX = 2*K/(xMax - xMin) and scaleY = 2*K/(yMax - yMin) with K = 1500,
    and every point of every subset has vertex.x = scaleX*(x - xMin) - K,
    vertex.y = scaleY*(y - yMin) - K and vertex.z = 0; so a point with
    x = xMin has vertex.x = -K and a point with x = xMax has vertex.x = +K
    (likewise for y).  Numbers are the reals. *)
Theorem C3_vertex_normalization
    (random : nat → R) (st st' : Hopalong R) (S' N : Z) :
  numSubsets st = S' →
  generate random S' N st = Some st' →
  xMax (orbit st') ≠ xMin (orbit st') →
  yMax (orbit st') ≠ yMin (orbit st') →
  let o := orbit st' in
  let K := 1500 in
  scaleX o = 2 * K / (xMax o - xMin o)
  ∧ scaleY o = 2 * K / (yMax o - yMin o)
  ∧ ∀ (s i : nat) (cur : list (SubsetPoint R)) (p : SubsetPoint R),
      subsets o !! s = Some cur → cur !! i = Some p →
      v_x (vertex p) = scaleX o * (sp_x p - xMin o) - K
      ∧ v_y (vertex p) = scaleY o * (sp_y p - yMin o) - K
      ∧ v_z (vertex p) = 0
      ∧ (sp_x p = xMin o → v_x (vertex p) = - K)
      ∧ (sp_x p = xMax o → v_x (vertex p) = K)
      ∧ (sp_y p = yMin o → v_y (vertex p) = - K)
      ∧ (sp_y p = yMax o → v_y (vertex p) = K).
Proof.
  intros Hnum Hgen Hx Hy. cbv zeta.
  rewrite (generate_generated random S' N st Hnum) in Hgen. injection Hgen as <-.
  destruct (initOrbit_shape S' N st) as [Hlen Hall].
  set (st0 := initOrbit S' N st) in *.
  set (o := orbit (generated random (Z.to_nat S') (Z.to_nat N) st0)) in *.
  assert (scaleX o = 2 * 1500 / (xMax o - xMin o)) as HsX.
  { subst o. cbn [generated orbit set_orbit scaleX xMax xMin].
    rewrite SCALE_FACTOR_R. cbn. unfold Q2R. cbn. lra. }
  assert (scaleY o = 2 * 1500 / (yMax o - yMin o)) as HsY.
  { subst o. cbn [generated orbit set_orbit scaleY yMax yMin].
    rewrite SCALE_FACTOR_R. cbn. unfold Q2R. cbn. lra. }
  split; [done|]. split; [done|].
  intros s i cur p Hs Hi.
  assert (v_x (vertex p) = scaleX o * (sp_x p - xMin o) - 1500
          ∧ v_y (vertex p) = scaleY o * (sp_y p - yMin o) - 1500
          ∧ v_z (vertex p) = 0) as (Hvx & Hvy & Hvz).
  { destruct (generated_point random _ _ _ s i cur p Hlen Hs Hi)
      as (cur0 & q & Hcur0 & Hq & Hvx & Hvy & Hvz).
    fold o in Hvx, Hvy. rewrite SCALE_FACTOR_R in Hvx, Hvy.
    split; [done|]. split; [done|].
    rewrite Hvz. subst st0. unfold initOrbit in Hcur0.
    cbn [orbit set_orbit set_subsets subsets] in Hcur0.
    apply lookup_replicate in Hcur0 as [-> _].
    apply lookup_replicate in Hq as [-> _]. apply lit_R_0. }
  split; [done|]. split; [done|]. split; [done|].
  assert (xMax o - xMin o ≠ 0) as Hdx by (intros E; apply Hx; lra).
  assert (yMax o - yMin o ≠ 0) as Hdy by (intros E; apply Hy; lra).
  repeat split.
  - intros Hmin. rewrite Hvx, Hmin. lra.
  - intros Hmax. rewrite Hvx, Hmax, HsX. field. exact Hdx.
  - intros Hmin. rewrite Hvy, Hmin. lra.
  - intros Hmax. rewrite Hvy, Hmax, HsY. field. exact Hdy.
Qed.

Lemma seed_R_0 (r : R) : seed 0 r = 0.
Proof. unfold seed, ofNat, ofZ. cbn. unfold Q2R. cbn. ring. Qed.

(** After a regeneration of an orbit with at least one subset, subset 0
    holds the trajectory of the map from the origin. *)
Lemma generateOrbit_first_subset
    (random : nat → R) (st st' : Hopalong R) (S' N : Z) :
  (1 ≤ S')%Z →
  length (subsets (orbit st)) = Z.to_nat S' →
  Forall (λ cur, length cur = Z.to_nat N) (subsets (orbit st)) →
  numSubsets st = S' →
  generateOrbit random S' N st = Some st' →
  ∃ cur, subsets (orbit st') !! 0%nat = Some cur
      ∧ raw_points cur
        = trajectory (Z.to_nat N) (op_a (orbitParams st')) (op_b (orbitParams st'))
                     (op_c (orbitParams st')) 0 0.
Proof.
  intros HS Hlen Hall Hnum Hgen.
  rewrite (generateOrbit_generated random S' N st) in Hgen
    by (try done; by rewrite Hnum).
  injection Hgen as <-.
  destruct (generated_shape random _ _ _ Hlen Hall) as [Hlen' Hall'].
  destruct (lookup_lt_is_Some_2 (subsets (orbit (generated random (Z.to_nat S')
              (Z.to_nat N) st))) 0) as [cur' Hcur']; [lia|].
  exists cur'. split; [done|].
  destruct (generated_lookup random _ _ _ 0 cur' Hlen Hcur') as (cur & Hcur & ->).
  rewrite raw_points_normalized, raw_points_zip_with.
  - unfold subset_trajectory. by rewrite !seed_R_0.
  - unfold subset_trajectory. rewrite trajectory_length.
    symmetry. eapply (Forall_lookup_1 _ _ _ _ Hall). exact Hcur.
Qed.

(** C9: for subset index 0 the seeding formula s * 0.005 * (0.5 - rand())
    yields 0 whatever is drawn, so after a regeneration of an orbit with at
    least one subset, the raw points of subset 0 are the trajectory of the
    map from (0, 0) under the drawn parameters (a, b, c): a function of
    (a, b, c) and the number of points alone.  Numbers are the reals. *)
Theorem C9_first_subset_starts_at_origin
    (random : nat → R) (st st' : Hopalong R) (S' N : Z) :
  (1 ≤ S')%Z →
  length (subsets (orbit st)) = Z.to_nat S' →
  Forall (λ cur, length cur = Z.to_nat N) (subsets (orbit st)) →
  numSubsets st = S' →
  generateOrbit random S' N st = Some st' →
  (∀ r : R, seed 0 r = 0)
  ∧ ∃ cur, subsets (orbit st') !! 0%nat = Some cur
      ∧ raw_points cur
        = trajectory (Z.to_nat N) (op_a (orbitParams st')) (op_b (orbitParams st'))
                     (op_c (orbitParams st')) 0 0.
Proof.
  intros HS Hlen Hall Hnum Hgen. split; [exact seed_R_0|].
  by apply (generateOrbit_first_subset random st st' S' N).
Qed.

(** Two regenerations that draw the same (a, b, c) store the same raw
    points in subset 0, whatever else they draw. *)
Corollary first_subset_repeats
    (random1 random2 : nat → R) (st1 st1' st2 st2' : Hopalong R) (S' N : Z) :
  (1 ≤ S')%Z →
  length (subsets (orbit st1)) = Z.to_nat S' →
  Forall (λ cur, length cur = Z.to_nat N) (subsets (orbit st1)) →
  numSubsets st1 = S' →
  length (subsets (orbit st2)) = Z.to_nat S' →
  Forall (λ cur, length cur = Z.to_nat N) (subsets (orbit st2)) →
  numSubsets st2 = S' →
  generateOrbit random1 S' N st1 = Some st1' →
  generateOrbit random2 S' N st2 = Some st2' →
  op_a (orbitParams st1') = op_a (orbitParams st2') →
  op_b (orbitParams st1') = op_b (orbitParams st2') →
  op_c (orbitParams st1') = op_c (orbitParams st2') →
  raw_points <$> subsets (orbit st1') !! 0%nat
  = raw_points <$> subsets (orbit st2') !! 0%nat.
Proof.
  intros HS Hl1 Ha1 Hn1 Hl2 Ha2 Hn2 Hg1 Hg2 Ea Eb Ec.
  destruct (generateOrbit_first_subset _ _ _ _ _ HS Hl1 Ha1 Hn1 Hg1)
    as (c1 & -> & R1).
  destruct (generateOrbit_first_subset _ _ _ _ _ HS Hl2 Ha2 Hn2 Hg2)
    as (c2 & -> & R2).
  simpl. by rewrite R1, R2, Ea, Eb, Ec.
Qed.

(** C4: the two iteration functions compute the specification's formulas,
    variant1 = (y - sqrt|b*x - c| * sign(x), a - x) and
    variant2 = (y - 1 - sqrt|b*x - 1 - c| * sign(x - 1), a - x - 1),
    with sign(0) = 0.  Both are functions of their five arguments alone.
    Numbers are the reals. *)
Theorem C4_orbit_maps_match_formulas (x y a b c : R) :
  hopalong x y a b c = variant1 x y a b c
  ∧ hopalong2 x y a b c = variant2 x y a b c
  ∧ Math_sign (num := R) 0 = 0
  ∧ spec_sign 0 = 0.
Proof.
  assert (spec_sign 0 = 0) as Hzero.
  { unfold spec_sign. destruct (total_order_T 0 0) as [[Hlt|Heq]|Hgt]; [lra|done|lra]. }
  unfold hopalong, hopalong2, variant1, variant2.
  rewrite !Math_sign_R. cbn [num_sub num_mul Math_sqrt Math_abs R_JsNumber].
  rewrite !lit_R_1. done.
Qed.

End RealClaims.

Section RealWitnesses.
Local Open Scope R_scope.

Lemma spec_sign_0 : spec_sign 0 = 0.
Proof.
  unfold spec_sign. destruct (total_order_T 0 0) as [[Hlt|Heq]|Hgt]; [lra|done|lra].
Qed.

(** Two steps of the map from the origin. *)
Lemma trajectory_two_from_origin (a b c : R) :
  trajectory 2 a b c 0 0 = [(0, a); (a, a)].
Proof.
  cbn [trajectory hopalong]. rewrite Math_sign_R, spec_sign_0.
  cbn [num_sub num_mul Math_sqrt Math_abs R_JsNumber].
  replace (0 - sqrt (Rabs (b * 0 - c)) * 0) with 0 by ring.
  rewrite Math_sign_R, spec_sign_0.
  repeat f_equal; ring.
Qed.

Ltac Rltb_decide :=
  repeat match goal with
    | |- context [Rltb ?u ?v] =>
        first [ rewrite (Rltb_true u v) by lra | rewrite (Rltb_false u v) by lra ]
    end.

Lemma extents_two_points (a : R) :
  a < 0 →
  extents_after [(0, a); (a, a)] zero_extents
  = {| e_xMin := a; e_xMax := 0; e_yMin := a; e_yMax := 0 |}.
Proof.
  intros Ha. unfold extents_after, zero_extents. cbn [fold_left fst snd].
  rewrite lit_R_0. unfold updateExtents at 2.
  cbn [num_lt R_JsNumber e_xMin e_xMax e_yMin e_yMax]. Rltb_decide.
  unfold updateExtents. cbn [num_lt R_JsNumber e_xMin e_xMax e_yMin e_yMax].
  Rltb_decide. reflexivity.
Qed.

Lemma zero_draws_a :
  op_a (orbitParams (prepareOrbit zero_draws (initOrbit 1 2 one_subset_R))) = -30.
Proof. cbn. unfold zero_draws, Q2R. cbn. lra. Qed.

Lemma two_points_extents :
  xMin (orbit two_points_R) = -30 ∧ xMax (orbit two_points_R) = 0
  ∧ yMin (orbit two_points_R) = -30 ∧ yMax (orbit two_points_R) = 0.
Proof.
  unfold two_points_R, generated.
  cbn [orbit set_orbit xMin xMax yMin yMax].
  unfold first_pass_extents, subset_trajectory.
  cbn [seq map concat app Nat.mul Nat.add].
  rewrite !seed_R_0, app_nil_r, trajectory_two_from_origin, zero_draws_a.
  rewrite extents_two_points by lra.
  cbn [e_xMin e_xMax e_yMin e_yMax]. repeat split.
Qed.

(** [generate] at one subset of two points, every draw being 0. *)
Lemma C3_witness :
  (numSubsets one_subset_R = 1%Z
   ∧ generate zero_draws 1 2 one_subset_R = Some two_points_R
   ∧ xMax (orbit two_points_R) ≠ xMin (orbit two_points_R)
   ∧ yMax (orbit two_points_R) ≠ yMin (orbit two_points_R))
  ∧ (scaleX (orbit two_points_R)
       = 2 * 1500 / (xMax (orbit two_points_R) - xMin (orbit two_points_R))
     ∧ scaleY (orbit two_points_R)
       = 2 * 1500 / (yMax (orbit two_points_R) - yMin (orbit two_points_R))
     ∧ ∀ (s i : nat) (cur : list (SubsetPoint R)) (p : SubsetPoint R),
         subsets (orbit two_points_R) !! s = Some cur → cur !! i = Some p →
         v_x (vertex p)
           = scaleX (orbit two_points_R) * (sp_x p - xMin (orbit two_points_R)) - 1500
         ∧ v_y (vertex p)
           = scaleY (orbit two_points_R) * (sp_y p - yMin (orbit two_points_R)) - 1500
         ∧ v_z (vertex p) = 0
         ∧ (sp_x p = xMin (orbit two_points_R) → v_x (vertex p) = - 1500)
         ∧ (sp_x p = xMax (orbit two_points_R) → v_x (vertex p) = 1500)
         ∧ (sp_y p = yMin (orbit two_points_R) → v_y (vertex p) = - 1500)
         ∧ (sp_y p = yMax (orbit two_points_R) → v_y (vertex p) = 1500)).
Proof.
  destruct two_points_extents as (Hxm & HxM & Hym & HyM).
  assert (generate zero_draws 1 2 one_subset_R = Some two_points_R) as Hgen
    by (apply generate_generated; reflexivity).
  assert (xMax (orbit two_points_R) ≠ xMin (orbit two_points_R)) as Hx
    by (rewrite Hxm, HxM; lra).
  assert (yMax (orbit two_points_R) ≠ yMin (orbit two_points_R)) as Hy
    by (rewrite Hym, HyM; lra).
  split; [exact (conj eq_refl (conj Hgen (conj Hx Hy)))|].
  exact (C3_vertex_normalization zero_draws one_subset_R two_points_R 1 2
           eq_refl Hgen Hx Hy).
Defined.

Lemma C2_witness :
  ((1 ≤ 1)%Z ∧ (1 ≤ 2)%Z ∧ numSubsets one_subset_R = 1%Z)
  ∧ ∃ st', generate zero_draws 1 2 one_subset_R = Some st'
    ∧ Z.of_nat (length (subsets (orbit st'))) = 1%Z
    ∧ Forall (λ cur, Z.of_nat (length cur) = 2%Z) (subsets (orbit st'))
    ∧ Forall (Forall (λ p, xMin (orbit st') <= sp_x p <= xMax (orbit st')
                           ∧ yMin (orbit st') <= sp_y p <= yMax (orbit st')))
             (subsets (orbit st'))
    ∧ (xMin (orbit st') <= 0 <= xMax (orbit st')
       ∧ yMin (orbit st') <= 0 <= yMax (orbit st')).
Proof.
  split; [split; [lia|split; [lia|reflexivity]]|].
  exact (C2_generate_extents_bound_points zero_draws one_subset_R 1 2
           ltac:(lia) ltac:(lia) eq_refl).
Defined.

Lemma C9_witness :
  ((1 ≤ 1)%Z
   ∧ length (subsets (orbit (initOrbit 1 2 one_subset_R))) = Z.to_nat 1
   ∧ Forall (λ cur, length cur = Z.to_nat 2) (subsets (orbit (initOrbit 1 2 one_subset_R)))
   ∧ numSubsets (initOrbit 1 2 one_subset_R) = 1%Z
   ∧ generateOrbit zero_draws 1 2 (initOrbit 1 2 one_subset_R) = Some two_points_R)
  ∧ ((∀ r : R, seed 0 r = 0)
     ∧ ∃ cur, subsets (orbit two_points_R) !! 0%nat = Some cur
         ∧ raw_points cur
           = trajectory (Z.to_nat 2) (op_a (orbitParams two_points_R))
               (op_b (orbitParams two_points_R)) (op_c (orbitParams two_points_R)) 0 0).
Proof.
  destruct (initOrbit_shape 1 2 one_subset_R) as [Hlen Hall].
  assert (generateOrbit zero_draws 1 2 (initOrbit 1 2 one_subset_R) = Some two_points_R)
    as Hgen by (apply generateOrbit_generated; [exact Hlen|exact Hall|reflexivity]).
  split; [split; [lia|exact (conj Hlen (conj Hall (conj eq_refl Hgen)))]|].
  exact (C9_first_subset_starts_at_origin zero_draws (initOrbit 1 2 one_subset_R)
           two_points_R 1 2 ltac:(lia) Hlen Hall eq_refl Hgen).
Defined.

End RealWitnesses.

(** ** Reconciliation of the particle sets *)

Section RegistryLemmas.
Context {num : Type} `{!JsNumber num}.
Local Open Scope num_scope.
Variable random : nat → num.
Variable hsvToHsl : option num → num → num → num * num * num.

(** A loop invariant for a body that may throw. *)
Lemma for_each_seq_inv {St : Type} (I : nat → St → Prop)
    (body : nat → St → option St) (n : nat) (s0 s' : St) :
  I O s0 →
  (∀ k s t, (k < n)%nat → I k s → body k s = Some t → I (S k) t) →
  for_each (seq 0 n) body s0 = Some s' →
  I n s'.
Proof.
  intros H0 Hstep.
  cut (∀ m i s, (i + m ≤ n)%nat → I i s →
         for_each (seq i m) body s = Some s' → I (i + m)%nat s').
  { intros Hcut Hrun. apply (Hcut n O s0); [lia|done|done]. }
  induction m as [|m IH]; intros i s Hle Hi Hrun; simpl in Hrun.
  - injection Hrun as <-. by rewrite Nat.add_0_r.
  - destruct (body i s) as [t|] eqn:Hb; [|done]. simpl in Hrun.
    replace (i + S m)%nat with (S i + m)%nat by lia.
    apply (IH (S i) t); [lia| |done]. apply (Hstep i s t); [lia|done|done].
Qed.

Lemma in_range_true (st : Hopalong num) (ps : ParticleSet num) :
  in_range st ps = true ↔
  (Z.of_nat (myLevel ps) < numLevels st)%Z ∧ (Z.of_nat (mySubset ps) < numSubsets st)%Z.
Proof. unfold in_range. rewrite andb_true_iff, !Z.ltb_lt. done. Qed.

Lemma remove_all_effects (ds : list nat) :
  ∀ st : Hopalong num,
    effects (remove_all ds st) = effects st ++ map SceneRemove ds
    ∧ particleSets (remove_all ds st) = particleSets st
    ∧ controls (remove_all ds st) = controls st
    ∧ orbit (remove_all ds st) = orbit st
    ∧ hueValues (remove_all ds st) = hueValues st
    ∧ orbitParams (remove_all ds st) = orbitParams st
    ∧ randomCalls (remove_all ds st) = randomCalls st
    ∧ allocated (remove_all ds st) = allocated st.
Proof.
  induction ds as [|d ds IH]; intros st.
  - cbn. by rewrite app_nil_r.
  - change (remove_all (d :: ds) st) with (remove_all ds (scene_remove d st)).
    destruct (IH (scene_remove d st)) as (-> & -> & -> & -> & -> & -> & -> & ->).
    cbn. by rewrite <- app_assoc.
Qed.

Lemma remove_all_nil (st : Hopalong num) : remove_all [] st = st.
Proof. done. Qed.

(** The filter pass: what it keeps, what it records, what it removes. *)
Lemma dropStale_spec (l : list (ParticleSet num)) :
  ∀ (exists_ : gset string) (st : Hopalong num),
    dropStale l exists_ st
    = (filter (λ ps, in_range st ps) l,
       keys_of (filter (λ ps, in_range st ps) l) ∪ exists_,
       remove_all (drawables (stale st l)) st).
Proof.
  induction l as [|ps l IH]; intros ex st.
  - cbn. f_equal. f_equal. unfold keys_of. cbn. set_solver.
  - cbn [dropStale]. unfold stale. rewrite !filter_cons.
    destruct (in_range st ps) eqn:Hin.
    + rewrite IH. cbn. f_equal. f_equal. unfold keys_of. cbn. set_solver.
    + rewrite IH. cbn. reflexivity.
Qed.

Lemma generateParticleSet_effect (k s : nat) (st t : Hopalong num) :
  generateParticleSet hsvToHsl k s st = Some t →
  (∃ ps, particleSets t = particleSets st ++ [ps]
         ∧ myLevel ps = k ∧ mySubset ps = s ∧ drawable (particles ps) = allocated st)
  ∧ effects t = effects st ++ [SceneAdd (allocated st)]
  ∧ scene t = scene st ++ [allocated st]
  ∧ allocated t = S (allocated st)
  ∧ controls t = controls st
  ∧ orbit t = orbit st
  ∧ hueValues t = hueValues st
  ∧ orbitParams t = orbitParams st
  ∧ randomCalls t = randomCalls st.
Proof.
  unfold generateParticleSet. destruct (subsets (orbit st) !! s) as [cur|]; [|done].
  cbn [mbind option_bind]. intros [= <-]. cbn. split; [|done]. eauto.
Qed.

Lemma reconcile_unfold (st : Hopalong num) :
  reconcile hsvToHsl st
  = create_missing hsvToHsl
      (keys_of (filter (λ ps, in_range st ps) (particleSets st)) ∪ ∅)
      (set_particleSets (filter (λ ps, in_range st ps) (particleSets st))
         (remove_all (drawables (stale st (particleSets st))) st)).
Proof. unfold reconcile. rewrite dropStale_spec. reflexivity. Qed.

(** When every pair in range is recorded, nothing is created. *)
Lemma create_missing_none (exists_ : gset string) (st : Hopalong num) :
  (∀ k s : nat, (Z.of_nat k < numLevels st)%Z → (Z.of_nat s < numSubsets st)%Z →
     key k s ∈ exists_) →
  create_missing hsvToHsl exists_ st = Some st.
Proof.
  intros Hall. unfold create_missing, upto.
  apply (for_each_seq_fun (λ _, st)). intros k Hk.
  apply (for_each_seq_fun (λ _, st)). intros s Hs.
  rewrite bool_decide_true; [done|]. apply Hall; lia.
Qed.


Lemma elem_of_keys_of (kk : string) (l : list (ParticleSet num)) :
  kk ∈ keys_of l ↔ ∃ ps, ps ∈ l ∧ kk = key (myLevel ps) (mySubset ps).
Proof.
  unfold keys_of. rewrite elem_of_list_to_set, list_elem_of_fmap. naive_solver.
Qed.

Lemma keys_of_app_r (kk : string) (l l' : list (ParticleSet num)) :
  kk ∈ keys_of l → kk ∈ keys_of (l ++ l').
Proof.
  rewrite !elem_of_keys_of. intros (ps & Hps & ->). exists ps. split; [|done].
  apply elem_of_app. by left.
Qed.

Lemma controls_in_range (st t : Hopalong num) (ps : ParticleSet num) :
  controls t = controls st → in_range t ps = in_range st ps.
Proof. unfold controls, in_range. intros [= _ _ _ _ _ -> -> _ _ _ _ _ _]. done. Qed.

Lemma create_missing_establishes (exists_ : gset string) (st0 st1 : Hopalong num) :
  Forall (λ ps, in_range st0 ps = true) (particleSets st0) →
  (∀ kk, kk ∈ exists_ → kk ∈ keys_of (particleSets st0)) →
  create_missing hsvToHsl exists_ st0 = Some st1 →
  creating exists_ st0 st1
  ∧ ∀ k s : nat, (Z.of_nat k < numLevels st0)%Z → (Z.of_nat s < numSubsets st0)%Z →
      key k s ∈ keys_of (particleSets st1).
Proof.
  intros Hin Hex Hrun. unfold create_missing, upto in Hrun.
  set (L := Z.to_nat (numLevels st0)) in *. set (S' := Z.to_nat (numSubsets st0)) in *.
  pose (covered := λ (k j : nat) (t : Hopalong num),
          ∀ k' s, ((k' < k ∧ s < S') ∨ (k' = k ∧ s < j))%nat →
                  key k' s ∈ keys_of (particleSets t)).
  assert (creating exists_ st0 st1 ∧ covered L O st1) as [Hc Hcov].
  { revert Hrun.
    apply (for_each_seq_inv (λ k t, creating exists_ st0 t ∧ covered k O t)).
    { split; [by repeat split|]. intros k' s [[? ?]|[? ?]]; lia. }
    intros k t t' Hk [Hct Hcovt] Hrow.
    assert (creating exists_ st0 t' ∧ covered k S' t') as [Hct' Hcov'].
    { revert Hrow.
      apply (for_each_seq_inv (λ j u, creating exists_ st0 u ∧ covered k j u)).
      { split; [done|]. intros k' s [[? ?]|[? ?]]; [|lia]. apply Hcovt. lia. }
      intros j u u' Hj [Hcu Hcovu] Hbody.
      destruct Hcu as (Hctl & Horb & Hhue & Hop & Hrc & Hfa & Hsub).
      case_bool_decide as Hkey.
      - injection Hbody as <-. split; [by repeat split|].
        intros k' s [[? ?]|[-> Hs]]; [apply Hcovu; lia|].
        destruct (decide (s = j)) as [->|Hne]; [by apply Hsub|]. apply Hcovu. lia.
      - destruct (generateParticleSet_effect k j u u' Hbody)
          as ((ps & Hps & Hlv & Hsb & _) & _ & _ & _ & Hctl' & Horb' & Hhue' & Hop' & Hrc').
        split.
        + repeat split; try congruence.
          * rewrite Hps. apply Forall_app. split; [done|]. constructor; [|constructor].
            apply in_range_true. rewrite Hlv, Hsb. subst L S'. lia.
          * intros kk Hkk. rewrite Hps. by apply keys_of_app_r, Hsub.
        + intros k' s [[? ?]|[-> Hs]].
          * rewrite Hps. apply keys_of_app_r, Hcovu. lia.
          * rewrite Hps. destruct (decide (s = j)) as [->|Hne].
            -- apply elem_of_keys_of. exists ps. split; [|by rewrite Hlv, Hsb].
               apply elem_of_app. right. by apply list_elem_of_singleton.
            -- apply keys_of_app_r, Hcovu. lia. }
    split; [done|]. intros k' s [[Hk' Hs]|[? ?]]; [|lia].
    apply Hcov'. destruct (decide (k' = k)) as [->|]; [right|left]; lia. }
  split; [done|]. intros k s Hk Hs. apply (Hcov k s). left. subst L S'. lia.
Qed.

End RegistryLemmas.

Section ReconcileLemmas.
Context {num : Type} `{!JsNumber num}.
Local Open Scope num_scope.
Variable random : nat → num.
Variable hsvToHsl : option num → num → num → num * num * num.

Lemma Forall_in_range_filter (st : Hopalong num) (l : list (ParticleSet num)) :
  Forall (λ ps, in_range st ps = true) (filter (λ ps, in_range st ps) l).
Proof.
  apply Forall_forall. intros ps Hps. apply list_elem_of_filter in Hps as [Hin _].
  by apply Is_true_true.
Qed.

Lemma filter_in_range_all (st : Hopalong num) (l : list (ParticleSet num)) :
  Forall (λ ps, in_range st ps = true) l →
  filter (λ ps, in_range st ps) l = l ∧ stale st l = [].
Proof.
  unfold stale. induction 1 as [|ps l Hps Hl [IH1 IH2]]; [done|].
  rewrite !filter_cons, Hps. cbn. by rewrite IH1, IH2.
Qed.

(** Reconciliation, when it returns, leaves the registry reconciled, and
    touches nothing but the registry, the scene and the identities. *)
Lemma reconcile_establishes (st st1 : Hopalong num) :
  reconcile hsvToHsl st = Some st1 →
  reconciled st1
  ∧ controls st1 = controls st ∧ orbit st1 = orbit st ∧ hueValues st1 = hueValues st
  ∧ orbitParams st1 = orbitParams st ∧ randomCalls st1 = randomCalls st.
Proof.
  rewrite reconcile_unfold.
  set (kept := filter (λ ps, in_range st ps) (particleSets st)).
  set (ds := drawables (stale st (particleSets st))).
  set (st0 := set_particleSets kept (remove_all ds st)).
  destruct (remove_all_effects ds st) as (_ & _ & Hctl & Horb & Hhue & Hop & Hrc & _).
  assert (controls st0 = controls st) as Hctl0 by exact Hctl.
  intros Hrun. apply create_missing_establishes in Hrun as [Hc Hcov].
  - destruct Hc as (Hctl1 & Horb1 & Hhue1 & Hop1 & Hrc1 & Hfa & _).
    split; [split|].
    + eapply Forall_impl; [exact Hfa|]. intros ps Hps. simpl in *.
      rewrite <- Hps. apply controls_in_range. by rewrite Hctl1.
    + intros k s Hk Hs. apply Hcov.
      * assert (numLevels st1 = numLevels st0) as <-; [|done].
        unfold controls in Hctl1. by injection Hctl1.
      * assert (numSubsets st1 = numSubsets st0) as <-; [|done].
        unfold controls in Hctl1. by injection Hctl1.
    + rewrite Hctl1, Horb1, Hhue1, Hop1, Hrc1. subst st0. cbn.
      by rewrite Horb, Hhue, Hop, Hrc.
  - subst st0. cbn [particleSets set_particleSets].
    eapply Forall_impl; [apply Forall_in_range_filter|]. intros ps Hps. simpl in *.
    rewrite <- Hps. by apply controls_in_range.
  - subst st0. cbn [particleSets set_particleSets]. intros kk Hkk. set_solver.
Qed.

(** Reconciling a reconciled registry changes nothing. *)
Lemma reconcile_fixpoint (st : Hopalong num) :
  reconciled st → reconcile hsvToHsl st = Some st.
Proof.
  intros [Hin Hcov]. rewrite reconcile_unfold.
  destruct (filter_in_range_all st _ Hin) as [-> ->]. cbn [drawables map].
  rewrite remove_all_nil.
  replace (set_particleSets (particleSets st) st) with st by (by destruct st).
  apply create_missing_none. intros k s Hk Hs. apply elem_of_union_l. by apply Hcov.
Qed.

Lemma reconciled_frame (st t : Hopalong num) :
  controls t = controls st →
  map level_subset (particleSets t) = map level_subset (particleSets st) →
  reconciled st → reconciled t.
Proof.
  intros Hctl Hls [Hin Hcov].
  assert (∀ l l' : list (ParticleSet num),
            map level_subset l' = map level_subset l →
            (Forall (λ ps, in_range st ps = true) l →
             Forall (λ ps, in_range t ps = true) l')
            ∧ keys_of l' = keys_of l) as Haux.
  { induction l as [|ps l IH]; intros [|ps' l'] Heq; try done.
    cbn in Heq. unfold level_subset at 1 3 in Heq. injection Heq as Hlv Hsb Htl.
    destruct (IH l' Htl) as [IH1 IH2]. split.
    - intros Hfa. apply Forall_cons in Hfa as [Hps Hl]. constructor; [|by apply IH1].
      rewrite (controls_in_range st t) by done.
      unfold in_range in *. by rewrite Hlv, Hsb.
    - unfold keys_of in *. cbn. by rewrite Hlv, Hsb, IH2. }
  destruct (Haux _ _ Hls) as [H1 H2]. split; [by apply H1|].
  intros k s Hk Hs. rewrite H2. apply Hcov.
  - assert (numLevels t = numLevels st) as <-; [|done].
    unfold controls in Hctl. by injection Hctl.
  - assert (numSubsets t = numSubsets st) as <-; [|done].
    unfold controls in Hctl. by injection Hctl.
Qed.

(** The creation loops only push: the sets tracked before them stay, in
    their order, at the front. *)
Lemma create_missing_appends (exists_ : gset string) (st0 st1 : Hopalong num) :
  create_missing hsvToHsl exists_ st0 = Some st1 →
  ∃ created, particleSets st1 = particleSets st0 ++ created.
Proof.
  unfold create_missing, upto.
  apply (for_each_seq_inv
           (λ _ t, ∃ created, particleSets t = particleSets st0 ++ created)).
  { exists []. by rewrite app_nil_r. }
  intros k t t' _ Ht.
  apply (for_each_seq_inv
           (λ _ u, ∃ created, particleSets u = particleSets st0 ++ created));
    [exact Ht|].
  intros j u u' _ [created Hu] Hbody.
  case_bool_decide.
  - injection Hbody as <-. by exists created.
  - destruct (generateParticleSet_effect hsvToHsl k j u u' Hbody)
      as ((ps & Hps & _) & _).
    exists (created ++ [ps]). by rewrite Hps, Hu, app_assoc.
Qed.

(** Reconciliation keeps the tracked sets in range, as they are and in
    their order, at the front. *)
Lemma reconcile_keeps (st st1 : Hopalong num) :
  reconcile hsvToHsl st = Some st1 →
  ∃ created,
    particleSets st1 = filter (λ ps, in_range st ps) (particleSets st) ++ created.
Proof. rewrite reconcile_unfold. apply create_missing_appends. Qed.

End ReconcileLemmas.

(** ** Regeneration touches the orbit only *)

Section RegenerationLemmas.
Context {num : Type} `{!JsNumber num}.
Local Open Scope num_scope.
Variable random : nat → num.
Variable hsvToHsl : option num → num → num → num * num * num.

Lemma bind_Some_eq {A B : Type} (f : A → option B) (x : A) : Some x ≫= f = f x.
Proof. reflexivity. Qed.

Lemma regenerated_refl (st : Hopalong num) : regenerated st st.
Proof. by repeat split. Qed.

Lemma regenerated_trans (st t u : Hopalong num) :
  regenerated st t → regenerated t u → regenerated st u.
Proof.
  intros (? & ? & ? & ? & ?) (? & ? & ? & ? & ?). repeat split; congruence.
Qed.

Lemma iterateSubset_frame (N : Z) (a b c : num) (s : nat)
    (st t : Hopalong num) (ex ex' : Extents num) :
  iterateSubset random N a b c s (st, ex) = Some (t, ex') → regenerated st t.
Proof.
  unfold iterateSubset, Math_random.
  destruct (iteratePoints _ _ _ _ _ _ _ _ _) as [[[w|] e]|]; cbn; [| |done].
  - intros [= <- _]. by repeat split.
  - intros [= <- _]. by repeat split.
Qed.

Lemma normalizePoint_frame (sX sY xmin ymin : num) (s i : nat) (st t : Hopalong num) :
  normalizePoint sX sY xmin ymin s i st = Some t → regenerated st t.
Proof.
  unfold normalizePoint. destruct (subsets (orbit st) !! s) as [cur|]; [|done].
  cbn. destruct (cur !! i) as [p|]; [|done]. cbn. intros [= <-]. by repeat split.
Qed.

Lemma generateOrbit_frame (S' N : Z) (st t : Hopalong num) :
  generateOrbit random S' N st = Some t → regenerated st t.
Proof.
  unfold generateOrbit. cbn [Math_random].
  set (st2 := set_randomCalls _ (prepareOrbit random st)).
  assert (regenerated st st2) as H2 by (by repeat split).
  destruct (for_each (upto S') _ (st2, _)) as [[st3 ex]|] eqn:Hpass1; [|done].
  cbn [mbind option_bind].
  assert (regenerated st2 st3) as H3.
  { revert Hpass1. unfold upto.
    apply (for_each_seq_inv (λ _ (acc : Hopalong num * Extents num),
                               regenerated st2 acc.1)).
    - apply regenerated_refl.
    - intros k [u e] [u' e'] _ Hu Hb. eapply regenerated_trans; [exact Hu|].
      by eapply iterateSubset_frame. }
  set (st4 := set_orbit _ st3).
  assert (regenerated st3 st4) as H4 by (by repeat split).
  intros Hpass2.
  assert (regenerated st4 t) as H5.
  { revert Hpass2. unfold upto.
    apply (for_each_seq_inv (λ _ u, regenerated st4 u)).
    - apply regenerated_refl.
    - intros k u u' _ Hu. 
      apply (for_each_seq_inv (λ _ v, regenerated st4 v)); [done|].
      intros i v v' _ Hv Hb. eapply regenerated_trans; [exact Hv|].
      by eapply normalizePoint_frame. }
  eauto using regenerated_trans.
Qed.

Lemma draw_spec (n : nat) :
  ∀ st : Hopalong num,
    (draw random n st).2 = set_randomCalls (n + randomCalls st) st
    ∧ length (draw random n st).1 = n.
Proof.
  induction n as [|n IH]; intros st.
  - by destruct st.
  - cbn [draw Math_random].
    destruct (IH (set_randomCalls (S (randomCalls st)) st)) as [IH1 IH2].
    destruct (draw random n _) as [rs u]. cbn in *. rewrite IH1, IH2. split; [|done].
    replace (n + S (randomCalls st))%nat with (S (n + randomCalls st)) by lia. done.
Qed.

Lemma generateHues_spec (S' : Z) (st t : Hopalong num) :
  generateHues random S' st = Some t ↔
  (0 ≤ S')%Z
  ∧ t = set_hueValues (draw random (Z.to_nat S') st).1
          (set_randomCalls (Z.to_nat S' + randomCalls st) st).
Proof.
  unfold generateHues. destruct (Z.ltb_spec S' 0) as [Hneg|Hpos].
  - split; [done|]. intros [? _]. lia.
  - destruct (draw_spec (Z.to_nat S') st) as [Hd _].
    destruct (draw random (Z.to_nat S') st) as [hs u]. cbn in *. subst u.
    split; [intros [= <-]; done|]. intros [_ ->]. done.
Qed.

(** [updateOrbit], when it returns, has set every dirty flag and left the
    particle sets, the scene and the controls otherwise alone. *)
Lemma updateOrbit_frame (st t : Hopalong num) :
  updateOrbit random st = Some t →
  particleSets t = map (set_needsUpdate true) (particleSets st)
  ∧ scene t = scene st ∧ effects t = effects st ∧ allocated t = allocated st
  ∧ controls t = controls st.
Proof.
  unfold updateOrbit.
  destruct (generateOrbit random _ _ st) as [u|] eqn:Hgen; [|done].
  cbn [mbind option_bind].
  apply generateOrbit_frame in Hgen as (Hps & Hsc & Hef & Hal & Hctl).
  destruct (generateHues random _ u) as [v|] eqn:Hhue; [|done].
  cbn [mbind option_bind]. apply generateHues_spec in Hhue as [_ ->].
  intros [= <-]. cbn. by rewrite Hps, Hsc, Hef, Hal, <- Hctl.
Qed.

Lemma generated_frame (S' N : nat) (st : Hopalong num) :
  regenerated st (generated random S' N st)
  ∧ randomCalls (generated random S' N st) = (6 + randomCalls st + 2 * S')%nat.
Proof. unfold generated. by repeat split. Qed.

Lemma initOrbit_frame (S' N : Z) (st : Hopalong num) :
  regenerated st (initOrbit S' N st)
  ∧ randomCalls (initOrbit S' N st) = randomCalls st.
Proof. unfold initOrbit. by repeat split. Qed.

Lemma controls_counts (st t : Hopalong num) :
  controls t = controls st →
  numLevels t = numLevels st ∧ numSubsets t = numSubsets st
  ∧ numPointsSubset t = numPointsSubset st.
Proof. unfold controls. intros [= _ _ _ _ _ -> -> -> _ _ _ _ _]. done. Qed.

(** On a freshly allocated orbit, with a subset count that is not negative,
    [updateOrbit] returns. *)
Lemma updateOrbit_initOrbit (st : Hopalong num) :
  (0 ≤ numSubsets st)%Z →
  ∃ t, updateOrbit random (initOrbit (numSubsets st) (numPointsSubset st) st) = Some t
    ∧ length (subsets (orbit t)) = Z.to_nat (numSubsets st)
    ∧ Forall (λ cur, length cur = Z.to_nat (numPointsSubset st)) (subsets (orbit t))
    ∧ length (hueValues t) = Z.to_nat (numSubsets st)
    ∧ randomCalls t = (6 + 3 * Z.to_nat (numSubsets st) + randomCalls st)%nat.
Proof.
  intros Hpos. unfold updateOrbit.
  destruct (initOrbit_shape (numSubsets st) (numPointsSubset st) st) as [Hlen Hall].
  destruct (initOrbit_frame (numSubsets st) (numPointsSubset st) st)
    as [(_ & _ & _ & _ & Hctl0) Hrc0].
  apply controls_counts in Hctl0 as (_ & HS0 & HN0).
  remember (initOrbit (numSubsets st) (numPointsSubset st) st) as st0 eqn:E0.
  rewrite HS0, HN0.
  rewrite (generateOrbit_generated random _ _ st0 Hlen Hall) by (by rewrite HS0).
  rewrite bind_Some_eq.
  destruct (generated_shape random _ _ st0 Hlen Hall) as [Hlen' Hall'].
  destruct (generated_frame (Z.to_nat (numSubsets st)) (Z.to_nat (numPointsSubset st)) st0)
    as [(_ & _ & _ & _ & Hctlg) Hrcg].
  apply controls_counts in Hctlg as (_ & HSg & _).
  remember (generated random (Z.to_nat (numSubsets st))
              (Z.to_nat (numPointsSubset st)) st0) as g eqn:Eg.
  rewrite HSg, HS0.
  rewrite (proj2 (generateHues_spec (numSubsets st) g _) (conj Hpos eq_refl)).
  rewrite bind_Some_eq. eexists. split; [reflexivity|].
  cbn [orbit set_particleSets set_hueValues set_randomCalls hueValues randomCalls].
  split; [exact Hlen'|]. split; [exact Hall'|].
  split; [exact (proj2 (draw_spec _ _))|]. rewrite Hrcg, Hrc0.
  generalize (Z.to_nat (numSubsets st)) (randomCalls st). clear. intros n r. lia.
Qed.

End RegenerationLemmas.

(** ** [setLevelSubsetCount] *)

Section CountLemmas.
Context {num : Type} `{!JsNumber num}.
Local Open Scope num_scope.
Variable random : nat → num.
Variable hsvToHsl : option num → num → num → num * num * num.

Lemma bind_None_eq {A B : Type} (f : A → option B) : None ≫= f = None.
Proof. reflexivity. Qed.

Lemma setLevelSubsetCount_unfold (p : PartialSimSettings num) (st : Hopalong num) :
  setLevelSubsetCount random hsvToHsl p st
  = (if regenerates p
     then updateOrbit random
            (initOrbit (numSubsets (assign_counts p st))
                       (numPointsSubset (assign_counts p st)) (assign_counts p st))
     else Some (assign_counts p st))
    ≫= λ st_b, reconcile hsvToHsl st_b ≫= λ st_c, Some (fireSettingsChange st_c).
Proof. reflexivity. Qed.

Lemma or_prior_idem (v : option Z) (x : Z) : or_prior v (or_prior v x) = or_prior v x.
Proof. destruct v as [z|]; [|done]. cbn. by destruct (z =? 0)%Z eqn:E; rewrite ?E. Qed.

Lemma assign_counts_fields (p : PartialSimSettings num) (st : Hopalong num) :
  numLevels (assign_counts p st) = or_prior (p_levelCount p) (numLevels st)
  ∧ numSubsets (assign_counts p st) = or_prior (p_subsetCount p) (numSubsets st)
  ∧ numPointsSubset (assign_counts p st)
    = or_prior (p_pointsPerSubset p) (numPointsSubset st)
  ∧ particleSets (assign_counts p st) = particleSets st
  ∧ scene (assign_counts p st) = scene st
  ∧ effects (assign_counts p st) = effects st
  ∧ allocated (assign_counts p st) = allocated st
  ∧ speed (assign_counts p st) = speed st
  ∧ rotationSpeed (assign_counts p st) = rotationSpeed st.
Proof. by repeat split. Qed.

Lemma assign_counts_id (p : PartialSimSettings num) (st : Hopalong num) :
  numLevels st = or_prior (p_levelCount p) (numLevels st) →
  numSubsets st = or_prior (p_subsetCount p) (numSubsets st) →
  numPointsSubset st = or_prior (p_pointsPerSubset p) (numPointsSubset st) →
  assign_counts p st = st.
Proof.
  intros H1 H2 H3. unfold assign_counts. cbn [numSubsets numPointsSubset set_numLevels
    set_numSubsets]. rewrite <- H1, <- H2, <- H3. by destruct st.
Qed.

(** The stages of a call that returned. *)
Lemma setLevelSubsetCount_inv (p : PartialSimSettings num) (st st1 : Hopalong num) :
  setLevelSubsetCount random hsvToHsl p st = Some st1 →
  ∃ st_b st_c,
    (if regenerates p
     then updateOrbit random
            (initOrbit (numSubsets (assign_counts p st))
                       (numPointsSubset (assign_counts p st)) (assign_counts p st))
     else Some (assign_counts p st)) = Some st_b
    ∧ reconcile hsvToHsl st_b = Some st_c
    ∧ st1 = fireSettingsChange st_c.
Proof.
  rewrite setLevelSubsetCount_unfold.
  set (branch := if regenerates p then _ else _). clearbody branch.
  destruct branch as [st_b|]; [|rewrite bind_None_eq; discriminate].
  rewrite bind_Some_eq.
  destruct (reconcile hsvToHsl st_b) as [st_c|] eqn:Hc;
    [|rewrite bind_None_eq; discriminate].
  rewrite bind_Some_eq. intros [= <-]. exists st_b, st_c. done.
Qed.

(** The counts and the controls after a call that returned. *)
Lemma setLevelSubsetCount_controls (p : PartialSimSettings num) (st st1 : Hopalong num) :
  setLevelSubsetCount random hsvToHsl p st = Some st1 →
  controls st1 = controls (assign_counts p st).
Proof.
  intros (st_b & st_c & Hb & Hc & ->)%setLevelSubsetCount_inv.
  apply reconcile_establishes in Hc as (_ & Hctl & _).
  change (controls (fireSettingsChange st_c)) with (controls st_c). rewrite Hctl.
  destruct (regenerates p).
  - apply updateOrbit_frame in Hb as (_ & _ & _ & _ & ->). reflexivity.
  - by injection Hb as <-.
Qed.

End CountLemmas.

Section RegistryClaims.
Context {num : Type} `{!JsNumber num}.
Local Open Scope num_scope.
Variable random : nat → num.
Variable hsvToHsl : option num → num → num → num * num * num.

Lemma updateOrbit_nonneg (st t : Hopalong num) :
  updateOrbit random st = Some t → (0 ≤ numSubsets st)%Z.
Proof.
  unfold updateOrbit.
  destruct (generateOrbit random _ _ st) as [u|] eqn:Hgen;
    [|rewrite bind_None_eq; discriminate].
  rewrite bind_Some_eq.
  apply generateOrbit_frame in Hgen as (_ & _ & _ & _ & Hctl).
  apply controls_counts in Hctl as (_ & HS & _).
  destruct (generateHues random _ u) as [v|] eqn:Hhue;
    [|rewrite bind_None_eq; discriminate].
  apply generateHues_spec in Hhue as [Hpos _]. intros _. by rewrite <- HS.
Qed.

Lemma level_subset_dirty (l : list (ParticleSet num)) :
  map level_subset (map (set_needsUpdate true) l) = map level_subset l.
Proof. rewrite map_map. done. Qed.

Lemma shown_dirty (l : list (ParticleSet num)) :
  map shown (map (set_needsUpdate true) l) = map shown l.
Proof. rewrite map_map. done. Qed.

Lemma filter_in_range_dirty (st : Hopalong num) (l : list (ParticleSet num)) :
  filter (λ ps, in_range st ps) (map (set_needsUpdate true) l)
  = map (set_needsUpdate true) (filter (λ ps, in_range st ps) l).
Proof.
  induction l as [|ps l IH]; [done|].
  cbn [map]. rewrite !filter_cons.
  change (in_range st (set_needsUpdate true ps)) with (in_range st ps).
  destruct (decide _); cbn [map]; by rewrite IH.
Qed.

(** The sets tracked before a call of [setLevelSubsetCount] whose indices
    remain in range are tracked after it, in their order and up to the dirty
    flag, ahead of the sets the call created. *)
Lemma setLevelSubsetCount_keeps (p : PartialSimSettings num) (st st1 : Hopalong num) :
  setLevelSubsetCount random hsvToHsl p st = Some st1 →
  ∃ created,
    map shown (particleSets st1)
    = map shown (filter (λ ps, in_range st1 ps) (particleSets st)) ++ map shown created.
Proof.
  intros Hrun.
  pose proof (setLevelSubsetCount_controls random hsvToHsl p st st1 Hrun) as Hctl.
  apply setLevelSubsetCount_inv in Hrun as (st_b & st_c & Hb & Hc & ->).
  pose proof (reconcile_establishes hsvToHsl _ _ Hc) as (_ & Hctl_c & _).
  apply reconcile_keeps in Hc as [created Hps].
  exists created.
  change (particleSets (fireSettingsChange st_c)) with (particleSets st_c).
  rewrite Hps, map_app. f_equal.
  assert (∀ ps, in_range (fireSettingsChange st_c) ps = in_range st_b ps) as Hir.
  { intros ps. apply controls_in_range. exact Hctl_c. }
  assert (∀ l : list (ParticleSet num),
            filter (λ ps, in_range (fireSettingsChange st_c) ps) l
            = filter (λ ps, in_range st_b ps) l) as Hfilter.
  { intros l. apply list_filter_iff. intros ps. by rewrite Hir. }
  rewrite Hfilter.
  destruct (regenerates p).
  - apply updateOrbit_frame in Hb as (Hpsb & _). rewrite Hpsb.
    change (particleSets (initOrbit _ _ (assign_counts p st))) with (particleSets st).
    by rewrite filter_in_range_dirty, shown_dirty.
  - injection Hb as <-. reflexivity.
Qed.

(** C8: particle-set reconciliation is idempotent.  A call of
    [setLevelSubsetCount] that returned keeps every particle set whose
    indices remain in range: same object, same geometry, colour and
    placement, the dirty flag apart, ahead of the sets it created.
    Reconciling again changes nothing at all, and a second call with the
    same counts returns, removes nothing from the scene, creates no
    particle set (no identity is allocated, the only collaborator call is
    the settings notification), and leaves every tracked particle set as it
    was up to its dirty flag. *)
Theorem C8_reconcile_idempotent
    (p : PartialSimSettings num) (st st1 : Hopalong num) :
  setLevelSubsetCount random hsvToHsl p st = Some st1 →
  (∃ created,
     map shown (particleSets st1)
     = map shown (filter (λ ps, in_range st1 ps) (particleSets st)) ++ map shown created)
  ∧ reconcile hsvToHsl st1 = Some st1
  ∧ ∃ st2, setLevelSubsetCount random hsvToHsl p st1 = Some st2
      ∧ scene st2 = scene st1
      ∧ allocated st2 = allocated st1
      ∧ effects st2 = effects st1 ++ [SettingsUpdate (getSettings st2)]
      ∧ map shown (particleSets st2) = map shown (particleSets st1).
Proof.
  intros Hrun. split; [exact (setLevelSubsetCount_keeps p st st1 Hrun)|].
  pose proof (setLevelSubsetCount_controls random hsvToHsl p st st1 Hrun) as Hctl.
  apply controls_counts in Hctl as (HL & HS & HN).
  destruct (assign_counts_fields p st) as (HL' & HS' & HN' & _).
  rewrite HL' in HL. rewrite HS' in HS. rewrite HN' in HN.
  apply setLevelSubsetCount_inv in Hrun as (st_b & st_c & Hb & Hc & ->).
  apply reconcile_establishes in Hc as (Hrec & Hctl_c & _).
  set (st1 := fireSettingsChange st_c) in *.
  assert (reconciled st1) as Hrec1 by (by apply (reconciled_frame st_c)).
  split; [by apply reconcile_fixpoint|].
  rewrite setLevelSubsetCount_unfold.
  rewrite (assign_counts_id p st1) by (by rewrite ?HL, ?HS, ?HN, or_prior_idem).
  destruct (regenerates p) eqn:Hreg.
  - assert (0 ≤ numSubsets st1)%Z as Hpos.
    { apply updateOrbit_nonneg in Hb.
      destruct (initOrbit_frame (numSubsets (assign_counts p st))
                  (numPointsSubset (assign_counts p st)) (assign_counts p st))
        as [(_ & _ & _ & _ & Hctl0) _].
      apply controls_counts in Hctl0 as (_ & HS0 & _). rewrite HS0, HS' in Hb.
      by rewrite HS. }
    destruct (updateOrbit_initOrbit random st1 Hpos) as (t & Ht & _).
    rewrite Ht, bind_Some_eq.
    apply updateOrbit_frame in Ht as (Hps & Hsc & Hef & Hal & Hctl_t).
    assert (reconciled t) as Hrec_t.
    { apply (reconciled_frame st1); [exact Hctl_t| |done].
      rewrite Hps. apply level_subset_dirty. }
    rewrite (reconcile_fixpoint hsvToHsl t Hrec_t), bind_Some_eq.
    eexists. split; [reflexivity|].
    cbn [scene allocated effects particleSets fireSettingsChange emit set_effects].
    rewrite Hsc, Hal, Hef, Hps. repeat split. apply shown_dirty.
  - rewrite bind_Some_eq, (reconcile_fixpoint hsvToHsl st1 Hrec1), bind_Some_eq.
    eexists. split; [reflexivity|]. by repeat split.
Qed.

End RegistryClaims.

Section ShrinkClaims.
Context {num : Type} `{!JsNumber num}.
Local Open Scope num_scope.
Variable random : nat → num.
Variable hsvToHsl : option num → num → num → num * num * num.

Lemma elem_of_pairs (levels subsets' k s : nat) :
  (k, s) ∈ pairs levels subsets' ↔ (k < levels)%nat ∧ (s < subsets')%nat.
Proof.
  unfold pairs. rewrite list_elem_of_In, in_flat_map. split.
  - intros (k' & Hk' & Hin). apply in_map_iff in Hin as (s' & [= -> ->] & Hs').
    apply in_seq in Hk'. apply in_seq in Hs'. lia.
  - intros [Hk Hs]. exists k. split; [apply in_seq; lia|].
    apply in_map_iff. exists s. split; [done|]. apply in_seq. lia.
Qed.

Lemma level_subset_filter (st : Hopalong num) (l : list (ParticleSet num)) :
  map level_subset (filter (λ ps, in_range st ps) l)
  = filter (λ ks, pair_in_range (numLevels st) (numSubsets st) ks) (map level_subset l)
  ∧ map level_subset (stale st l)
    = filter (λ ks, negb (pair_in_range (numLevels st) (numSubsets st) ks))
             (map level_subset l).
Proof.
  unfold stale. induction l as [|ps l [IH1 IH2]]; [done|].
  cbn [map]. rewrite !filter_cons.
  change (pair_in_range (numLevels st) (numSubsets st) (level_subset ps))
    with (in_range st ps).
  destruct (in_range st ps).
  - rewrite (decide_True (P := Is_true true)) by done.
    rewrite (decide_False (P := Is_true (negb true))) by (by intros []).
    rewrite (decide_True (P := Is_true true)) by done.
    rewrite (decide_False (P := Is_true (negb true))) by (by intros []).
    cbn [map]. by rewrite IH1, IH2.
  - rewrite (decide_False (P := Is_true false)) by (by intros []).
    rewrite (decide_True (P := Is_true (negb false))) by done.
    rewrite (decide_False (P := Is_true false)) by (by intros []).
    rewrite (decide_True (P := Is_true (negb false))) by done.
    cbn [map]. by rewrite IH1, IH2.
Qed.


End ShrinkClaims.

Section DefaultConfiguration.
Context {num : Type} `{!JsNumber num}.
Local Open Scope num_scope.
Variable random : nat → num.
Variable hsvToHsl : option num → num → num → num * num * num.

Lemma drawables_dirty (l : list (ParticleSet num)) :
  drawables (map (set_needsUpdate true) l) = drawables l.
Proof. unfold drawables. rewrite map_map. done. Qed.




End DefaultConfiguration.

(** ** The frame step and the input handlers *)

Section FrameClaims.
Context {num : Type} `{!JsNumber num}.
Local Open Scope num_scope.
Variable random : nat → num.
Variable hsvToHsl : option num → num → num → num * num * num.

(** One particle set across one frame. *)
Lemma advance_spec (st : Hopalong num) (ps ps' : ParticleSet num) :
  advance hsvToHsl st ps = Some ps' →
  let crossed := v_z (position (particles ps)) + speed st
                 >? v_z (cam_position (camera st)) in
  drawable (particles ps') = drawable (particles ps)
  ∧ level_subset ps' = level_subset ps
  ∧ (crossed && needsUpdate ps = true →
       Some (geometry (particles ps'))
       = map vertex <$> subsets (orbit st) !! mySubset ps
       ∧ myMaterial ps'
         = hsvToHsl (hueValues st !! mySubset ps) DEF_SATURATION DEF_BRIGHTNESS
       ∧ needsUpdate ps' = false)
  ∧ (crossed && needsUpdate ps = false →
       geometry (particles ps') = geometry (particles ps)
       ∧ myMaterial ps' = myMaterial ps
       ∧ needsUpdate ps' = needsUpdate ps)
  ∧ (crossed = true →
       v_z (position (particles ps')) = - (ofZ (numLevels st) - lit 1) * LEVEL_DEPTH)
  ∧ (crossed = false →
       v_z (position (particles ps')) = v_z (position (particles ps)) + speed st).
Proof.
  unfold advance. intros Hadv. cbv zeta in *.
  set (crossed := _ >? _) in *.
  destruct crossed; [destruct (needsUpdate ps) eqn:Hdirty|].
  - destruct (subsets (orbit st) !! mySubset ps) as [cur|]; [|discriminate Hadv].
    injection Hadv as <-. cbn. by repeat split.
  - injection Hadv as <-. cbn. by repeat split.
  - injection Hadv as <-. cbn. by repeat split.
Qed.

(** The draws themselves: [draw] reads [random] at the next [n] indices. *)
Lemma draw_values (n : nat) :
  ∀ st : Hopalong num, (draw random n st).1 = map random (seq (randomCalls st) n).
Proof.
  induction n as [|n IH]; intros st; cbn [draw Math_random]; [done|].
  specialize (IH (set_randomCalls (S (randomCalls st)) st)).
  destruct (draw random n _) as [rs u]. cbn in *. by rewrite IH.
Qed.

(** What [updateOrbit] writes: the orbit and the parameters [generateOrbit]
    leaves, then one draw per subset for the hues. *)
Lemma updateOrbit_writes (st st1 : Hopalong num) :
  updateOrbit random st = Some st1 →
  ∃ t, generateOrbit random (numSubsets st) (numPointsSubset st) st = Some t
    ∧ orbit st1 = orbit t ∧ orbitParams st1 = orbitParams t
    ∧ hueValues st1 = map random (seq (randomCalls t) (Z.to_nat (numSubsets st)))
    ∧ randomCalls st1 = (randomCalls t + Z.to_nat (numSubsets st))%nat.
Proof.
  unfold updateOrbit.
  destruct (generateOrbit random _ _ st) as [u|] eqn:Hgen; [|done].
  rewrite bind_Some_eq.
  pose proof (generateOrbit_frame random _ _ _ _ Hgen) as (_ & _ & _ & _ & Hctl).
  destruct (controls_counts _ _ Hctl) as (_ & HS & _).
  destruct (generateHues random _ u) as [v|] eqn:Hhue; [|done].
  rewrite bind_Some_eq. apply generateHues_spec in Hhue as [_ ->].
  intros [= <-]. exists u. split; [done|].
  cbn [orbit orbitParams hueValues randomCalls set_particleSets set_hueValues
       set_randomCalls].
  rewrite draw_values, HS. repeat split. lia.
Qed.

(** C5: regeneration ([updateOrbit]) writes new orbit data (what
    [generateOrbit] leaves: on an allocated orbit the generated one, under
    freshly drawn parameters) and one freshly drawn hue per subset, and sets
    the dirty flag of every tracked particle set; it leaves each set's
    drawable, geometry, position, colour and indices as they were, and
    does not touch the scene: what is shown is not updated then.  In the
    frame step a particle set's geometry and colour are rebuilt from the
    current orbit subset and hue, and its flag cleared, exactly when its z
    position advanced by [speed] exceeds the camera's z while the flag is
    set; whenever it crosses, z is reset to -(numLevels - 1) * LEVEL_DEPTH; a
    set that does not cross (or crosses clean) keeps its geometry, colour
    and flag. *)
Theorem C5_regeneration_is_deferred (st st1 sr sr' : Hopalong num) :
  updateOrbit random st = Some st1 →
  render hsvToHsl sr = Some sr' →
  (∃ t, generateOrbit random (numSubsets st) (numPointsSubset st) st = Some t
     ∧ orbit st1 = orbit t ∧ orbitParams st1 = orbitParams t
     ∧ hueValues st1 = map random (seq (randomCalls t) (Z.to_nat (numSubsets st)))
     ∧ randomCalls st1 = (randomCalls t + Z.to_nat (numSubsets st))%nat
     ∧ (length (subsets (orbit st)) = Z.to_nat (numSubsets st) →
        Forall (λ cur, length cur = Z.to_nat (numPointsSubset st))
               (subsets (orbit st)) →
        t = generated random (Z.to_nat (numSubsets st))
                      (Z.to_nat (numPointsSubset st)) st
        ∧ randomCalls t = (6 + randomCalls st + 2 * Z.to_nat (numSubsets st))%nat))
  ∧ Forall (λ ps, needsUpdate ps = true) (particleSets st1)
  ∧ Forall2 (λ ps ps1, particles ps1 = particles ps
                       ∧ myMaterial ps1 = myMaterial ps
                       ∧ level_subset ps1 = level_subset ps)
            (particleSets st) (particleSets st1)
  ∧ (particleSets st1 = map (set_needsUpdate true) (particleSets st)
     ∧ scene st1 = scene st ∧ effects st1 = effects st)
  ∧ length (particleSets sr') = length (particleSets sr)
  ∧ ∀ (i : nat) (ps : ParticleSet num),
      particleSets sr !! i = Some ps →
      ∃ ps', particleSets sr' !! i = Some ps'
        ∧ drawable (particles ps') = drawable (particles ps)
        ∧ level_subset ps' = level_subset ps
        ∧ let crossed := v_z (position (particles ps)) + speed sr
                         >? v_z (cam_position (camera sr)) in
          (crossed && needsUpdate ps = true →
             Some (geometry (particles ps'))
             = map vertex <$> subsets (orbit sr) !! mySubset ps
             ∧ myMaterial ps'
               = hsvToHsl (hueValues sr !! mySubset ps) DEF_SATURATION DEF_BRIGHTNESS
             ∧ needsUpdate ps' = false)
          ∧ (crossed && needsUpdate ps = false →
               geometry (particles ps') = geometry (particles ps)
               ∧ myMaterial ps' = myMaterial ps
               ∧ needsUpdate ps' = needsUpdate ps)
          ∧ (crossed = true →
               v_z (position (particles ps'))
               = - (ofZ (numLevels sr) - lit 1) * LEVEL_DEPTH)
          ∧ (crossed = false →
               v_z (position (particles ps'))
               = v_z (position (particles ps)) + speed sr).
Proof.
  intros Hupd Hren.
  split.
  { destruct (updateOrbit_writes st st1 Hupd) as (t & Hgen & Ho & Hp & Hh & Hr).
    exists t. split; [done|]. split; [done|]. split; [done|]. split; [done|].
    split; [done|]. intros Hlen Hall.
    rewrite (generateOrbit_generated random _ _ st Hlen Hall eq_refl) in Hgen.
    injection Hgen as <-. split; [done|].
    exact (proj2 (generated_frame random _ _ st)). }
  pose proof (updateOrbit_frame random st st1 Hupd) as (Hps & Hsc & Hef & _).
  split; [rewrite Hps; apply Forall_forall; intros ps1 Hin;
          apply list_elem_of_fmap in Hin as (ps & -> & _); done|].
  split.
  { rewrite Hps. clear. induction (particleSets st) as [|ps l IH]; cbn [map];
      constructor; [by destruct ps|done]. }
  split; [done|].
  unfold render in Hren.
  set (sc := set_camera _ sr) in Hren.
  destruct (mapM (advance hsvToHsl sc) (particleSets sc)) as [sets|] eqn:Hsets;
    [|discriminate Hren].
  injection Hren as <-. apply mapM_Some in Hsets.
  change (particleSets sc) with (particleSets sr) in Hsets.
  cbn [particleSets emit set_effects set_particleSets].
  split; [symmetry; by eapply Forall2_length|].
  intros i ps Hi.
  destruct (Forall2_lookup_l _ _ _ _ _ Hsets Hi) as (ps' & Hi' & Hadv).
  exists ps'. split; [done|]. exact (advance_spec sc ps ps' Hadv).
Qed.

(** The numeric settings after [applySettings]. *)
Lemma applySettings_controls (p : PartialSimSettings num) (st st' : Hopalong num) :
  applySettings random hsvToHsl p st = Some st' →
  speed st' = default (speed st) (p_speed p)
  ∧ rotationSpeed st' = default (rotationSpeed st) (p_rotationSpeed p)
  ∧ numLevels st' = or_prior (p_levelCount p) (numLevels st)
  ∧ numSubsets st' = or_prior (p_subsetCount p) (numSubsets st)
  ∧ numPointsSubset st' = or_prior (p_pointsPerSubset p) (numPointsSubset st).
Proof.
  unfold applySettings.
  set (s1 := match p_speed p with Some v => set_speed v st | None => st end).
  set (s2 := match p_rotationSpeed p with
             | Some v => set_rotationSpeed v s1 | None => s1 end).
  set (s3 := match p_mouseLocked p with Some v => set_mouseLocked v s2 | None => s2 end).
  set (s4 := match p_cameraFov p with Some v => setCameraFOV v s3 | None => s3 end).
  assert (speed s4 = default (speed st) (p_speed p)
          ∧ rotationSpeed s4 = default (rotationSpeed st) (p_rotationSpeed p)
          ∧ numLevels s4 = numLevels st ∧ numSubsets s4 = numSubsets st
          ∧ numPointsSubset s4 = numPointsSubset st) as (Hsp & Hrs & HL & HS & HN).
  { subst s4 s3 s2 s1.
    destruct (p_speed p), (p_rotationSpeed p), (p_mouseLocked p), (p_cameraFov p);
      by repeat split. }
  clearbody s4. clear s1 s2 s3.
  set (adv := Build_PartialSimSettings _ _ _ _ _ _ _).
  destruct (_ || _) eqn:Hany.
  - intros Hset.
    pose proof (setLevelSubsetCount_controls random hsvToHsl adv s4 st' Hset) as Hctl.
    destruct (assign_counts_fields adv s4) as (HL' & HS' & HN' & _ & _ & _ & _ & Hsp' & Hrs').
    unfold controls in Hctl.
    injection Hctl as -> -> _ _ _ -> -> -> _ _ _ _ _.
    rewrite Hsp, Hrs, HL, HS, HN. done.
  - intros [= <-].
    apply orb_false_iff in Hany as [Hany H3]. apply orb_false_iff in Hany as [H1 H2].
    apply bool_decide_eq_false in H1, H2, H3.
    destruct (p_levelCount p); [by destruct H1|].
    destruct (p_subsetCount p); [by destruct H2|].
    destruct (p_pointsPerSubset p); [by destruct H3|]. done.
Qed.

End FrameClaims.

Section SettingsClaims.
Context {num : Type} `{!JsNumber num}.
Local Open Scope num_scope.
Variable random : nat → num.
Variable hsvToHsl : option num → num → num → num * num * num.

(** C7 (as amended): the three counts are the settings read with
    "falsy means unset": through [applySettings], and through
    [setLevelSubsetCount] itself, an absent or zero levelCount, subsetCount
    or pointsPerSubset leaves the prior count in place.  [speed] and
    [rotationSpeed] are assigned whenever they are defined: a requested
    rotationSpeed of exactly 0 is applied. *)
Theorem C7_zero_counts_are_ignored
    (p : PartialSimSettings num) (st st' : Hopalong num) :
  applySettings random hsvToHsl p st = Some st' →
  (p_levelCount p = None ∨ p_levelCount p = Some 0%Z → numLevels st' = numLevels st)
  ∧ (p_subsetCount p = None ∨ p_subsetCount p = Some 0%Z →
       numSubsets st' = numSubsets st)
  ∧ (p_pointsPerSubset p = None ∨ p_pointsPerSubset p = Some 0%Z →
       numPointsSubset st' = numPointsSubset st)
  ∧ (∀ v, p_rotationSpeed p = Some v → rotationSpeed st' = v)
  ∧ (∀ v, p_speed p = Some v → speed st' = v)
  ∧ (p_rotationSpeed p = None → rotationSpeed st' = rotationSpeed st)
  ∧ (p_speed p = None → speed st' = speed st)
  ∧ (∀ st'', setLevelSubsetCount random hsvToHsl p st = Some st'' →
       numLevels st'' = or_prior (p_levelCount p) (numLevels st)
       ∧ numSubsets st'' = or_prior (p_subsetCount p) (numSubsets st)
       ∧ numPointsSubset st'' = or_prior (p_pointsPerSubset p) (numPointsSubset st)).
Proof.
  intros Happ.
  destruct (applySettings_controls random hsvToHsl p st st' Happ)
    as (Hsp & Hrs & HL & HS & HN).
  rewrite Hsp, Hrs, HL, HS, HN.
  repeat split.
  - by intros [->| ->].
  - by intros [->| ->].
  - by intros [->| ->].
  - by intros v ->.
  - by intros v ->.
  - by intros ->.
  - by intros ->.
  - apply setLevelSubsetCount_controls in H.
    apply controls_counts in H as (-> & _ & _). apply assign_counts_fields.
  - apply setLevelSubsetCount_controls in H.
    apply controls_counts in H as (_ & -> & _). apply assign_counts_fields.
  - apply setLevelSubsetCount_controls in H.
    apply controls_counts in H as (_ & _ & ->). apply assign_counts_fields.
Qed.

Lemma pointer_event_locked (e : PointerEvent num) (st : Hopalong num) :
  mouseLocked st = true → onPointerEvent e st = st.
Proof.
  intros Hlock. destruct e; cbn;
    unfold onDocumentMouseMove, onDocumentTouchStart, onDocumentTouchMove;
    by rewrite Hlock.
Qed.

Lemma pointer_events_locked (events : list (PointerEvent num)) (st : Hopalong num) :
  mouseLocked st = true → foldl (λ s e, onPointerEvent e s) st events = st.
Proof.
  intros Hlock. induction events as [|e events IH]; [done|].
  cbn. by rewrite pointer_event_locked.
Qed.

(** C10: [recenterCamera] puts the camera's x and y and the stored mouse x
    and y at 0, locks the mouse and notifies the settings collaborator;
    after it, whether reached through the C key or a gamepad connection,
    any sequence of mouse-move and touch events leaves the object, and so
    mouseX and mouseY, as it is; once the lock is cleared a mouse move is
    stored again. *)
Theorem C10_recenter_locks_mouse
    (st : Hopalong num) (events : list (PointerEvent num)) (e : MouseEvent num) :
  let st1 := recenterCamera st in
  v_x (cam_position (camera st1)) = lit 0
  ∧ v_y (cam_position (camera st1)) = lit 0
  ∧ mouseX st1 = lit 0 ∧ mouseY st1 = lit 0
  ∧ mouseLocked st1 = true
  ∧ effects st1 = effects st ++ [SettingsUpdate (getSettings st1)]
  ∧ foldl (λ s e, onPointerEvent e s) st1 events = st1
  ∧ onKeyDown random hsvToHsl "c" st = Some st1
  ∧ onKeyDown random hsvToHsl "C" st = Some st1
  ∧ mouseLocked (onControllerConnected st) = true
  ∧ foldl (λ s e, onPointerEvent e s) (onControllerConnected st) events
    = onControllerConnected st
  ∧ mouseX (onDocumentMouseMove e (setMouseLock (Some false) st1))
    = clientX e - windowHalfX st.
Proof.
  cbv zeta. repeat split.
  - by apply pointer_events_locked.
  - by apply pointer_events_locked.
Qed.

End SettingsClaims.

Section Deadzone.
Local Open Scope R_scope.

Lemma lit_R_tenth : lit 0.1 = 1 / 10.
Proof. cbn. unfold Q2R. cbn. lra. Qed.

Lemma lit_R_50 : lit 50 = 50.
Proof. cbn. unfold Q2R. cbn. lra. Qed.

Lemma deadzone_inside (v : R) : Rabs v < 1 / 10 → deadzone v = 0.
Proof.
  intros Hv. unfold deadzone, deadzone_with. rewrite lit_R_tenth.
  cbn [num_lt R_JsNumber Math_abs]. rewrite Rltb_true by exact Hv. apply lit_R_0.
Qed.

Lemma deadzone_outside (v : R) : 1 / 10 <= Rabs v → deadzone v = v - 1 / 10.
Proof.
  intros Hv. unfold deadzone, deadzone_with. rewrite lit_R_tenth.
  cbn [num_lt R_JsNumber Math_abs]. rewrite Rltb_false by lra. reflexivity.
Qed.

Lemma deadzone_positive (v : R) :
  1 / 10 <= v → deadzone v = v - 1 / 10 ∧ Rabs (deadzone v) = Rabs v - 1 / 10.
Proof.
  intros Hv. rewrite deadzone_outside by (rewrite Rabs_right; lra).
  split; [reflexivity|]. rewrite !Rabs_right; lra.
Qed.

Lemma deadzone_negative (v : R) :
  v <= - (1 / 10) → deadzone v = v - 1 / 10 ∧ Rabs (deadzone v) = Rabs v + 1 / 10.
Proof.
  intros Hv. rewrite deadzone_outside by (rewrite Rabs_left; lra).
  split; [reflexivity|]. rewrite !Rabs_left; lra.
Qed.

Lemma rotation_of_strategy
    (pow : R → R → R) (bounds : Bounds R) (current : Movement R) (a0 a1 a2 a3 : R) :
  mv_rotationSpeed <$>
    stdGamepadMovementStrategy pow bounds current {| axes := [a0; a1; a2; a3] |}
  = Some (deadzone (- a0) / 50).
Proof. unfold stdGamepadMovementStrategy. cbn. rewrite <- lit_R_50. reflexivity. Qed.

(** C6: inside the threshold the deadzone gives exactly 0, and a stick at
    0.05 gives a rotation speed of exactly 0; at or above the threshold the
    value moves toward 0 by 0.1.  At or below the negated threshold the same
    0.1 is subtracted, so the value moves away from 0: a stick at 0.5 reads
    -0.5, is mapped to -0.6 and gives a rotation speed of -0.012. *)
Theorem C6_deadzone_subtracts_on_both_sides :
  (∀ v : R, Rabs v < 1 / 10 → deadzone v = 0)
  ∧ (∀ v : R, 1 / 10 <= v →
       deadzone v = v - 1 / 10 ∧ Rabs (deadzone v) = Rabs v - 1 / 10)
  ∧ (∀ v : R, v <= - (1 / 10) →
       deadzone v = v - 1 / 10 ∧ Rabs (deadzone v) = Rabs v + 1 / 10)
  ∧ (∀ pow bounds current a1 a2 a3,
       mv_rotationSpeed <$>
         stdGamepadMovementStrategy pow bounds current {| axes := [5 / 100; a1; a2; a3] |}
       = Some 0)
  ∧ deadzone (- (5 / 10)) = - (6 / 10)
  ∧ (∀ pow bounds current a1 a2 a3,
       mv_rotationSpeed <$>
         stdGamepadMovementStrategy pow bounds current {| axes := [5 / 10; a1; a2; a3] |}
       = Some (- (12 / 1000))).
Proof.
  split; [exact deadzone_inside|].
  split; [exact deadzone_positive|].
  split; [exact deadzone_negative|].
  split; [|split].
  - intros. rewrite rotation_of_strategy, deadzone_inside.
    + f_equal. lra.
    + rewrite Rabs_left; lra.
  - rewrite (proj1 (deadzone_negative (- (5 / 10)) ltac:(lra))). lra.
  - intros. rewrite rotation_of_strategy.
    rewrite (proj1 (deadzone_negative (- (5 / 10)) ltac:(lra))). f_equal. lra.
Qed.

End Deadzone.

(** The same two sticks in binary64. *)
Example deadzone_float_inside :
  deadzone (PrimFloat.opp (lit 0.05)) = PrimFloat.zero.
Proof. vm_compute. reflexivity. Qed.

Example deadzone_float_negative :
  deadzone (PrimFloat.opp (lit 0.5)) = PrimFloat.opp (lit 0.6).
Proof. vm_compute. reflexivity. Qed.

(** ** The claims on the example objects (binary64) *)

(** In binary64 the seed of subset 0 is a zero of either sign: it compares
    equal to 0, and the map sends both zeros to the same first point. *)
Example seed_float_zero :
  seed 0 (lit 0.25) = PrimFloat.zero
  ∧ seed 0 (lit 0.75) = PrimFloat.neg_zero
  ∧ PrimFloat.eqb (seed 0 (lit 0.75)) (lit 0) = true
  ∧ hopalong (num := PrimFloat.float)
             (seed 0 (lit 0.75)) (seed 0 (lit 0.75)) (lit 3) (lit 1) (lit 5)
    = hopalong (seed 0 (lit 0.25)) (seed 0 (lit 0.25)) (lit 3) (lit 1) (lit 5).
Proof. repeat split; vm_compute; reflexivity. Qed.

(** On the small object, as computed in binary64: the subsets have the
    allocated shape, every raw point lies within the recorded extents, the
    extents straddle 0, and subset 0 starts at (0, a). *)
Example small_state_orbit :
  let o := orbit small_state in
  map length (subsets o) = [3%nat; 3%nat]
  ∧ forallb (forallb (λ p, (xMin o <=? sp_x p)%num && (sp_x p <=? xMax o)%num
                           && (yMin o <=? sp_y p)%num && (sp_y p <=? yMax o)%num))
            (subsets o) = true
  ∧ ((xMin o <=? lit 0)%num && (lit 0 <=? xMax o)%num
     && (yMin o <=? lit 0)%num && (lit 0 <=? yMax o)%num) = true
  ∧ (λ p, (sp_x p, sp_y p)) <$> (subsets o !! 0%nat ≫= (.!! 0%nat))
    = Some (lit 0, op_a (orbitParams small_state)).
Proof. cbv zeta. repeat split; vm_compute; reflexivity. Qed.




(** On the small object at speed 760: the regeneration draws new parameters
    and the hues at draws 22 and 23, sets all four flags and leaves the
    shown geometry alone.  In the next frame the sets at indices 1 and 2
    pass the camera: they are rebuilt from the new orbit, their flags are
    cleared and they are sent back to z = -600.  The sets at indices 0 and
    3 do not pass it: they keep their geometry and stay dirty. *)
Lemma C5_witness :
  (updateOrbit example_random small_fast = Some small_fast_regenerated
   ∧ render hsvToHsl_standard small_fast_regenerated = Some small_fast_rendered)
  ∧ (hueValues small_fast_regenerated = [example_random 22; example_random 23]
     ∧ PrimFloat.eqb (op_a (orbitParams small_fast_regenerated))
                     (op_a (orbitParams small_fast)) = false
     ∧ Forall (λ ps, needsUpdate ps = true) (particleSets small_fast_regenerated)
     ∧ map (λ ps, geometry (particles ps)) (particleSets small_fast_regenerated)
       = map (λ ps, geometry (particles ps)) (particleSets small_fast))
  ∧ map (λ ps, (v_z (position (particles ps)) + speed small_fast_regenerated
                >? v_z (cam_position (camera small_fast_regenerated)))%num
               && needsUpdate ps)
        (particleSets small_fast_regenerated)
    = [false; true; true; false]
  ∧ map needsUpdate (particleSets small_fast_rendered) = [true; false; false; true]
  ∧ (∃ ps ps', particleSets small_fast_regenerated !! 1%nat = Some ps
       ∧ particleSets small_fast_rendered !! 1%nat = Some ps'
       ∧ Some (geometry (particles ps'))
         = map vertex <$> subsets (orbit small_fast_regenerated) !! mySubset ps
       ∧ myMaterial ps'
         = hsvToHsl_standard (hueValues small_fast_regenerated !! mySubset ps)
                             DEF_SATURATION DEF_BRIGHTNESS
       ∧ needsUpdate ps' = false
       ∧ v_z (position (particles ps')) = lit (-600)
       ∧ match geometry (particles ps), geometry (particles ps') with
         | v :: _, v' :: _ => PrimFloat.eqb (v_x v') (v_x v) = false
         | _, _ => False
         end)
  ∧ (∃ ps ps', particleSets small_fast_regenerated !! 0%nat = Some ps
       ∧ particleSets small_fast_rendered !! 0%nat = Some ps'
       ∧ geometry (particles ps') = geometry (particles ps)
       ∧ myMaterial ps' = myMaterial ps
       ∧ needsUpdate ps' = true
       ∧ v_z (position (particles ps')) = lit 160).
Proof.
  assert (updateOrbit example_random small_fast = Some small_fast_regenerated) as H1
    by (vm_compute; reflexivity).
  assert (render hsvToHsl_standard small_fast_regenerated = Some small_fast_rendered)
    as H2 by (vm_compute; reflexivity).
  destruct (C5_regeneration_is_deferred example_random hsvToHsl_standard
              small_fast small_fast_regenerated small_fast_regenerated
              small_fast_rendered H1 H2)
    as ((t & _ & _ & _ & Hhue & _ & Halloc) & Hdirty & _ & _ & _ & Hframe).
  split; [exact (conj H1 H2)|].
  split.
  { split.
    - destruct Halloc as [_ Hcalls]; [reflexivity|by repeat constructor|].
      rewrite Hhue, Hcalls. reflexivity.
    - split; [vm_compute; reflexivity|]. split; [exact Hdirty|].
      vm_compute. reflexivity. }
  split; [vm_compute; reflexivity|]. split; [vm_compute; reflexivity|].
  split.
  - destruct (Hframe 1%nat _ eq_refl) as (ps' & Hi' & _ & _ & Hcross & _ & Hz & _).
    destruct (Hcross eq_refl) as (Hg & Hm & Hn).
    eexists. exists ps'. split; [reflexivity|]. split; [exact Hi'|].
    split; [exact Hg|]. split; [exact Hm|]. split; [exact Hn|].
    split; [rewrite (Hz eq_refl); vm_compute; reflexivity|].
    injection Hg as ->. vm_compute. reflexivity.
  - destruct (Hframe 0%nat _ eq_refl) as (ps' & Hi' & _ & _ & _ & Hstay & _ & Hz).
    destruct (Hstay eq_refl) as (Hg & Hm & Hn).
    eexists. exists ps'. split; [reflexivity|]. split; [exact Hi'|].
    split; [exact Hg|]. split; [exact Hm|]. split; [exact Hn|].
    rewrite (Hz eq_refl). vm_compute. reflexivity.
Defined.

(** At the default speed of 8 no set of the small object passes the camera
    in the frame after a regeneration: all four stay dirty and keep the
    geometry they show. *)
Example small_frame_defers :
  updateOrbit example_random small_state = Some small_regenerated
  ∧ render hsvToHsl_standard small_regenerated = Some small_rendered
  ∧ map needsUpdate (particleSets small_rendered) = [true; true; true; true]
  ∧ map (λ ps, geometry (particles ps)) (particleSets small_rendered)
    = map (λ ps, geometry (particles ps)) (particleSets small_state).
Proof. repeat split; vm_compute; reflexivity. Qed.

Lemma C7_witness :
  applySettings example_random hsvToHsl_standard rotation_and_levels_zero small_state
  = Some small_zeroed
  ∧ numLevels small_zeroed = numLevels small_state
  ∧ rotationSpeed small_zeroed = lit 0.
Proof.
  assert (applySettings example_random hsvToHsl_standard rotation_and_levels_zero
            small_state = Some small_zeroed) as H1 by (vm_compute; reflexivity).
  destruct (C7_zero_counts_are_ignored example_random hsvToHsl_standard
              rotation_and_levels_zero small_state small_zeroed H1)
    as (HL & _ & _ & HR & _).
  split; [exact H1|]. split.
  - apply HL. right. reflexivity.
  - apply HR. reflexivity.
Defined.

(** C7, the sentence as written fails: the small object turns at 0.005, and
    after [applySettings({rotationSpeed: 0})] it turns at 0. *)
Lemma C7_counterexample :
  rotationSpeed small_state = lit 0.005
  ∧ truthy (rotationSpeed small_state) = true
  ∧ rotationSpeed
      <$> applySettings example_random hsvToHsl_standard rotation_zero small_state
    = Some (lit 0)
  ∧ speed
      <$> applySettings example_random hsvToHsl_standard
            {| p_speed := Some (lit 0); p_rotationSpeed := None; p_cameraFov := None;
               p_pointsPerSubset := None; p_subsetCount := None;
               p_levelCount := None; p_mouseLocked := None |} small_state
    = Some (lit 0).
Proof. repeat split; vm_compute; reflexivity. Qed.

Lemma C8_witness :
  setLevelSubsetCount example_random hsvToHsl_standard three_levels small_state
  = Some small_three_levels
  ∧ (∃ created,
       map shown (particleSets small_three_levels)
       = map shown (filter (λ ps, in_range small_three_levels ps)
                           (particleSets small_state))
         ++ map shown created)
  ∧ reconcile hsvToHsl_standard small_three_levels = Some small_three_levels
  ∧ ∃ st2, setLevelSubsetCount example_random hsvToHsl_standard three_levels
             small_three_levels = Some st2
      ∧ scene st2 = scene small_three_levels
      ∧ allocated st2 = allocated small_three_levels
      ∧ effects st2 = effects small_three_levels ++ [SettingsUpdate (getSettings st2)]
      ∧ map shown (particleSets st2) = map shown (particleSets small_three_levels).
Proof.
  assert (setLevelSubsetCount example_random hsvToHsl_standard three_levels small_state
          = Some small_three_levels) as H1 by (vm_compute; reflexivity).
  exact (conj H1
    (C8_reconcile_idempotent example_random hsvToHsl_standard three_levels
       small_state small_three_levels H1)).
Defined.

(** * Further properties *)

(** Counts are whole numbers and lists have no length limit, as in the
    model of [initOrbit] and [generateHues]: the bound of 2^32 - 1 on the
    length of a JavaScript array is not modelled, so the statements below
    that a call returns are about counts below it. *)

(** ** The keys of the registry *)

Section Keys.

Lemma pretty_N_go_dashless (x : N) :
  ∀ s, dashless s → dashless (pretty_N_go x s).
Proof.
  induction (N.lt_wf_0 x) as [x _ IH]. intros s Hs.
  assert (x = 0 ∨ 0 < x)%N as [->|Hpos] by lia.
  - by rewrite pretty_N_go_0.
  - rewrite pretty_N_go_step by done. apply IH; [by apply N.div_lt|].
    split; [|exact Hs].
    unfold pretty_N_char. by repeat case_match.
Qed.

Lemma pretty_nat_dashless (n : nat) : dashless (pretty n).
Proof.
  unfold pretty, pretty_nat, pretty, pretty_N.
  case_decide.
  - by repeat split.
  - by apply pretty_N_go_dashless.
Qed.

(** A dash-free prefix before a dash is determined by the whole string. *)
Lemma split_at_dash (s1 : string) :
  ∀ s2 t1 t2, dashless s1 → dashless s2 →
    s1 +:+ "-" +:+ t1 = s2 +:+ "-" +:+ t2 → s1 = s2 ∧ t1 = t2.
Proof.
  induction s1 as [|c s1 IH]; intros [|d s2] t1 t2 H1 H2 Heq; simpl in Heq.
  - by simplify_eq.
  - injection Heq as <- _. by destruct H2.
  - injection Heq as -> _. by destruct H1.
  - injection Heq as -> Heq. destruct H1 as [_ H1]. destruct H2 as [_ H2].
    destruct (IH s2 t1 t2) as [-> ->]; done.
Qed.

Lemma key_inj (k s k' s' : nat) : key k s = key k' s' → k = k' ∧ s = s'.
Proof.
  unfold key. intros Heq.
  apply split_at_dash in Heq as [Hk Hs]; try apply pretty_nat_dashless.
  split; by apply (inj pretty).
Qed.

(** X1: the template-string keys of [setLevelSubsetCount] do not collide:
    two (level, subset) pairs have the same key exactly when they are the
    same pair. *)
Theorem key_collision_free (k s k' s' : nat) :
  key k s = key k' s' ↔ k = k' ∧ s = s'.
Proof.
  split; [apply key_inj|]. by intros [-> ->].
Qed.

End Keys.

(** ** The registry of particle sets and the scene *)

Section RegistryInvariants.
Context {num : Type} `{!JsNumber num}.
Local Open Scope num_scope.
Variable random : nat → num.
Variable hsvToHsl : option num → num → num → num * num * num.

(** A loop whose body returns under an invariant returns. *)
Lemma for_each_seq_total {St : Type} (I : nat → St → Prop)
    (body : nat → St → option St) (n : nat) (s0 : St) :
  I O s0 →
  (∀ k s, (k < n)%nat → I k s → ∃ t, body k s = Some t ∧ I (S k) t) →
  ∃ s', for_each (seq 0 n) body s0 = Some s' ∧ I n s'.
Proof.
  intros H0 Hstep.
  cut (∀ m i s, (i + m ≤ n)%nat → I i s →
         ∃ s', for_each (seq i m) body s = Some s' ∧ I (i + m)%nat s').
  { intros Hcut. apply (Hcut n O s0); [lia|done]. }
  induction m as [|m IH]; intros i s Hle Hi.
  - exists s. rewrite Nat.add_0_r. done.
  - destruct (Hstep i s) as (t & Hb & Ht); [lia|done|].
    destruct (IH (S i) t) as (s' & Hrun & Hs'); [lia|done|].
    exists s'. split.
    + cbn [seq for_each]. rewrite Hb, bind_Some_eq. exact Hrun.
    + by replace (i + S m)%nat with (S i + m)%nat by lia.
Qed.

(** The creation loops return when the orbit holds a subset for every
    subset index in range. *)
Lemma create_missing_returns (exists_ : gset string) (st0 : Hopalong num) :
  (Z.to_nat (numSubsets st0) ≤ length (subsets (orbit st0)))%nat →
  ∃ st1, create_missing hsvToHsl exists_ st0 = Some st1.
Proof.
  intros Hlen. unfold create_missing, upto.
  destruct (for_each_seq_total (λ _ t, orbit t = orbit st0)
              (λ k, for_each (seq 0 (Z.to_nat (numSubsets st0)))
                      (λ s st, if bool_decide (key k s ∈ exists_) then Some st
                               else generateParticleSet hsvToHsl k s st))
              (Z.to_nat (numLevels st0)) st0) as (st1 & Hrun & _); [done| |by exists st1].
  intros k t _ Ht.
  apply (for_each_seq_total (λ _ u, orbit u = orbit st0)); [done|].
  intros j u Hj Hu. case_bool_decide.
  - by exists u.
  - destruct (lookup_lt_is_Some_2 (subsets (orbit u)) j) as [cur Hcur];
      [rewrite Hu; lia|].
    unfold generateParticleSet at 1. rewrite Hcur, bind_Some_eq.
    eexists. split; [reflexivity|]. exact Hu.
Qed.

(** The creation loops never track a pair twice. *)
Lemma create_missing_NoDup (exists_ : gset string) (st0 st1 : Hopalong num) :
  NoDup (map level_subset (particleSets st0)) →
  (∀ ps, ps ∈ particleSets st0 → key (myLevel ps) (mySubset ps) ∈ exists_) →
  create_missing hsvToHsl exists_ st0 = Some st1 →
  NoDup (map level_subset (particleSets st1)).
Proof.
  intros Hnd Hex Hrun. unfold create_missing, upto in Hrun.
  pose (J := λ (k j : nat) (t : Hopalong num),
          NoDup (map level_subset (particleSets t))
          ∧ ∀ ps, ps ∈ particleSets t →
              key (myLevel ps) (mySubset ps) ∈ exists_
              ∨ (myLevel ps < k)%nat ∨ (myLevel ps = k ∧ (mySubset ps < j)%nat)).
  cut (J (Z.to_nat (numLevels st0)) O st1); [by intros [? _]|].
  revert Hrun. apply (for_each_seq_inv (λ k t, J k O t)).
  { split; [done|]. intros ps Hps. left. by apply Hex. }
  intros k t t' _ Ht Hrow.
  assert (J k (Z.to_nat (numSubsets st0)) t') as [Hnd' Hvis].
  { revert Hrow. apply (for_each_seq_inv (λ j u, J k j u)); [exact Ht|].
    intros j u u' _ [Hndu Hu] Hbody. case_bool_decide as Hkey.
    - injection Hbody as <-. split; [done|].
      intros ps Hps. destruct (Hu ps Hps) as [?|[?|[? ?]]]; auto with lia.
    - destruct (generateParticleSet_effect hsvToHsl k j u u' Hbody)
        as ((ps & Hps & Hlv & Hsb & _) & _).
      split.
      + rewrite Hps, map_app. apply NoDup_app. split; [done|]. split.
        * intros ks Hin Hin'. cbn in Hin'. apply list_elem_of_singleton in Hin'.
          apply list_elem_of_fmap in Hin as (ps0 & Heq & Hps0).
          rewrite Hin' in Heq. unfold level_subset in Heq. injection Heq as Hl Hs.
          rewrite Hlv in Hl. rewrite Hsb in Hs.
          destruct (Hu ps0 Hps0) as [Hk|[?|[? ?]]]; [|lia|lia].
          apply Hkey. by rewrite Hl, Hs.
        * cbn. apply NoDup_singleton.
      + intros ps' Hin. rewrite Hps in Hin. apply elem_of_app in Hin as [Hin|Hin].
        * destruct (Hu ps' Hin) as [?|[?|[? ?]]]; auto with lia.
        * apply list_elem_of_singleton in Hin as ->. right. right. lia. }
  split; [done|]. intros ps Hps.
  destruct (Hvis ps Hps) as [?|[?|[? ?]]]; auto with lia.
Qed.

Lemma filter_ext_elem {A : Type} (P Q : A → Prop)
    `{!∀ x, Decision (P x)} `{!∀ x, Decision (Q x)} (l : list A) :
  (∀ x, x ∈ l → P x ↔ Q x) → filter P l = filter Q l.
Proof.
  induction l as [|x l IH]; intros Hext; [done|].
  rewrite !filter_cons.
  rewrite IH by (intros y Hy; apply Hext; by right).
  destruct (decide (P x)) as [HP|HP], (decide (Q x)) as [HQ|HQ]; try done.
  - exfalso. apply HQ, (Hext x); [by left|done].
  - exfalso. apply HP, (Hext x); [by left|done].
Qed.

(** [scene.remove] of several objects filters the children. *)
Lemma remove_all_scene (ds : list nat) :
  ∀ st : Hopalong num,
    scene (remove_all ds st) = filter (λ d, d ∉ ds) (scene st).
Proof.
  induction ds as [|d ds IH]; intros st.
  - cbn. induction (scene st) as [|d l IH]; [done|].
    rewrite filter_cons, decide_True by apply not_elem_of_nil. by rewrite <- IH.
  - change (remove_all (d :: ds) st) with (remove_all ds (scene_remove d st)).
    rewrite IH. cbn [scene scene_remove emit set_effects set_scene].
    rewrite list_filter_filter. apply list_filter_iff. intros d'.
    rewrite not_elem_of_cons. tauto.
Qed.

(** Removing the drawables of the stale sets from the drawables of all
    leaves the drawables of the sets in range. *)
Lemma drawables_without_stale (st : Hopalong num) (l : list (ParticleSet num)) :
  NoDup (drawables l) →
  filter (λ d, d ∉ drawables (stale st l)) (drawables l)
  = drawables (filter (λ ps, in_range st ps) l).
Proof.
  unfold drawables, stale. induction l as [|ps l IH]; [done|].
  cbn [map]. intros Hnd. apply NoDup_cons in Hnd as [Hnew Hnd].
  rewrite !(filter_cons _ ps). destruct (in_range st ps) eqn:Hin; cbn [negb].
  - rewrite decide_False by (intros H1; exact H1).
    rewrite decide_True by exact I.
    rewrite filter_cons, decide_True.
    + cbn [map]. f_equal. by apply IH.
    + intros Hd. apply Hnew.
      apply list_elem_of_fmap in Hd as (ps' & -> & Hps').
      apply list_elem_of_filter in Hps' as [_ Hps'].
      by apply (list_elem_of_fmap_2 (λ ps, drawable (particles ps))).
  - rewrite decide_True by exact I.
    rewrite decide_False by (intros H1; exact H1).
    cbn [map]. rewrite filter_cons, decide_False.
    + rewrite <- IH by done. apply filter_ext_elem.
      intros d Hd. rewrite not_elem_of_cons.
      split; [tauto|]. intros Hd'. split; [|done]. by intros ->.
    + intros Hd. apply Hd. by left.
Qed.

Lemma NoDup_pairs (levels subsets' : nat) : NoDup (pairs levels subsets').
Proof.
  unfold pairs. generalize 0%nat at 2. induction levels as [|n IH]; intros k0.
  - constructor.
  - cbn [seq flat_map]. apply NoDup_app. split; [|split].
    + apply NoDup_fmap_2; [by intros s s' [= ->]|]. apply NoDup_seq.
    + intros ks Hin Hin'.
      apply list_elem_of_fmap in Hin as (s & -> & _).
      apply list_elem_of_In, in_flat_map in Hin' as (k' & Hk' & Hin').
      apply in_map_iff in Hin' as (s' & [= <- _] & _).
      apply in_seq in Hk'. lia.
    + apply IH.
Qed.

Lemma length_pairs (levels subsets' : nat) :
  length (pairs levels subsets') = (levels * subsets')%nat.
Proof.
  unfold pairs. generalize 0%nat at 2. induction levels as [|n IH]; intros k0; [done|].
  cbn [seq flat_map]. rewrite length_app, length_map, length_seq, IH. lia.
Qed.

(** The creation loops keep the scene and the registry in step. *)
Lemma create_missing_scene (exists_ : gset string) (st0 st1 : Hopalong num) :
  scene_tracks st0 →
  create_missing hsvToHsl exists_ st0 = Some st1 →
  scene_tracks st1.
Proof.
  intros H0. unfold create_missing, upto.
  apply (for_each_seq_inv (λ _ t, scene_tracks t)); [done|].
  intros k t t' _ Ht.
  apply (for_each_seq_inv (λ _ u, scene_tracks u)); [done|].
  intros j u u' _ (Hsc & Hnd & Hlt) Hbody. case_bool_decide.
  - by injection Hbody as <-.
  - destruct (generateParticleSet_effect hsvToHsl k j u u' Hbody)
      as ((ps & Hps & _ & _ & Hd) & _ & Hsc' & Hal & _).
    repeat split.
    + rewrite Hsc', Hps, Hsc. unfold drawables. rewrite map_app. cbn. by rewrite Hd.
    + rewrite Hsc'. apply NoDup_app. split; [done|]. split; [|apply NoDup_singleton].
      intros d Hin Hin'. apply list_elem_of_singleton in Hin' as ->.
      rewrite Forall_forall in Hlt. specialize (Hlt _ Hin). lia.
    + rewrite Hsc', Hal. apply Forall_app. split.
      * eapply Forall_impl; [exact Hlt|]. intros d Hd'. cbn in Hd'. lia.
      * constructor; [lia|constructor].
Qed.

Lemma reconcile_scene (st st1 : Hopalong num) :
  scene_tracks st → reconcile hsvToHsl st = Some st1 → scene_tracks st1.
Proof.
  intros (Hsc & Hnd & Hlt). rewrite reconcile_unfold.
  apply create_missing_scene.
  destruct (remove_all_effects (drawables (stale st (particleSets st))) st)
    as (_ & _ & _ & _ & _ & _ & _ & Hal).
  unfold scene_tracks.
  cbn [scene particleSets allocated set_particleSets].
  rewrite remove_all_scene, Hal, Hsc.
  rewrite drawables_without_stale by (by rewrite <- Hsc).
  split; [done|]. rewrite <- drawables_without_stale by (by rewrite <- Hsc).
  rewrite <- Hsc. split; [by apply NoDup_filter|].
  apply Forall_forall. intros d [_ Hd]%list_elem_of_filter.
  by apply (proj1 (Forall_forall _ _) Hlt).
Qed.

Lemma reconcile_NoDup (st st1 : Hopalong num) :
  NoDup (map level_subset (particleSets st)) →
  reconcile hsvToHsl st = Some st1 →
  NoDup (map level_subset (particleSets st1)).
Proof.
  intros Hnd. rewrite reconcile_unfold. apply create_missing_NoDup.
  - cbn [particleSets set_particleSets].
    rewrite (proj1 (level_subset_filter st (particleSets st))). by apply NoDup_filter.
  - cbn [particleSets set_particleSets]. intros ps Hps.
    apply elem_of_union. left. apply elem_of_keys_of. by exists ps.
Qed.

(** With no pair tracked twice, what reconciliation establishes is one
    particle set per pair in range. *)
Lemma reconciled_one_per_pair (st : Hopalong num) :
  reconciled st → NoDup (map level_subset (particleSets st)) → one_per_pair st.
Proof.
  intros [Hin Hcov] Hnd. apply NoDup_Permutation; [done|apply NoDup_pairs|].
  intros [k s]. rewrite elem_of_pairs. split.
  - intros Hks. apply list_elem_of_fmap in Hks as (ps & Heq & Hps).
    rewrite Forall_forall in Hin. specialize (Hin ps Hps).
    apply in_range_true in Hin. unfold level_subset in Heq. injection Heq as -> ->. lia.
  - intros [Hk Hs].
    destruct (proj1 (elem_of_keys_of (key k s) (particleSets st))) as (ps & Hps & Heq).
    { apply Hcov; lia. }
    apply key_inj in Heq as [-> ->].
    by apply (list_elem_of_fmap_2 level_subset).
Qed.

Lemma one_per_pair_NoDup (st : Hopalong num) :
  one_per_pair st → NoDup (map level_subset (particleSets st)).
Proof. intros Hp. unfold one_per_pair in Hp. rewrite Hp. apply NoDup_pairs. Qed.

Lemma setLevelSubsetCount_one_per_pair
    (p : PartialSimSettings num) (st st1 : Hopalong num) :
  NoDup (map level_subset (particleSets st)) →
  setLevelSubsetCount random hsvToHsl p st = Some st1 →
  one_per_pair st1.
Proof.
  intros Hnd (st_b & st_c & Hb & Hc & ->)%setLevelSubsetCount_inv.
  assert (NoDup (map level_subset (particleSets st_b))) as Hnd_b.
  { destruct (regenerates p).
    - apply updateOrbit_frame in Hb as (-> & _). by rewrite level_subset_dirty.
    - by injection Hb as <-. }
  pose proof (reconcile_NoDup _ _ Hnd_b Hc) as Hnd_c.
  apply reconcile_establishes in Hc as (Hrec & _).
  apply reconciled_one_per_pair.
  - by apply (reconciled_frame st_c).
  - exact Hnd_c.
Qed.

Lemma setLevelSubsetCount_scene
    (p : PartialSimSettings num) (st st1 : Hopalong num) :
  scene_tracks st →
  setLevelSubsetCount random hsvToHsl p st = Some st1 →
  scene_tracks st1.
Proof.
  intros Hsc (st_b & st_c & Hb & Hc & ->)%setLevelSubsetCount_inv.
  assert (scene_tracks st_b) as Hsc_b.
  { destruct (regenerates p).
    - apply updateOrbit_frame in Hb as (Hps & Hscn & _ & Hal & _).
      unfold scene_tracks. rewrite Hps, Hscn, Hal, drawables_dirty. exact Hsc.
    - by injection Hb as <-. }
  exact (reconcile_scene _ _ Hsc_b Hc).
Qed.

Lemma setLevelSubsetCount_allocated
    (p : PartialSimSettings num) (st st1 : Hopalong num) :
  (regenerates p = false → allocated_for st) →
  setLevelSubsetCount random hsvToHsl p st = Some st1 →
  allocated_for st1.
Proof.
  intros Hal (st_b & st_c & Hb & Hc & ->)%setLevelSubsetCount_inv.
  apply reconcile_establishes in Hc as (_ & Hctl & Horb & _).
  apply controls_counts in Hctl as (_ & HS & HN).
  unfold allocated_for.
  change (orbit (fireSettingsChange st_c)) with (orbit st_c).
  change (numSubsets (fireSettingsChange st_c)) with (numSubsets st_c).
  change (numPointsSubset (fireSettingsChange st_c)) with (numPointsSubset st_c).
  rewrite Horb, HS, HN.
  destruct (regenerates p) eqn:Hreg.
  - pose proof (updateOrbit_nonneg random _ _ Hb) as Hpos.
    change (numSubsets (initOrbit _ _ (assign_counts p st)))
      with (numSubsets (assign_counts p st)) in Hpos.
    destruct (updateOrbit_initOrbit random (assign_counts p st) Hpos)
      as (t & Ht & Hlen & Hall & _).
    rewrite Hb in Ht. injection Ht as <-.
    apply updateOrbit_frame in Hb as (_ & _ & _ & _ & Hctl).
    apply controls_counts in Hctl as (_ & HS' & HN').
    change (numSubsets (initOrbit _ _ (assign_counts p st)))
      with (numSubsets (assign_counts p st)) in HS'.
    change (numPointsSubset (initOrbit _ _ (assign_counts p st)))
      with (numPointsSubset (assign_counts p st)) in HN'.
    by rewrite HS', HN'.
  - injection Hb as <-. destruct (Hal eq_refl) as [Hlen Hall].
    unfold regenerates in Hreg. apply orb_false_iff in Hreg as [H1 H2].
    apply bool_decide_eq_false in H1. apply bool_decide_eq_false in H2.
    destruct (assign_counts_fields p st) as (_ & HS' & HN' & _).
    destruct (p_subsetCount p); [by destruct H1|].
    destruct (p_pointsPerSubset p); [by destruct H2|].
    cbn [or_prior] in HS', HN'.
    change (orbit (assign_counts p st)) with (orbit st). by rewrite HS', HN'.
Qed.

Lemma setLevelSubsetCount_returns (p : PartialSimSettings num) (st : Hopalong num) :
  (regenerates p = true → (0 ≤ or_prior (p_subsetCount p) (numSubsets st))%Z) →
  (regenerates p = false →
     (Z.to_nat (numSubsets st) ≤ length (subsets (orbit st)))%nat) →
  ∃ st1, setLevelSubsetCount random hsvToHsl p st = Some st1.
Proof.
  intros Hpos Hlen. rewrite setLevelSubsetCount_unfold.
  destruct (assign_counts_fields p st) as (_ & HS' & _).
  assert (∃ st_b,
            (if regenerates p
             then updateOrbit random
                    (initOrbit (numSubsets (assign_counts p st))
                       (numPointsSubset (assign_counts p st)) (assign_counts p st))
             else Some (assign_counts p st)) = Some st_b
            ∧ (Z.to_nat (numSubsets st_b) ≤ length (subsets (orbit st_b)))%nat)
    as (st_b & -> & Hb).
  { destruct (regenerates p) eqn:Hreg.
    - destruct (updateOrbit_initOrbit random (assign_counts p st))
        as (t & Ht & Hl & _); [rewrite HS'; by apply Hpos|].
      exists t. split; [done|].
      apply updateOrbit_frame in Ht as (_ & _ & _ & _ & Hctl).
      apply controls_counts in Hctl as (_ & -> & _).
      change (numSubsets (initOrbit _ _ (assign_counts p st)))
        with (numSubsets (assign_counts p st)). lia.
    - exists (assign_counts p st). split; [done|].
      unfold regenerates in Hreg. apply orb_false_iff in Hreg as [H1 _].
      apply bool_decide_eq_false in H1.
      destruct (p_subsetCount p); [by destruct H1|]. cbn [or_prior] in HS'.
      rewrite HS'. change (orbit (assign_counts p st)) with (orbit st).
      by apply Hlen. }
  rewrite bind_Some_eq, reconcile_unfold.
  destruct (create_missing_returns
              (keys_of (filter (λ ps, in_range st_b ps) (particleSets st_b)) ∪ ∅)
              (set_particleSets (filter (λ ps, in_range st_b ps) (particleSets st_b))
                 (remove_all (drawables (stale st_b (particleSets st_b))) st_b)))
    as (st_c & ->).
  { destruct (remove_all_effects (drawables (stale st_b (particleSets st_b))) st_b)
      as (_ & _ & Hctl & Horb & _).
    apply controls_counts in Hctl as (_ & HS & _).
    cbn [orbit numSubsets set_particleSets]. by rewrite Horb, HS. }
  rewrite bind_Some_eq. by eexists.
Qed.

End RegistryInvariants.

Section RegistryProperties.
Context {num : Type} `{!JsNumber num}.
Local Open Scope num_scope.
Variable random : nat → num.
Variable hsvToHsl : option num → num → num → num * num * num.

(** X2: when no (level, subset) pair is tracked twice, a call of
    [setLevelSubsetCount] that returns leaves exactly one tracked particle
    set for every pair with level < numLevels and subset < numSubsets and
    none for any other pair, numLevels * numSubsets sets in all. *)
Theorem setLevelSubsetCount_one_set_per_pair
    (p : PartialSimSettings num) (st st1 : Hopalong num) :
  NoDup (map level_subset (particleSets st)) →
  setLevelSubsetCount random hsvToHsl p st = Some st1 →
  map level_subset (particleSets st1)
    ≡ₚ pairs (Z.to_nat (numLevels st1)) (Z.to_nat (numSubsets st1))
  ∧ NoDup (map level_subset (particleSets st1))
  ∧ length (particleSets st1)
    = (Z.to_nat (numLevels st1) * Z.to_nat (numSubsets st1))%nat
  ∧ numLevels st1 = or_prior (p_levelCount p) (numLevels st)
  ∧ numSubsets st1 = or_prior (p_subsetCount p) (numSubsets st).
Proof.
  intros Hnd Hrun.
  pose proof (setLevelSubsetCount_one_per_pair random hsvToHsl p st st1 Hnd Hrun) as Hp.
  split; [exact Hp|]. split; [by apply one_per_pair_NoDup|]. split.
  - rewrite <- (length_map level_subset), Hp. apply length_pairs.
  - apply setLevelSubsetCount_controls, controls_counts in Hrun as (-> & -> & _).
    destruct (assign_counts_fields p st) as (-> & -> & _). done.
Qed.

(** X3: [setLevelSubsetCount] keeps the scene and the registry in step: if
    the children of the scene are the drawables of the tracked particle
    sets, each once, they still are after a call that returns.  No removed
    set stays in the scene and no tracked set is missing from it. *)
Theorem setLevelSubsetCount_scene_follows_registry
    (p : PartialSimSettings num) (st st1 : Hopalong num) :
  scene st = drawables (particleSets st) →
  NoDup (scene st) →
  Forall (λ d, (d < allocated st)%nat) (scene st) →
  setLevelSubsetCount random hsvToHsl p st = Some st1 →
  scene st1 = drawables (particleSets st1)
  ∧ NoDup (scene st1)
  ∧ Forall (λ d, (d < allocated st1)%nat) (scene st1).
Proof.
  intros H1 H2 H3 Hrun.
  exact (setLevelSubsetCount_scene random hsvToHsl p st st1 (conj H1 (conj H2 H3)) Hrun).
Qed.

(** X4: on an object whose orbit is allocated for its counts (numSubsets
    subsets of numPointsSubset points, numSubsets not negative),
    [setLevelSubsetCount] returns for every request whose subsetCount is
    not negative, and the orbit is again allocated for the new counts. *)
Theorem setLevelSubsetCount_returns_when_allocated
    (p : PartialSimSettings num) (st : Hopalong num) :
  length (subsets (orbit st)) = Z.to_nat (numSubsets st) →
  Forall (λ cur, length cur = Z.to_nat (numPointsSubset st)) (subsets (orbit st)) →
  (0 ≤ numSubsets st)%Z →
  (∀ n, p_subsetCount p = Some n → (0 ≤ n)%Z) →
  ∃ st1, setLevelSubsetCount random hsvToHsl p st = Some st1
    ∧ length (subsets (orbit st1)) = Z.to_nat (numSubsets st1)
    ∧ Forall (λ cur, length cur = Z.to_nat (numPointsSubset st1)) (subsets (orbit st1)).
Proof.
  intros Hlen Hall Hpos Hreq.
  destruct (setLevelSubsetCount_returns random hsvToHsl p st) as [st1 Hrun].
  - intros _. destruct (p_subsetCount p) as [n|]; cbn [or_prior]; [|done].
    specialize (Hreq n eq_refl). by destruct (n =? 0)%Z.
  - intros _. by rewrite Hlen.
  - exists st1. split; [done|].
    by apply (setLevelSubsetCount_allocated random hsvToHsl p st st1).
Qed.

(** X5: a request for a negative subset count throws: the counts are
    assigned, and the regeneration that follows asks [new Array] for a
    negative length.  The same request through [applySettings] throws as
    well. *)
Theorem negative_subsetCount_throws
    (p : PartialSimSettings num) (st : Hopalong num) (n : Z) :
  p_subsetCount p = Some n → (n < 0)%Z →
  setLevelSubsetCount random hsvToHsl p st = None
  ∧ applySettings random hsvToHsl p st = None.
Proof.
  intros Hp Hn.
  assert (∀ q t, p_subsetCount q = Some n →
            setLevelSubsetCount random hsvToHsl q t = None) as Hthrow.
  { intros q t Hq. rewrite setLevelSubsetCount_unfold.
    unfold regenerates. rewrite Hq. cbn [bool_decide orb].
    rewrite bool_decide_eq_true_2 by done. cbn [orb].
    destruct (updateOrbit random _) as [u|] eqn:Hu; [|by rewrite bind_None_eq].
    apply updateOrbit_nonneg in Hu.
    change (numSubsets (initOrbit _ _ (assign_counts q t)))
      with (numSubsets (assign_counts q t)) in Hu.
    destruct (assign_counts_fields q t) as (_ & HS & _).
    rewrite HS, Hq in Hu. cbn [or_prior] in Hu.
    destruct (n =? 0)%Z eqn:E; [apply Z.eqb_eq in E|]; lia. }
  split; [by apply Hthrow|].
  unfold applySettings. rewrite Hp.
  rewrite (bool_decide_eq_true_2 (Some n ≠ None)) by done.
  rewrite orb_true_r. cbn [orb]. by apply Hthrow.
Qed.

End RegistryProperties.

(** ** Regeneration and the frame step on an allocated orbit *)

Section FrameInvariants.
Context {num : Type} `{!JsNumber num}.
Local Open Scope num_scope.
Variable random : nat → num.
Variable hsvToHsl : option num → num → num → num * num * num.

Lemma updateOrbit_allocated (st : Hopalong num) :
  allocated_for st → (0 ≤ numSubsets st)%Z →
  ∃ t, updateOrbit random st = Some t
    ∧ allocated_for t
    ∧ length (hueValues t) = Z.to_nat (numSubsets st)
    ∧ randomCalls t = (6 + 3 * Z.to_nat (numSubsets st) + randomCalls st)%nat.
Proof.
  intros [Hlen Hall] Hpos. unfold updateOrbit.
  rewrite (generateOrbit_generated random _ _ st Hlen Hall) by done.
  rewrite bind_Some_eq.
  destruct (generated_shape random _ _ st Hlen Hall) as [Hlen' Hall'].
  destruct (generated_frame random (Z.to_nat (numSubsets st))
              (Z.to_nat (numPointsSubset st)) st) as [(_ & _ & _ & _ & Hctlg) Hrcg].
  apply controls_counts in Hctlg as (_ & HSg & HNg).
  remember (generated random (Z.to_nat (numSubsets st))
              (Z.to_nat (numPointsSubset st)) st) as g eqn:Eg.
  rewrite HSg.
  rewrite (proj2 (generateHues_spec random (numSubsets st) g _) (conj Hpos eq_refl)).
  rewrite bind_Some_eq. eexists. split; [reflexivity|].
  unfold allocated_for.
  cbn [orbit set_particleSets set_hueValues set_randomCalls hueValues randomCalls
       numSubsets numPointsSubset].
  rewrite HSg, HNg.
  split; [by split|]. split; [exact (proj2 (draw_spec random _ _))|]. rewrite Hrcg.
  generalize (Z.to_nat (numSubsets st)) (randomCalls st). clear. intros n r. lia.
Qed.

(** What a frame leaves alone, and the one call it makes. *)
Lemma render_frame (st st' : Hopalong num) :
  render hsvToHsl st = Some st' →
  map level_subset (particleSets st') = map level_subset (particleSets st)
  ∧ drawables (particleSets st') = drawables (particleSets st)
  ∧ scene st' = scene st ∧ allocated st' = allocated st
  ∧ orbit st' = orbit st ∧ hueValues st' = hueValues st
  ∧ numLevels st' = numLevels st ∧ numSubsets st' = numSubsets st
  ∧ numPointsSubset st' = numPointsSubset st
  ∧ effects st' = effects st ++ [RenderFrame].
Proof.
  unfold render. set (sc := set_camera _ st).
  destruct (mapM (advance hsvToHsl sc) (particleSets sc)) as [sets|] eqn:Hsets;
    [|discriminate].
  rewrite bind_Some_eq. intros [= <-]. apply mapM_Some in Hsets.
  change (particleSets sc) with (particleSets st) in Hsets.
  cbn [particleSets emit set_effects set_particleSets scene allocated orbit hueValues
       numLevels numSubsets numPointsSubset effects].
  assert (map level_subset sets = map level_subset (particleSets st)
          ∧ drawables sets = drawables (particleSets st)) as [-> ->]; [|done].
  unfold drawables. induction Hsets as [|ps ps' l l' Hadv _ [IH1 IH2]]; [done|].
  apply advance_spec in Hadv as (Hd & Hls & _).
  cbn [map]. by rewrite IH1, IH2, Hd, Hls.
Qed.

(** A frame returns when every dirty tracked set has its subset in the
    orbit. *)
Lemma render_returns (st : Hopalong num) :
  Forall (λ ps, needsUpdate ps = true → is_Some (subsets (orbit st) !! mySubset ps))
         (particleSets st) →
  ∃ st', render hsvToHsl st = Some st'.
Proof.
  intros Hall. unfold render. set (sc := set_camera _ st).
  destruct (mapM (advance hsvToHsl sc) (particleSets sc)) as [sets|] eqn:Hsets.
  { rewrite bind_Some_eq. by eexists. }
  exfalso. apply eq_None_not_Some in Hsets. apply Hsets, mapM_is_Some.
  change (particleSets sc) with (particleSets st).
  eapply Forall_impl; [exact Hall|]. intros ps Hps. cbv beta in Hps.
  unfold compose, advance.
  match goal with |- context [if ?c then _ else _] => destruct c end; [|done].
  destruct (needsUpdate ps); [|done].
  change (orbit sc) with (orbit st).
  destruct (Hps eq_refl) as [cur ->]. by rewrite bind_Some_eq.
Qed.

(** A frame moves the camera and the particle sets only. *)
Lemma render_settings (st st' : Hopalong num) :
  render hsvToHsl st = Some st' →
  speed st' = speed st ∧ rotationSpeed st' = rotationSpeed st
  ∧ mouseLocked st' = mouseLocked st ∧ fov (camera st') = fov (camera st)
  ∧ randomCalls st' = randomCalls st
  ∧ controllerConnected st' = controllerConnected st.
Proof.
  unfold render. set (sc := set_camera _ st).
  destruct (mapM (advance hsvToHsl sc) (particleSets sc)) as [sets|]; [|discriminate].
  rewrite bind_Some_eq. intros [= <-]. done.
Qed.

Lemma one_per_pair_in_range (st : Hopalong num) :
  one_per_pair st → Forall (λ ps, in_range st ps = true) (particleSets st).
Proof.
  intros Hp. apply Forall_forall. intros ps Hps. apply in_range_true.
  assert (level_subset ps ∈ pairs (Z.to_nat (numLevels st)) (Z.to_nat (numSubsets st)))
    as Hin.
  { unfold one_per_pair in Hp. rewrite <- Hp. by apply list_elem_of_fmap_2. }
  apply elem_of_pairs in Hin. lia.
Qed.

Lemma consistent_render_returns (st : Hopalong num) :
  allocated_for st → one_per_pair st → ∃ st', render hsvToHsl st = Some st'.
Proof.
  intros [Hlen _] Hp. apply render_returns.
  eapply Forall_impl; [exact (one_per_pair_in_range st Hp)|].
  intros ps Hin _. apply in_range_true in Hin as [_ Hs].
  apply lookup_lt_is_Some_2. rewrite Hlen. lia.
Qed.

End FrameInvariants.

(** ** Construction *)

Section Construction.
Context {num : Type} `{!JsNumber num}.
Local Open Scope num_scope.
Variable random : nat → num.
Variable hsvToHsl : option num → num → num → num * num * num.

Lemma pairs_S (levels subsets' : nat) :
  pairs (S levels) subsets'
  = pairs levels subsets' ++ map (λ s, (levels, s)) (seq 0 subsets').
Proof.
  unfold pairs. rewrite seq_S, flat_map_app. cbn. by rewrite app_nil_r.
Qed.

Lemma generateParticleSet_clean (k s : nat) (st t : Hopalong num) :
  generateParticleSet hsvToHsl k s st = Some t →
  ∃ ps, particleSets t = particleSets st ++ [ps]
        ∧ level_subset ps = (k, s) ∧ drawable (particles ps) = allocated st
        ∧ needsUpdate ps = false.
Proof.
  unfold generateParticleSet. destruct (subsets (orbit st) !! s) as [cur|]; [|done].
  rewrite bind_Some_eq. intros [= <-]. cbn. eauto.
Qed.

Lemma created_start (st0 : Hopalong num) (S' : nat) : created st0 S' 0 0 st0.
Proof.
  unfold created. cbn. rewrite !app_nil_r. by repeat split.
Qed.

Lemma created_row (st0 : Hopalong num) (S' k : nat) (t : Hopalong num) :
  created st0 S' k S' t → created st0 S' (S k) 0 t.
Proof.
  intros (Hls & Hd & Hsc & Hal & Hef & Hrest).
  unfold created. cbv zeta. rewrite pairs_S.
  replace (S k * S' + 0)%nat with (k * S' + S')%nat by lia.
  cbn [seq map]. rewrite app_nil_r.
  exact (conj Hls (conj Hd (conj Hsc (conj Hal (conj Hef Hrest))))).
Qed.

Lemma created_step (st0 : Hopalong num) (S' k j : nat) (u u' : Hopalong num) :
  created st0 S' k j u →
  generateParticleSet hsvToHsl k j u = Some u' →
  created st0 S' k (S j) u'.
Proof.
  intros (Hls & Hd & Hsc & Hal & Hef & Hcl & Hctl & Horb & Hhue & Hop & Hrc) Hgen.
  destruct (generateParticleSet_clean k j u u' Hgen) as (ps & Hps & Hks & Hdr & Hnu).
  destruct (generateParticleSet_effect hsvToHsl k j u u' Hgen)
    as (_ & Hef' & Hsc' & Hal' & Hctl' & Horb' & Hhue' & Hop' & Hrc').
  unfold created. cbv zeta.
  replace (k * S' + S j)%nat with (S (k * S' + j)) by lia.
  rewrite !seq_S, !map_app. cbn [map].
  rewrite Hps. unfold drawables in *. rewrite !map_app. cbn [map].
  rewrite Hls, Hd, Hks, Hdr, Hsc', Hsc, Hal', Hal, Hef', Hef, <- !app_assoc.
  repeat split; try congruence.
  - lia.
  - intros Hall. apply Forall_app. split; [by apply Hcl|]. by constructor.
Qed.

(** The creation loops of [init] return when the orbit holds a subset for
    every subset index in range. *)
Lemma create_all (st0 : Hopalong num) :
  (Z.to_nat (numSubsets st0) ≤ length (subsets (orbit st0)))%nat →
  ∃ st1,
    for_each (upto (numLevels st0))
      (λ k, for_each (upto (numSubsets st0)) (λ s, generateParticleSet hsvToHsl k s))
      st0 = Some st1
    ∧ created st0 (Z.to_nat (numSubsets st0)) (Z.to_nat (numLevels st0)) 0 st1.
Proof.
  intros Hlen. unfold upto.
  set (S' := Z.to_nat (numSubsets st0)) in *.
  apply (for_each_seq_total (λ k t, created st0 S' k 0 t)); [apply created_start|].
  intros k t _ Ht.
  destruct (for_each_seq_total (λ j u, created st0 S' k j u)
              (λ s, generateParticleSet hsvToHsl k s) S' t Ht) as (t' & Hrun & Ht').
  - intros j u Hj Hu.
    destruct (lookup_lt_is_Some_2 (subsets (orbit u)) j) as [cur Hcur].
    { destruct Hu as (_ & _ & _ & _ & _ & _ & _ & -> & _). lia. }
    assert (is_Some (generateParticleSet hsvToHsl k j u)) as [u' Hu'].
    { unfold generateParticleSet. rewrite Hcur, bind_Some_eq. by eexists. }
    exists u'. split; [done|]. by apply (created_step st0 S' k j u).
  - exists t'. split; [done|]. by apply created_row.
Qed.

Lemma controls_parts (st t : Hopalong num) :
  controls t = controls st →
  speed t = speed st ∧ rotationSpeed t = rotationSpeed st
  ∧ mouseLocked t = mouseLocked st
  ∧ numLevels t = numLevels st ∧ numSubsets t = numSubsets st
  ∧ numPointsSubset t = numPointsSubset st
  ∧ camera t = camera st ∧ destroyed t = destroyed st
  ∧ controllerConnected t = controllerConnected st.
Proof.
  unfold controls. intros [= -> -> _ _ -> -> -> -> -> _ _ -> ->]. done.
Qed.

(** The object as the constructor leaves it before [initOrbit]. *)
Lemma constructor_unfold (props : ConstructorProps num) :
  ∃ st_a,
    constructor random hsvToHsl props
    = (init random hsvToHsl (initOrbit (numSubsets st_a) (numPointsSubset st_a) st_a)
       ≫= λ st, animate hsvToHsl st ≫= λ st, Some (fireSettingsChange st))
    ∧ numLevels st_a = or_prior (p_levelCount (settings props)) DEFAULT_LEVELS
    ∧ numSubsets st_a = or_prior (p_subsetCount (settings props)) DEFAULT_SUBSETS
    ∧ numPointsSubset st_a
      = or_prior (p_pointsPerSubset (settings props)) DEFAULT_POINTS_SUBSET
    ∧ speed st_a = or_default (p_speed (settings props)) DEFAULT_SPEED
    ∧ rotationSpeed st_a
      = or_default (p_rotationSpeed (settings props)) DEFAULT_ROTATION_SPEED
    ∧ mouseLocked st_a = default false (p_mouseLocked (settings props))
    ∧ particleSets st_a = [] ∧ allocated st_a = 0%nat ∧ effects st_a = []
    ∧ randomCalls st_a = 0%nat ∧ destroyed st_a = false
    ∧ controllerConnected st_a = false.
Proof. eexists. split; [reflexivity|]. by repeat split. Qed.

Lemma init_spec (st : Hopalong num) :
  particleSets st = [] → allocated st = 0%nat →
  let L := Z.to_nat (numLevels st) in
  let S' := Z.to_nat (numSubsets st) in
  ((0 ≤ numSubsets st)%Z →
   ∃ st1,
     init random hsvToHsl (initOrbit (numSubsets st) (numPointsSubset st) st) = Some st1
     ∧ allocated_for st1
     ∧ length (hueValues st1) = S'
     ∧ map level_subset (particleSets st1) = pairs L S'
     ∧ drawables (particleSets st1) = seq 0 (L * S')
     ∧ scene st1 = seq 0 (L * S')
     ∧ allocated st1 = (L * S')%nat
     ∧ effects st1 = effects st ++ map SceneAdd (seq 0 (L * S'))
     ∧ Forall (λ ps, needsUpdate ps = false) (particleSets st1)
     ∧ randomCalls st1 = (6 + 3 * S' + randomCalls st)%nat
     ∧ numLevels st1 = numLevels st ∧ numSubsets st1 = numSubsets st
     ∧ numPointsSubset st1 = numPointsSubset st
     ∧ speed st1 = speed st ∧ rotationSpeed st1 = rotationSpeed st
     ∧ mouseLocked st1 = mouseLocked st ∧ destroyed st1 = destroyed st
     ∧ fov (camera st1) = DEFAULT_FOV
     ∧ controllerConnected st1 = controllerConnected st)
  ∧ ((numSubsets st < 0)%Z →
     init random hsvToHsl (initOrbit (numSubsets st) (numPointsSubset st) st) = None).
Proof.
  intros Hps Hal. cbv zeta.
  destruct (initOrbit_shape (numSubsets st) (numPointsSubset st) st) as [Hlen Hall].
  unfold init.
  set (st0 := initOrbit (numSubsets st) (numPointsSubset st) st) in *.
  set (cam := Build_Camera _ _).
  set (stc := set_scene [] (set_camera cam st0)).
  assert (numLevels stc = numLevels st ∧ numSubsets stc = numSubsets st
          ∧ numPointsSubset stc = numPointsSubset st
          ∧ orbit stc = orbit st0 ∧ particleSets stc = particleSets st
          ∧ scene stc = [] ∧ effects stc = effects st ∧ allocated stc = allocated st
          ∧ randomCalls stc = randomCalls st
          ∧ speed stc = speed st ∧ rotationSpeed stc = rotationSpeed st
          ∧ mouseLocked stc = mouseLocked st ∧ destroyed stc = destroyed st
          ∧ fov (camera stc) = DEFAULT_FOV
          ∧ controllerConnected stc = controllerConnected st)
    as (HLc & HSc & HNc & Horbc & Hpsc & Hscc & Hefc & Halc & Hrcc
        & Hspc & Hrsc & Hmlc & Hdec & Hfovc & Hccc) by (by repeat split).
  clearbody stc. rewrite <- Horbc in Hlen, Hall. clear Horbc. clearbody st0. clear st0.
  rewrite HSc, HNc.
  assert (generateOrbit random (numSubsets st) (numPointsSubset st) stc
          = Some (generated random (Z.to_nat (numSubsets st))
                    (Z.to_nat (numPointsSubset st)) stc)) as ->.
  { apply generateOrbit_generated; [done|done|by rewrite HSc]. }
  rewrite bind_Some_eq.
  destruct (generated_shape random (Z.to_nat (numSubsets st))
              (Z.to_nat (numPointsSubset st)) stc Hlen Hall) as [Hlen' Hall'].
  destruct (generated_frame random (Z.to_nat (numSubsets st))
              (Z.to_nat (numPointsSubset st)) stc)
    as [(Hpsg & Hscg & Hefg & Halg & Hctlg) Hrcg].
  set (g := generated random (Z.to_nat (numSubsets st))
              (Z.to_nat (numPointsSubset st)) stc) in *.
  clearbody g.
  destruct (controls_parts _ _ Hctlg)
    as (Hspg & Hrsg & Hmlg & HLg & HSg & HNg & Hcamg & Hdeg & Hccg).
  rewrite HSg, HSc. split.
  - intros Hpos.
    rewrite (proj2 (generateHues_spec random (numSubsets st) g _) (conj Hpos eq_refl)).
    rewrite bind_Some_eq.
    pose proof (proj2 (draw_spec random (Z.to_nat (numSubsets st)) g)) as Hhues.
    set (h := set_hueValues _ _).
    assert (controls h = controls g ∧ orbit h = orbit g
            ∧ particleSets h = particleSets g ∧ scene h = scene g
            ∧ effects h = effects g ∧ allocated h = allocated g
            ∧ hueValues h = (draw random (Z.to_nat (numSubsets st)) g).1
            ∧ randomCalls h = (Z.to_nat (numSubsets st) + randomCalls g)%nat)
      as (Hctlh & Horbh & Hpsh & Hsch & Hefh & Halh & Hhueh & Hrch)
      by (by repeat split).
    clearbody h.
    destruct (controls_parts _ _ Hctlh)
      as (Hsph & Hrsh & Hmlh & HLh & HSh & HNh & Hcamh & Hdeh & Hcch).
    destruct (create_all h) as (st1 & Hrun & Hcr).
    { rewrite Horbh, HSh, HSg, HSc, Hlen'. lia. }
    rewrite HLh, HSh, HLg, HSg, HLc, HSc in Hrun, Hcr. rewrite HLh, HLg, HLc, HSh.
    rewrite HSg, HSc, Hrun.
    exists st1. split; [done|].
    destruct Hcr as (Hls & Hd & Hsc & Hal1 & Hef & Hcl & Hctl & Horb & Hhue & _ & Hrc).
    destruct (controls_parts _ _ Hctl)
      as (Hsp1 & Hrs1 & Hml1 & HL1 & HS1 & HN1 & Hcam1 & Hde1 & Hcc1).
    rewrite Hpsh, Hpsg, Hpsc, Hps in Hls, Hd, Hcl.
    rewrite Hsch, Hscg, Hscc in Hsc.
    rewrite Halh, Halg, Halc, Hal in Hd, Hsc, Hal1, Hef.
    rewrite Hefh, Hefg, Hefc in Hef.
    cbn [map app drawables] in Hls, Hd, Hsc, Hal1.
    rewrite Nat.add_0_r in Hd, Hsc, Hal1, Hef.
    rewrite app_nil_r in Hls.
    split.
    { unfold allocated_for.
      rewrite Horb, Horbh, HS1, HSh, HSg, HSc, HN1, HNh, HNg, HNc. by split. }
    split; [by rewrite Hhue, Hhueh|].
    split; [exact Hls|]. split; [exact Hd|]. split; [exact Hsc|].
    split; [exact Hal1|]. split; [exact Hef|]. split; [by apply Hcl|].
    split; [rewrite Hrc, Hrch, Hrcg, Hrcc; lia|].
    split; [congruence|]. split; [congruence|]. split; [congruence|].
    split; [congruence|]. split; [congruence|]. split; [congruence|].
    split; [congruence|]. split; [congruence|]. congruence.
  - intros Hneg.
    destruct (generateHues random (numSubsets st) g) as [u|] eqn:Hu;
      [|by rewrite bind_None_eq].
    apply generateHues_spec in Hu as [Hpos _]. lia.
Qed.

Lemma constructor_spec (props : ConstructorProps num) :
  let L := or_prior (p_levelCount (settings props)) DEFAULT_LEVELS in
  let S' := or_prior (p_subsetCount (settings props)) DEFAULT_SUBSETS in
  let N := or_prior (p_pointsPerSubset (settings props)) DEFAULT_POINTS_SUBSET in
  let n := (Z.to_nat L * Z.to_nat S')%nat in
  ((0 ≤ S')%Z →
   ∃ st, constructor random hsvToHsl props = Some st
     ∧ numLevels st = L ∧ numSubsets st = S' ∧ numPointsSubset st = N
     ∧ allocated_for st
     ∧ length (hueValues st) = Z.to_nat S'
     ∧ map level_subset (particleSets st) = pairs (Z.to_nat L) (Z.to_nat S')
     ∧ drawables (particleSets st) = seq 0 n
     ∧ scene st = seq 0 n
     ∧ allocated st = n
     ∧ effects st
       = map SceneAdd (seq 0 n) ++ [RenderFrame; SettingsUpdate (getSettings st)]
     ∧ randomCalls st = (6 + 3 * Z.to_nat S')%nat
     ∧ speed st = or_default (p_speed (settings props)) DEFAULT_SPEED
     ∧ rotationSpeed st
       = or_default (p_rotationSpeed (settings props)) DEFAULT_ROTATION_SPEED
     ∧ mouseLocked st = default false (p_mouseLocked (settings props))
     ∧ fov (camera st) = DEFAULT_FOV
     ∧ controllerConnected st = false)
  ∧ ((S' < 0)%Z → constructor random hsvToHsl props = None).
Proof.
  cbv zeta.
  destruct (constructor_unfold props)
    as (st_a & -> & HL & HS & HN & Hsp & Hrs & Hml & Hps & Hal & Hef & Hrc & Hde & Hcc).
  rewrite <- HL, <- HS, <- HN, <- Hsp, <- Hrs, <- Hml.
  clear HL HS HN Hsp Hrs Hml.
  destruct (init_spec st_a Hps Hal) as [Hok Hthrow]. cbv zeta in Hok. split.
  - intros Hpos. destruct (Hok Hpos)
      as (st1 & -> & Hall & Hhue & Hls & Hd & Hsc & Hal1 & Hef1 & Hcl & Hrc1
          & HL1 & HS1 & HN1 & Hsp1 & Hrs1 & Hml1 & Hde1 & Hfov1 & Hcc1).
    rewrite bind_Some_eq. unfold animate. rewrite Hde1, Hde.
    destruct (render_returns hsvToHsl st1) as [st2 Hren].
    { eapply Forall_impl; [exact Hcl|]. intros ps -> [=]. }
    rewrite Hren, bind_Some_eq.
    pose proof (render_frame hsvToHsl st1 st2 Hren)
      as (Hls2 & Hd2 & Hsc2 & Hal2 & Horb2 & Hhue2 & HL2 & HS2 & HN2 & Hef2).
    pose proof (render_settings hsvToHsl st1 st2 Hren)
      as (Hsp2 & Hrs2 & Hml2 & Hfov2 & Hrc2 & Hcc2).
    eexists. split; [reflexivity|].
    cbn [numLevels numSubsets numPointsSubset fireSettingsChange emit set_effects
         hueValues particleSets scene allocated effects randomCalls speed rotationSpeed
         mouseLocked camera controllerConnected].
    unfold allocated_for.
    cbn [numSubsets numPointsSubset orbit fireSettingsChange emit set_effects].
    rewrite Hls2, Hd2, Hsc2, Hal2, Horb2, Hhue2, HL2, HS2, HN2, Hef2, Hsp2, Hrs2, Hml2,
      Hfov2, Hrc2, Hcc2.
    rewrite Hef1, Hef, Hrc1, Hrc, HL1, HS1, HN1, Hsp1, Hrs1, Hml1, Hfov1, Hcc1, Hcc.
    destruct Hall as [Hlen Hall]. rewrite HS1, HN1 in *.
    cbn [app]. rewrite <- app_assoc, Nat.add_0_r.
    repeat split; done.
  - intros Hneg. by rewrite (Hthrow Hneg), bind_None_eq.
Qed.

Lemma or_prior_nonzero (v : option Z) (prior : Z) : prior ≠ 0%Z → or_prior v prior ≠ 0%Z.
Proof.
  intros Hp. destruct v as [z|]; cbn; [|done].
  destruct (z =? 0)%Z eqn:E; [done|]. by apply Z.eqb_neq in E.
Qed.

Lemma constructor_returns_positive (props : ConstructorProps num) :
  is_Some (constructor random hsvToHsl props) →
  (1 ≤ or_prior (p_subsetCount (settings props)) DEFAULT_SUBSETS)%Z.
Proof.
  intros [st Hst].
  destruct (constructor_spec props) as [_ Hthrow]. cbv zeta in Hthrow.
  pose proof (or_prior_nonzero (p_subsetCount (settings props)) DEFAULT_SUBSETS) as Hnz.
  destruct (Z.lt_ge_cases
              (or_prior (p_subsetCount (settings props)) DEFAULT_SUBSETS) 0)
    as [Hneg|Hpos].
  - rewrite (Hthrow Hneg) in Hst. discriminate.
  - assert (DEFAULT_SUBSETS ≠ 0%Z) as H7 by done. specialize (Hnz H7). lia.
Qed.

(** X6: when the constructor returns, the orbit is allocated for the counts
    (numSubsets subsets of numPointsSubset points, one hue per subset), one
    particle set is tracked for each (level, subset) pair, in the order of
    the creation loops, the scene holds exactly their drawables, and the
    collaborators saw one [scene.add] per set, one rendered frame, then one
    settings notification.  The counts are the requested ones, with the
    defaults 7, 7 and 4000 for an absent or zero request. *)
Theorem constructor_builds_the_registry
    (props : ConstructorProps num) (st : Hopalong num) :
  constructor random hsvToHsl props = Some st →
  let L := or_prior (p_levelCount (settings props)) DEFAULT_LEVELS in
  let S' := or_prior (p_subsetCount (settings props)) DEFAULT_SUBSETS in
  let N := or_prior (p_pointsPerSubset (settings props)) DEFAULT_POINTS_SUBSET in
  let n := (Z.to_nat L * Z.to_nat S')%nat in
  numLevels st = L ∧ numSubsets st = S' ∧ numPointsSubset st = N
  ∧ length (subsets (orbit st)) = Z.to_nat S'
  ∧ Forall (λ cur, length cur = Z.to_nat N) (subsets (orbit st))
  ∧ length (hueValues st) = Z.to_nat S'
  ∧ map level_subset (particleSets st) = pairs (Z.to_nat L) (Z.to_nat S')
  ∧ drawables (particleSets st) = seq 0 n
  ∧ scene st = seq 0 n
  ∧ allocated st = n
  ∧ effects st = map SceneAdd (seq 0 n) ++ [RenderFrame; SettingsUpdate (getSettings st)]
  ∧ randomCalls st = (6 + 3 * Z.to_nat S')%nat.
Proof.
  intros Hrun. cbv zeta.
  destruct (constructor_spec props) as [Hok Hthrow]. cbv zeta in Hok, Hthrow.
  destruct (Z.lt_ge_cases
              (or_prior (p_subsetCount (settings props)) DEFAULT_SUBSETS) 0)
    as [Hneg|Hpos].
  { rewrite (Hthrow Hneg) in Hrun. discriminate. }
  destruct (Hok Hpos) as (st' & Hrun' & HL & HS & HN & [Hlen Hall] & Hhue & Hls & Hd
                          & Hsc & Hal & Hef & Hrc & _).
  rewrite Hrun in Hrun'. injection Hrun' as <-.
  rewrite HS, HN in *. done.
Qed.

(** X7: the constructor returns exactly when the subset count it settles on
    (the requested one, or 7 for an absent or zero request) is not
    negative; a negative one makes [generateHues] throw. *)
Theorem constructor_returns_iff (props : ConstructorProps num) :
  is_Some (constructor random hsvToHsl props)
  ↔ (0 ≤ or_prior (p_subsetCount (settings props)) DEFAULT_SUBSETS)%Z.
Proof.
  destruct (constructor_spec props) as [Hok Hthrow]. cbv zeta in Hok, Hthrow.
  split.
  - intros [st Hst].
    destruct (Z.lt_ge_cases
                (or_prior (p_subsetCount (settings props)) DEFAULT_SUBSETS) 0)
      as [Hneg|Hpos]; [|done].
    rewrite (Hthrow Hneg) in Hst. discriminate.
  - intros Hpos. destruct (Hok Hpos) as (st & -> & _). by eexists.
Qed.

(** X8: the constructor reads its settings with [||]: a speed or rotation
    speed that is absent or falsy (0, NaN) is replaced by 8 or 0.005, any
    other is taken; [mouseLocked] defaults to false; and the camera gets
    the default field of view of 60 whatever [cameraFov] asks for. *)
Theorem constructor_falls_back_on_falsy
    (props : ConstructorProps num) (st : Hopalong num) :
  constructor random hsvToHsl props = Some st →
  (∀ v, p_speed (settings props) = Some v →
        speed st = if truthy v then v else DEFAULT_SPEED)
  ∧ (p_speed (settings props) = None → speed st = DEFAULT_SPEED)
  ∧ (∀ v, p_rotationSpeed (settings props) = Some v →
          rotationSpeed st = if truthy v then v else DEFAULT_ROTATION_SPEED)
  ∧ (p_rotationSpeed (settings props) = None →
     rotationSpeed st = DEFAULT_ROTATION_SPEED)
  ∧ mouseLocked st = default false (p_mouseLocked (settings props))
  ∧ fov (camera st) = DEFAULT_FOV
  ∧ controllerConnected st = false.
Proof.
  intros Hrun.
  destruct (constructor_spec props) as [Hok Hthrow]. cbv zeta in Hok, Hthrow.
  destruct (Z.lt_ge_cases
              (or_prior (p_subsetCount (settings props)) DEFAULT_SUBSETS) 0)
    as [Hneg|Hpos].
  { rewrite (Hthrow Hneg) in Hrun. discriminate. }
  destruct (Hok Hpos) as (st' & Hrun' & _ & _ & _ & _ & _ & _ & _ & _ & _ & _ & _
                          & Hsp & Hrs & Hml & Hfov & Hcc).
  rewrite Hrun in Hrun'. injection Hrun' as <-.
  rewrite Hsp, Hrs. unfold or_default.
  split; [by intros v ->|]. split; [by intros ->|].
  split; [by intros v ->|]. split; [by intros ->|]. done.
Qed.

End Construction.

(** ** The object under the events of the user interface *)

Section Events.
Context {num : Type} `{!JsNumber num}.
Local Open Scope num_scope.
Variable random : nat → num.
Variable hsvToHsl : option num → num → num → num * num * num.

Lemma consistent_same_registry (st t : Hopalong num) :
  same_registry st t → consistent st → consistent t.
Proof.
  intros (HL & HS & HN & Horb & Hls & Hd & Hsc & Hal) (H1 & [Hlen Hall] & Hp & Hs1 & Hs2 & Hs3).
  unfold consistent, allocated_for, one_per_pair, scene_tracks.
  rewrite HL, HS, HN, Horb, Hls, Hd, Hsc, Hal. done.
Qed.

Lemma setLevelSubsetCount_consistent (p : PartialSimSettings num) (st : Hopalong num) :
  consistent st →
  (1 ≤ or_prior (p_subsetCount p) (numSubsets st))%Z →
  ∃ st1, setLevelSubsetCount random hsvToHsl p st = Some st1 ∧ consistent st1.
Proof.
  intros (H1 & Hal & Hp & Hsc) HS'.
  destruct (setLevelSubsetCount_returns random hsvToHsl p st) as [st1 Hrun].
  - intros _. lia.
  - intros _. destruct Hal as [-> _]. lia.
  - exists st1. split; [done|]. split; [|split; [|split]].
    + pose proof (setLevelSubsetCount_controls random hsvToHsl p st st1 Hrun) as Hctl.
      apply controls_counts in Hctl as (_ & -> & _).
      by destruct (assign_counts_fields p st) as (_ & -> & _).
    + by apply (setLevelSubsetCount_allocated random hsvToHsl p st st1).
    + apply (setLevelSubsetCount_one_per_pair random hsvToHsl p st st1); [|done].
      by apply one_per_pair_NoDup.
    + by apply (setLevelSubsetCount_scene random hsvToHsl p st st1).
Qed.

Lemma fireSettingsChange_consistent (st : Hopalong num) :
  consistent st → consistent (fireSettingsChange st).
Proof. apply consistent_same_registry. by repeat split. Qed.

Lemma changeLevelSubset_consistent (delta : Z) (st : Hopalong num) :
  consistent st → (-1 ≤ delta)%Z →
  ∃ st1, changeLevelSubset random hsvToHsl delta st = Some st1 ∧ consistent st1.
Proof.
  intros Hc Hd. apply setLevelSubsetCount_consistent; [done|].
  destruct Hc as [H1 _]. cbn [p_subsetCount or_prior].
  destruct (numSubsets st + delta =? 0)%Z eqn:E; [done|].
  apply Z.eqb_neq in E. lia.
Qed.

Lemma changePointsPerSubset_consistent (delta : Z) (st : Hopalong num) :
  consistent st →
  ∃ st1, changePointsPerSubset random hsvToHsl delta st = Some st1 ∧ consistent st1.
Proof.
  intros Hc. apply setLevelSubsetCount_consistent; [done|]. by destruct Hc.
Qed.

Lemma resetDefaults_consistent (st : Hopalong num) :
  consistent st →
  ∃ st1, resetDefaults random hsvToHsl st = Some st1 ∧ consistent st1.
Proof.
  intros Hc. unfold resetDefaults.
  set (st0 := set_mouseLocked false _).
  assert (consistent st0) as Hc0.
  { revert Hc. apply consistent_same_registry. by repeat split. }
  clearbody st0.
  destruct (setLevelSubsetCount_consistent
              {| p_speed := None; p_rotationSpeed := None; p_cameraFov := None;
                 p_pointsPerSubset := Some DEFAULT_POINTS_SUBSET;
                 p_subsetCount := Some DEFAULT_SUBSETS;
                 p_levelCount := Some DEFAULT_LEVELS;
                 p_mouseLocked := None |} st0 Hc0) as (st1 & -> & Hc1); [done|].
  rewrite bind_Some_eq. eexists. split; [reflexivity|].
  by apply fireSettingsChange_consistent.
Qed.

Lemma updateOrbit_consistent (st : Hopalong num) :
  consistent st → ∃ st1, updateOrbit random st = Some st1 ∧ consistent st1.
Proof.
  intros (H1 & Hal & Hp & Hs1 & Hs2 & Hs3).
  destruct (updateOrbit_allocated random st Hal) as (t & Ht & Hal' & _); [lia|].
  exists t. split; [done|].
  apply updateOrbit_frame in Ht as (Hps & Hsc & _ & Halc & Hctl).
  apply controls_counts in Hctl as (HL & HS & HN).
  unfold consistent, one_per_pair, scene_tracks.
  rewrite HL, HS, Hps, Hsc, Halc, level_subset_dirty, drawables_dirty. done.
Qed.

Lemma animate_consistent (st : Hopalong num) :
  consistent st → ∃ st1, animate hsvToHsl st = Some st1 ∧ consistent st1.
Proof.
  intros Hc. unfold animate. destruct (destroyed st); [by exists st|].
  destruct Hc as (H1 & Hal & Hp & Hsc).
  destruct (consistent_render_returns hsvToHsl st Hal Hp) as [st1 Hren].
  exists st1. split; [done|].
  apply render_frame in Hren
    as (Hls & Hd & Hscn & Halc & Horb & _ & HL & HS & HN & _).
  apply (consistent_same_registry st); [by repeat split|].
  exact (conj H1 (conj Hal (conj Hp Hsc))).
Qed.

Lemma onPointerEvent_consistent (e : PointerEvent num) (st : Hopalong num) :
  consistent st → consistent (onPointerEvent e st).
Proof.
  apply consistent_same_registry.
  destruct e as [e|e|e]; cbn [onPointerEvent];
    unfold onDocumentMouseMove, onDocumentTouchStart, onDocumentTouchMove;
    destruct (mouseLocked st); try (by repeat split);
    destruct (touches e) as [|t [|t' l]]; by repeat split.
Qed.

Lemma changeSpeed_consistent (delta : num) (st : Hopalong num) :
  consistent st → consistent (changeSpeed delta st).
Proof.
  apply consistent_same_registry. unfold changeSpeed.
  match goal with |- context [if ?c then _ else _] => destruct c end; by repeat split.
Qed.

Lemma setMouseLock_consistent (locked : option bool) (st : Hopalong num) :
  consistent st → consistent (setMouseLock locked st).
Proof. apply consistent_same_registry. destruct locked; by repeat split. Qed.

Lemma onKeyDown_consistent (key : string) (st : Hopalong num) :
  keyNormalised key ∈ settingsShortcuts ++ movementShortcuts →
  consistent st →
  ∃ st1, onKeyDown random hsvToHsl key st = Some st1 ∧ consistent st1.
Proof.
  intros Hin Hc. unfold onKeyDown.
  change (match key with
          | String c EmptyString => String (toUpperCase c) EmptyString
          | _ => key
          end) with (keyNormalised key).
  set (k := keyNormalised key) in *. clearbody k.
  assert (∀ t, same_registry st t → ∃ st1, Some t = Some st1 ∧ consistent st1) as Hsame.
  { intros t Ht. exists t. split; [done|]. by apply (consistent_same_registry st). }
  assert (∃ st1, Some st = Some st1 ∧ consistent st1) as Hid by (by exists st).
  unfold settingsShortcuts, movementShortcuts in Hin. cbn [app] in Hin.
  repeat (apply elem_of_cons in Hin as [->|Hin]);
    [..|by apply elem_of_nil in Hin];
    cbn [String.eqb Ascii.eqb Bool.eqb andb];
    try (destruct (controllerConnected st); [exact Hid|]).
  - apply Hsame. by repeat split.
  - apply Hsame. by repeat split.
  - by apply changeLevelSubset_consistent.
  - by apply changeLevelSubset_consistent.
  - by apply changePointsPerSubset_consistent.
  - by apply changePointsPerSubset_consistent.
  - exact Hid.
  - apply Hsame. by repeat split.
  - eexists. split; [reflexivity|]. by apply changeSpeed_consistent.
  - eexists. split; [reflexivity|]. by apply changeSpeed_consistent.
  - eexists. split; [reflexivity|]. by apply changeSpeed_consistent.
  - eexists. split; [reflexivity|]. by apply changeSpeed_consistent.
  - apply Hsame. by repeat split.
  - apply Hsame. by repeat split.
  - apply Hsame. by repeat split.
  - apply Hsame. by repeat split.
  - by apply resetDefaults_consistent.
  - eexists. split; [reflexivity|]. by apply setMouseLock_consistent.
Qed.

Lemma dispatch_consistent (e : UiEvent num) (st : Hopalong num) :
  shortcut e → consistent st →
  ∃ st1, dispatch random hsvToHsl e st = Some st1 ∧ consistent st1.
Proof.
  intros He Hc. destruct e as [key|e| | | | |w h]; cbn [dispatch].
  - by apply onKeyDown_consistent.
  - eexists. split; [reflexivity|]. by apply onPointerEvent_consistent.
  - by apply animate_consistent.
  - by apply updateOrbit_consistent.
  - eexists. split; [reflexivity|]. revert Hc. apply consistent_same_registry.
    by repeat split.
  - eexists. split; [reflexivity|]. revert Hc. apply consistent_same_registry.
    by repeat split.
  - eexists. split; [reflexivity|]. revert Hc. apply consistent_same_registry.
    by repeat split.
Qed.

Lemma dispatch_all_consistent (events : list (UiEvent num)) :
  ∀ st, Forall shortcut events → consistent st →
    ∃ st1, for_each events (dispatch random hsvToHsl) st = Some st1 ∧ consistent st1.
Proof.
  induction events as [|e events IH]; intros st Hall Hc.
  - by exists st.
  - apply Forall_cons in Hall as [He Hall].
    destruct (dispatch_consistent e st He Hc) as (st1 & Hst1 & Hc1).
    destruct (IH st1 Hall Hc1) as (st2 & Hst2 & Hc2).
    exists st2. split; [|done]. cbn [for_each]. by rewrite Hst1, bind_Some_eq.
Qed.

Lemma constructor_consistent (props : ConstructorProps num) (st : Hopalong num) :
  constructor random hsvToHsl props = Some st → consistent st.
Proof.
  intros Hrun.
  assert (is_Some (constructor random hsvToHsl props)) as Hpos by (by eexists).
  apply constructor_returns_positive in Hpos.
  destruct (constructor_spec random hsvToHsl props) as [Hok _]. cbv zeta in Hok.
  destruct Hok as (st' & Hrun' & HL & HS & HN & Hal & _ & Hls & Hd & Hsc & Halc & _);
    [lia|].
  rewrite Hrun in Hrun'. injection Hrun' as <-.
  split; [by rewrite HS|]. split; [done|]. split.
  - unfold one_per_pair. by rewrite Hls, HL, HS.
  - unfold scene_tracks. rewrite Hsc, Hd, Halc. split; [done|].
    split; [apply NoDup_seq|]. apply Forall_forall. intros d Hd'.
    apply elem_of_seq in Hd'. lia.
Qed.

(** X9: from construction on, no sequence of pointer events, frames,
    regeneration ticks, gamepad connections, resizes and shortcut key
    presses makes a listener throw, and after every such sequence the
    object is consistent: at least one subset, the orbit allocated as
    numSubsets subsets of numPointsSubset points, exactly one particle set
    tracked per (level, subset) pair in range, and the scene holding
    exactly the drawables of the tracked sets. *)
Theorem ui_events_never_throw
    (props : ConstructorProps num) (st0 : Hopalong num) (events : list (UiEvent num)) :
  constructor random hsvToHsl props = Some st0 →
  Forall shortcut events →
  ∃ st, for_each events (dispatch random hsvToHsl) st0 = Some st
    ∧ (1 ≤ numSubsets st)%Z
    ∧ length (subsets (orbit st)) = Z.to_nat (numSubsets st)
    ∧ Forall (λ cur, length cur = Z.to_nat (numPointsSubset st)) (subsets (orbit st))
    ∧ map level_subset (particleSets st)
      ≡ₚ pairs (Z.to_nat (numLevels st)) (Z.to_nat (numSubsets st))
    ∧ scene st = drawables (particleSets st)
    ∧ NoDup (scene st).
Proof.
  intros Hrun Hall.
  destruct (dispatch_all_consistent events st0 Hall (constructor_consistent _ _ Hrun))
    as (st & Hst & H1 & [Hlen Hal] & Hp & Hs1 & Hs2 & _).
  exists st. done.
Qed.

End Events.

(** ** Settings and shortcuts *)

Section SettingsProperties.
Context {num : Type} `{!JsNumber num}.
Local Open Scope num_scope.
Variable random : nat → num.
Variable hsvToHsl : option num → num → num → num * num * num.

(** What [setLevelSubsetCount] leaves of the settings. *)
Lemma setLevelSubsetCount_settings
    (p : PartialSimSettings num) (st st1 : Hopalong num) :
  setLevelSubsetCount random hsvToHsl p st = Some st1 →
  speed st1 = speed st ∧ rotationSpeed st1 = rotationSpeed st
  ∧ mouseLocked st1 = mouseLocked st ∧ camera st1 = camera st
  ∧ numLevels st1 = or_prior (p_levelCount p) (numLevels st)
  ∧ numSubsets st1 = or_prior (p_subsetCount p) (numSubsets st)
  ∧ numPointsSubset st1 = or_prior (p_pointsPerSubset p) (numPointsSubset st)
  ∧ ∃ before, effects st1 = before ++ [SettingsUpdate (getSettings st1)].
Proof.
  intros Hrun.
  pose proof (setLevelSubsetCount_controls random hsvToHsl p st st1 Hrun) as Hctl.
  destruct (controls_parts _ _ Hctl) as (-> & -> & -> & -> & -> & -> & -> & _).
  destruct (assign_counts_fields p st) as (-> & -> & -> & _).
  repeat split.
  apply setLevelSubsetCount_inv in Hrun as (st_b & st_c & _ & _ & ->).
  by exists (effects st_c).
Qed.

(** X10: the level and subset shortcuts keep both counts positive.  From
    counts of at least 1, [changeLevelSubset(1)] adds one to each, and
    [changeLevelSubset(-1)] takes one from each count that is above 1 and
    leaves a count of 1 as it is, because a request of 0 is read as no
    request. *)
Theorem changeLevelSubset_keeps_counts_positive
    (delta : Z) (st st' : Hopalong num) :
  (1 ≤ numLevels st)%Z → (1 ≤ numSubsets st)%Z →
  delta = 1%Z ∨ delta = (-1)%Z →
  changeLevelSubset random hsvToHsl delta st = Some st' →
  numLevels st' = Z.max 1 (numLevels st + delta)
  ∧ numSubsets st' = Z.max 1 (numSubsets st + delta)
  ∧ numPointsSubset st' = numPointsSubset st.
Proof.
  intros HL HS Hd Hrun.
  apply setLevelSubsetCount_settings in Hrun as (_ & _ & _ & _ & -> & -> & -> & _).
  cbn [p_levelCount p_subsetCount p_pointsPerSubset or_prior].
  destruct (Z.eqb_spec (numLevels st + delta) 0),
           (Z.eqb_spec (numSubsets st + delta) 0); lia.
Qed.

(** X11: [changePointsPerSubset(delta)] adds [delta] to the number of
    points per subset unless the sum is 0, which is read as no request: the
    O key leaves 1000 points at 1000, and takes a count below 1000 to a
    negative one, for which every subset of the regenerated orbit is
    empty. *)
Theorem changePointsPerSubset_skips_zero
    (delta : Z) (st st' : Hopalong num) :
  changePointsPerSubset random hsvToHsl delta st = Some st' →
  numPointsSubset st'
  = (if (numPointsSubset st + delta =? 0)%Z then numPointsSubset st
     else numPointsSubset st + delta)%Z
  ∧ numLevels st' = numLevels st ∧ numSubsets st' = numSubsets st
  ∧ length (subsets (orbit st')) = Z.to_nat (numSubsets st)
  ∧ Forall (λ cur, length cur = Z.to_nat (numPointsSubset st')) (subsets (orbit st'))
  ∧ ((numPointsSubset st + delta < 0)%Z → Forall (λ cur, cur = []) (subsets (orbit st'))).
Proof.
  intros Hrun. unfold changePointsPerSubset in Hrun.
  assert (allocated_for st') as [Hlen Hall].
  { eapply setLevelSubsetCount_allocated; [|exact Hrun].
    unfold regenerates. cbn [p_subsetCount p_pointsPerSubset].
    rewrite (bool_decide_eq_true_2 (Some _ ≠ None)) by done.
    rewrite orb_true_r. discriminate. }
  apply setLevelSubsetCount_settings in Hrun as (_ & _ & _ & _ & HL' & HS' & HN' & _).
  cbn [p_levelCount p_subsetCount p_pointsPerSubset or_prior] in HL', HS', HN'.
  rewrite HS' in Hlen. split; [exact HN'|]. split; [exact HL'|]. split; [exact HS'|].
  split; [exact Hlen|]. split; [exact Hall|].
  intros Hneg. eapply Forall_impl; [exact Hall|]. intros cur Hcur. cbv beta in Hcur.
  rewrite HN' in Hcur.
  destruct (Z.eqb_spec (numPointsSubset st + delta) 0); [lia|].
  apply nil_length_inv. rewrite Hcur. lia.
Qed.

(** X12: [resetDefaults] returns from every state of the object, whatever
    its counts, its orbit and its registry are, and leaves the default
    settings: speed 8, rotation speed 0.005, field of view 60, mouse
    unlocked, 7 levels, 7 subsets, 4000 points per subset, with the orbit
    allocated for them and one particle set tracked per pair if no pair was
    tracked twice before.  The settings are notified twice, once by
    [setLevelSubsetCount] and once by [resetDefaults] itself. *)
Theorem resetDefaults_always_returns (st : Hopalong num) :
  ∃ st', resetDefaults random hsvToHsl st = Some st'
    ∧ getSettings st'
      = {| s_speed := DEFAULT_SPEED; s_rotationSpeed := DEFAULT_ROTATION_SPEED;
           s_cameraFov := DEFAULT_FOV; s_pointsPerSubset := DEFAULT_POINTS_SUBSET;
           s_subsetCount := DEFAULT_SUBSETS; s_levelCount := DEFAULT_LEVELS;
           s_mouseLocked := false |}
    ∧ length (subsets (orbit st')) = 7%nat
    ∧ Forall (λ cur, length cur = 4000%nat) (subsets (orbit st'))
    ∧ (NoDup (map level_subset (particleSets st)) →
       map level_subset (particleSets st') ≡ₚ pairs 7 7)
    ∧ ∃ before,
        effects st'
        = before ++ [SettingsUpdate (getSettings st'); SettingsUpdate (getSettings st')].
Proof.
  unfold resetDefaults.
  set (st0 := set_mouseLocked false _).
  assert (speed st0 = DEFAULT_SPEED ∧ rotationSpeed st0 = DEFAULT_ROTATION_SPEED
          ∧ fov (camera st0) = DEFAULT_FOV ∧ mouseLocked st0 = false
          ∧ particleSets st0 = particleSets st)
    as (Hsp & Hrs & Hfov & Hml & Hps) by (by repeat split).
  clearbody st0.
  set (p := Build_PartialSimSettings _ _ _ _ _ _ _).
  assert (regenerates p = true) as Hreg by done.
  destruct (setLevelSubsetCount_returns random hsvToHsl p st0) as [st1 Hrun].
  { intros _. done. }
  { rewrite Hreg. discriminate. }
  rewrite Hrun, bind_Some_eq. eexists. split; [reflexivity|].
  pose proof (setLevelSubsetCount_allocated random hsvToHsl p st0 st1) as Hal.
  destruct Hal as [Hlen Hall]; [rewrite Hreg; discriminate|done|].
  pose proof (setLevelSubsetCount_one_per_pair random hsvToHsl p st0 st1) as Hp.
  destruct (setLevelSubsetCount_settings p st0 st1 Hrun)
    as (Hsp1 & Hrs1 & Hml1 & Hcam1 & HL1 & HS1 & HN1 & before & Hef).
  change (or_prior (p_levelCount p) (numLevels st0)) with 7%Z in HL1.
  change (or_prior (p_subsetCount p) (numSubsets st0)) with 7%Z in HS1.
  change (or_prior (p_pointsPerSubset p) (numPointsSubset st0)) with 4000%Z in HN1.
  rewrite HS1 in Hlen. rewrite HN1 in Hall.
  split.
  { unfold getSettings.
    cbn [speed rotationSpeed mouseLocked camera numLevels numSubsets numPointsSubset
         fireSettingsChange emit set_effects].
    by rewrite Hsp1, Hrs1, Hml1, Hcam1, HL1, HS1, HN1, Hsp, Hrs, Hml, Hfov. }
  split; [exact Hlen|]. split.
  { eapply Forall_impl; [exact Hall|]. intros cur ->. reflexivity. }
  split.
  { intros Hnd. rewrite <- Hps in Hnd. specialize (Hp Hnd Hrun).
    unfold one_per_pair in Hp. by rewrite HL1, HS1 in Hp. }
  exists before.
  cbn [effects fireSettingsChange emit set_effects]. rewrite Hef, <- app_assoc. done.
Qed.

(** X13: settings round trip.  After [applySettings] is given every field
    of [s], with three counts that are not 0, and returns, [getSettings]
    reads [s] back. *)
Theorem applySettings_getSettings
    (s : SimSettings num) (st st' : Hopalong num) :
  s_levelCount s ≠ 0%Z → s_subsetCount s ≠ 0%Z → s_pointsPerSubset s ≠ 0%Z →
  applySettings random hsvToHsl (all_of s) st = Some st' →
  getSettings st' = s.
Proof.
  intros HL HS HN. unfold applySettings.
  cbn [all_of p_speed p_rotationSpeed p_mouseLocked p_cameraFov p_levelCount
       p_subsetCount p_pointsPerSubset].
  rewrite (bool_decide_eq_true_2 (Some (s_levelCount s) ≠ None)) by done.
  cbn [orb].
  set (st0 := setCameraFOV _ _).
  assert (speed st0 = s_speed s ∧ rotationSpeed st0 = s_rotationSpeed s
          ∧ mouseLocked st0 = s_mouseLocked s ∧ fov (camera st0) = s_cameraFov s)
    as (Hsp & Hrs & Hml & Hfov) by (by repeat split).
  clearbody st0. intros Hrun.
  apply setLevelSubsetCount_settings in Hrun
    as (Hsp1 & Hrs1 & Hml1 & Hcam1 & HL1 & HS1 & HN1 & _).
  cbn [p_levelCount p_subsetCount p_pointsPerSubset or_prior] in HL1, HS1, HN1.
  rewrite (proj2 (Z.eqb_neq _ _) HL) in HL1.
  rewrite (proj2 (Z.eqb_neq _ _) HS) in HS1.
  rewrite (proj2 (Z.eqb_neq _ _) HN) in HN1.
  unfold getSettings.
  rewrite Hsp1, Hrs1, Hml1, Hcam1, HL1, HS1, HN1, Hsp, Hrs, Hml, Hfov.
  by destruct s.
Qed.

Lemma toUpperCase_idempotent (c : ascii) : toUpperCase (toUpperCase c) = toUpperCase c.
Proof. destruct c as [[] [] [] [] [] [] [] []]; reflexivity. Qed.

Lemma keyNormalised_idempotent (key : string) :
  keyNormalised (keyNormalised key) = keyNormalised key.
Proof.
  destruct key as [|c [|c' key]]; [done| |done].
  cbn. by rewrite toUpperCase_idempotent.
Qed.

(** X14: the key handler reads a one-character key in upper case, so a
    letter shortcut works in either case; and while a controller is
    connected the movement shortcuts (the arrows, W, A, S, D, R and L) leave
    the object as it is, without any notification. *)
Theorem movement_keys_wait_for_the_controller (key : string) (st : Hopalong num) :
  onKeyDown random hsvToHsl key st = onKeyDown random hsvToHsl (keyNormalised key) st
  ∧ (controllerConnected st = true →
     keyNormalised key ∈ movementShortcuts →
     onKeyDown random hsvToHsl key st = Some st).
Proof.
  split.
  - unfold onKeyDown.
    change (match keyNormalised key with
            | String c EmptyString => String (toUpperCase c) EmptyString
            | _ => keyNormalised key
            end) with (keyNormalised (keyNormalised key)).
    change (match key with
            | String c EmptyString => String (toUpperCase c) EmptyString
            | _ => key
            end) with (keyNormalised key).
    by rewrite keyNormalised_idempotent.
  - intros Hcc Hin. unfold onKeyDown.
    change (match key with
            | String c EmptyString => String (toUpperCase c) EmptyString
            | _ => key
            end) with (keyNormalised key).
    set (k := keyNormalised key) in *. clearbody k.
    unfold movementShortcuts in Hin.
    repeat (apply elem_of_cons in Hin as [->|Hin]);
      [..|by apply elem_of_nil in Hin];
      cbn [String.eqb Ascii.eqb Bool.eqb andb]; by rewrite Hcc.
Qed.

End SettingsProperties.

(** ** The frame step, the draws and the orbit map over the reals *)

Section RealFrame.
Local Open Scope R_scope.

Lemma Rleb_true (x y : R) : x <= y → Rleb x y = true.
Proof. intros H. unfold Rleb. destruct (Rle_dec x y); [done|lra]. Qed.

Lemma Rleb_false (x y : R) : y < x → Rleb x y = false.
Proof. intros H. unfold Rleb. destruct (Rle_dec x y); [lra|done]. Qed.

Lemma lit_R_Z (z : Z) : lit (num := R) (inject_Z z) = IZR z.
Proof. cbn. unfold Q2R. cbn. lra. Qed.

Lemma CAMERA_BOUND_R : CAMERA_BOUND (num := R) = 200.
Proof. exact (lit_R_Z 200). Qed.

Lemma LEVEL_DEPTH_R : LEVEL_DEPTH (num := R) = 600.
Proof. exact (lit_R_Z 600). Qed.

Lemma lit_R_twentieth : lit (num := R) 0.05 = 5 / 100.
Proof. cbn. unfold Q2R. cbn. lra. Qed.

(** Easing moves a coordinate inside the bound a twentieth of the way to
    its target and clamps it to the bound; a coordinate outside stays. *)
Lemma ease_R (pos target : R) :
  (-200 <= pos <= 200 →
   -200 <= ease pos target <= 200
   ∧ (-200 <= pos + (target - pos) * (5 / 100) <= 200 →
      ease pos target = pos + (target - pos) * (5 / 100)))
  ∧ (pos < -200 ∨ 200 < pos → ease pos target = pos).
Proof.
  unfold ease. rewrite CAMERA_BOUND_R, lit_R_twentieth.
  cbn [num_le num_lt num_neg num_add num_sub num_mul R_JsNumber].
  set (moved := pos + (target - pos) * (5 / 100)).
  split.
  - intros [Hlo Hhi]. rewrite !Rleb_true by lra. cbn [andb].
    destruct (Rlt_dec moved (-200)) as [Hm|Hm].
    + rewrite (Rltb_true moved (Ropp 200)) by lra. rewrite Rltb_false by lra.
      split; lra.
    + rewrite (Rltb_false moved (Ropp 200)) by lra.
      destruct (Rlt_dec 200 moved) as [Hm'|Hm'].
      * rewrite Rltb_true by lra. split; lra.
      * rewrite Rltb_false by lra. split; lra.
  - intros [Hlo|Hhi].
    + rewrite (Rleb_false (Ropp 200) pos) by lra. done.
    + rewrite (Rleb_false pos 200) by lra. by rewrite andb_false_r.
Qed.

Lemma render_camera (hsvToHsl : option R → R → R → R * R * R) (st st' : Hopalong R) :
  render hsvToHsl st = Some st' →
  camera st'
  = {| cam_position :=
         {| v_x := ease (v_x (cam_position (camera st))) (mouseX st);
            v_y := ease (v_y (cam_position (camera st))) (- mouseY st);
            v_z := v_z (cam_position (camera st)) |};
       fov := fov (camera st) |}.
Proof.
  unfold render. set (sc := set_camera _ st).
  destruct (mapM (advance hsvToHsl sc) (particleSets sc)) as [sets|]; [|discriminate].
  rewrite bind_Some_eq. intros [= <-]. done.
Qed.

(** X15: a frame keeps the camera inside the bound.  If its x and y lie
    within [-200, 200] before [render] they do after it, having moved a
    twentieth of the way towards mouseX and -mouseY unless that would leave
    the bound; its z and its field of view do not change. *)
Theorem render_keeps_the_camera_within_bounds
    (hsvToHsl : option R → R → R → R * R * R) (st st' : Hopalong R) :
  render hsvToHsl st = Some st' →
  -200 <= v_x (cam_position (camera st)) <= 200 →
  -200 <= v_y (cam_position (camera st)) <= 200 →
  let x := v_x (cam_position (camera st)) in
  let y := v_y (cam_position (camera st)) in
  let x' := v_x (cam_position (camera st')) in
  let y' := v_y (cam_position (camera st')) in
  -200 <= x' <= 200 ∧ -200 <= y' <= 200
  ∧ (-200 <= x + (mouseX st - x) * (5 / 100) <= 200 →
     x' = x + (mouseX st - x) * (5 / 100))
  ∧ (-200 <= y + (- mouseY st - y) * (5 / 100) <= 200 →
     y' = y + (- mouseY st - y) * (5 / 100))
  ∧ v_z (cam_position (camera st')) = v_z (cam_position (camera st))
  ∧ fov (camera st') = fov (camera st).
Proof.
  intros Hren Hx Hy. cbv zeta. rewrite (render_camera _ _ _ Hren).
  cbn [cam_position v_x v_y v_z fov].
  destruct (ease_R (v_x (cam_position (camera st))) (mouseX st)) as [Hex _].
  destruct (ease_R (v_y (cam_position (camera st))) (- mouseY st)) as [Hey _].
  destruct (Hex Hx) as [Hx1 Hx2]. destruct (Hey Hy) as [Hy1 Hy2].
  cbn [num_neg R_JsNumber] in *. done.
Qed.

Lemma ofZ_R (z : Z) : ofZ (num := R) z = IZR z.
Proof. exact (lit_R_Z z). Qed.

(** X16: after a frame no tracked particle set is in front of the camera.
    With at least one level and the camera at a z that is not negative,
    every particle set ends the frame at a z not above the camera's: it
    either advanced by [speed] without passing the camera, or was sent back
    to -(numLevels - 1) * 600. *)
Theorem render_leaves_every_set_behind_the_camera
    (hsvToHsl : option R → R → R → R * R * R) (st st' : Hopalong R) :
  render hsvToHsl st = Some st' →
  (1 ≤ numLevels st)%Z →
  0 <= v_z (cam_position (camera st)) →
  Forall (λ ps, v_z (position (particles ps)) <= v_z (cam_position (camera st')))
         (particleSets st')
  ∧ length (particleSets st') = length (particleSets st).
Proof.
  intros Hren HL Hz. rewrite (render_camera _ _ _ Hren). cbn [cam_position v_z].
  unfold render in Hren. set (sc := set_camera _ st) in Hren.
  destruct (mapM (advance hsvToHsl sc) (particleSets sc)) as [sets|] eqn:Hsets;
    [|discriminate].
  rewrite bind_Some_eq in Hren. injection Hren as <-. apply mapM_Some in Hsets.
  change (particleSets sc) with (particleSets st) in Hsets.
  cbn [particleSets emit set_effects set_particleSets].
  split; [|symmetry; by eapply Forall2_length].
  apply Forall_forall. intros ps' Hin.
  apply list_elem_of_lookup in Hin as [i Hi].
  destruct (Forall2_lookup_r _ _ _ _ _ Hsets Hi) as (ps & _ & Hadv).
  apply advance_spec in Hadv as (_ & _ & _ & _ & Hcross & Hstay).
  cbv zeta in Hcross, Hstay.
  change (v_z (cam_position (camera sc))) with (v_z (cam_position (camera st)))
    in Hcross, Hstay.
  change (speed sc) with (speed st) in Hcross, Hstay.
  change (numLevels sc) with (numLevels st) in Hcross.
  cbn [num_lt num_add R_JsNumber] in Hcross, Hstay.
  destruct (Rlt_dec (v_z (cam_position (camera st)))
              (v_z (position (particles ps)) + speed st)) as [Hlt|Hge].
  - rewrite Hcross by (by apply Rltb_true).
    rewrite LEVEL_DEPTH_R, ofZ_R, lit_R_1. cbn [num_neg num_sub num_mul R_JsNumber].
    apply IZR_le in HL. nra.
  - rewrite Hstay by (apply Rltb_false; lra). lra.
Qed.

Lemma changeSpeed_speed (delta : R) (st : Hopalong R) :
  speed (changeSpeed delta st) = Rmax 0 (speed st + delta).
Proof.
  unfold changeSpeed. cbn [num_le num_add R_JsNumber]. rewrite lit_R_0.
  destruct (Rle_dec 0 (speed st + delta)) as [Hpos|Hneg].
  - rewrite Rleb_true by done. cbn [speed fireSettingsChange emit set_effects set_speed].
    by rewrite Rmax_right.
  - rewrite Rleb_false by lra. cbn [speed fireSettingsChange emit set_effects set_speed].
    rewrite Rmax_left by lra. done.
Qed.

Lemma onKeyDown_speed
    (random : nat → R) (hsvToHsl : option R → R → R → R * R * R)
    (key : string) (st st1 : Hopalong R) :
  0 <= speed st → onKeyDown random hsvToHsl key st = Some st1 → 0 <= speed st1.
Proof.
  intros Hs. unfold onKeyDown. cbv zeta.
  assert (∀ p t, setLevelSubsetCount random hsvToHsl p st = Some t → 0 <= speed t)
    as Hset.
  { intros p t Hrun.
    destruct (setLevelSubsetCount_settings random hsvToHsl p st t Hrun) as [-> _].
    done. }
  assert (∀ delta, 0 <= speed (changeSpeed delta st)) as Hch.
  { intros delta. rewrite changeSpeed_speed. apply Rmax_l. }
  repeat match goal with
         | |- context [if String.eqb ?a ?b then _ else _] => destruct (String.eqb a b)
         end;
    try (destruct (controllerConnected st));
    lazymatch goal with
    | |- Some (changeSpeed _ _) = Some _ → _ => intros [= <-]; apply Hch
    | |- Some _ = Some _ → _ => intros [= <-]; exact Hs
    | |- changeLevelSubset _ _ _ _ = Some _ → _ => apply Hset
    | |- changePointsPerSubset _ _ _ _ = Some _ → _ => apply Hset
    | |- _ => idtac
    end.
  - unfold resetDefaults. cbv zeta.
    match goal with
    | |- context [setLevelSubsetCount _ _ ?p ?t] =>
        destruct (setLevelSubsetCount random hsvToHsl p t) as [t1|] eqn:Hrun
    end; [|discriminate].
    rewrite bind_Some_eq. intros [= <-].
    destruct (setLevelSubsetCount_settings random hsvToHsl _ _ t1 Hrun) as [Hsp _].
    change (0 <= speed t1). rewrite Hsp.
    change (0 <= lit (num := R) 8).
    assert (lit (num := R) 8 = 8) as -> by exact (lit_R_Z 8). lra.
Qed.

(** X17: the speed never becomes negative through the keyboard, the
    pointer, the frames, the regeneration timer, a controller connecting or
    leaving, or a resize: [changeSpeed] stops at 0, connecting a controller
    and [resetDefaults] set a speed that is not negative, and nothing else
    writes the speed. *)
Theorem speed_is_never_negative
    (random : nat → R) (hsvToHsl : option R → R → R → R * R * R)
    (events : list (UiEvent R)) (st st' : Hopalong R) :
  0 <= speed st →
  for_each events (dispatch random hsvToHsl) st = Some st' →
  0 <= speed st'.
Proof.
  revert st. induction events as [|e events IH]; intros st Hs.
  - by intros [= <-].
  - cbn [for_each]. destruct (dispatch random hsvToHsl e st) as [st1|] eqn:He;
      [|discriminate].
    rewrite bind_Some_eq. apply IH.
    destruct e as [key|e| | | | |w h]; cbn [dispatch] in He.
    + by apply (onKeyDown_speed random hsvToHsl key st).
    + injection He as <-.
      destruct e as [e|e|e]; cbn [onPointerEvent];
        unfold onDocumentMouseMove, onDocumentTouchStart, onDocumentTouchMove;
        destruct (mouseLocked st); try done;
        destruct (touches e) as [|t [|t' l]]; done.
    + unfold animate in He. destruct (destroyed st); [by injection He as <-|].
      destruct (render_settings hsvToHsl st st1 He) as [-> _]. done.
    + apply updateOrbit_frame in He as (_ & _ & _ & _ & Hctl).
      destruct (controls_parts _ _ Hctl) as [-> _]. done.
    + injection He as <-. change (0 <= lit (num := R) 0). rewrite lit_R_0. lra.
    + by injection He as <-.
    + by injection He as <-.
Qed.

Lemma draw_range (random : nat → R) (n : nat) :
  (∀ k, 0 <= random k < 1) →
  ∀ st : Hopalong R, Forall (λ h, 0 <= h < 1) (draw random n st).1.
Proof.
  intros Hr. induction n as [|n IH]; intros st; cbn [draw]; [by constructor|].
  unfold Math_random at 1.
  specialize (IH (set_randomCalls (S (randomCalls st)) st)).
  destruct (draw random n _) as [rs st2]. cbn [fst] in *. by constructor.
Qed.

(** X18: with draws in [0, 1), the shuffled parameters lie in their
    ranges, a in [-30, 30), b in [0.2, 1.8), c in [5, 17), d in [0, 10) and
    e in [0, 12); and [generateHues] either throws, exactly when the count
    is negative, or leaves one hue in [0, 1) per subset. *)
Theorem draws_stay_in_range (random : nat → R) (st : Hopalong R) (S' : Z) :
  (∀ k, 0 <= random k < 1) →
  let p := orbitParams (shuffleParams random st) in
  (-30 <= op_a p < 30 ∧ 2 / 10 <= op_b p < 18 / 10 ∧ 5 <= op_c p < 17
   ∧ 0 <= op_d p < 10 ∧ 0 <= op_e p < 12)
  ∧ randomCalls (shuffleParams random st) = (5 + randomCalls st)%nat
  ∧ match generateHues random S' st with
    | Some t => (0 ≤ S')%Z ∧ length (hueValues t) = Z.to_nat S'
                ∧ Forall (λ h, 0 <= h < 1) (hueValues t)
    | None => (S' < 0)%Z
    end.
Proof.
  intros Hr. cbv zeta. split; [|split; [reflexivity|]].
  - unfold shuffleParams, Math_random.
    cbn [orbitParams set_orbitParams op_a op_b op_c op_d op_e randomCalls
         set_randomCalls].
    unfold A_MIN, A_MAX, B_MIN, B_MAX, C_MIN, C_MAX, D_MIN, D_MAX, E_MIN, E_MAX.
    cbn [lit num_add num_sub num_mul R_JsNumber]. unfold Q2R. cbn [Qnum Qden].
    pose proof (Hr (randomCalls st)). pose proof (Hr (S (randomCalls st))).
    pose proof (Hr (S (S (randomCalls st)))).
    pose proof (Hr (S (S (S (randomCalls st))))).
    pose proof (Hr (S (S (S (S (randomCalls st)))))).
    repeat split; nra.
  - destruct (generateHues random S' st) as [t|] eqn:Ht.
    + apply generateHues_spec in Ht as [Hpos ->]. split; [done|].
      cbn [hueValues set_hueValues]. split; [exact (proj2 (draw_spec random _ _))|].
      by apply draw_range.
    + destruct (Z.lt_ge_cases S' 0) as [|Hpos]; [done|]. exfalso.
      assert (is_Some (generateHues random S' st)) as [t Ht'].
      { eexists. by apply generateHues_spec. }
      congruence.
Qed.

(** X19: the orbit map is a bijection of the plane: every point is the
    image of exactly one point, the one with x = a - y' and
    y = x' + sqrt|b*x - c| * sign(x).  So an orbit never merges with
    another one. *)
Theorem hopalong_is_a_bijection (a b c x' y' : R) :
  ∃ x y, hopalong x y a b c = (x', y')
    ∧ ∀ x0 y0, hopalong x0 y0 a b c = (x', y') → x0 = x ∧ y0 = y.
Proof.
  exists (a - y'), (x' + sqrt (Rabs (b * (a - y') - c)) * spec_sign (a - y')).
  unfold hopalong. split.
  - rewrite Math_sign_R. cbn [num_sub num_mul Math_sqrt Math_abs R_JsNumber].
    f_equal; lra.
  - intros x0 y0. rewrite Math_sign_R.
    cbn [num_sub num_mul Math_sqrt Math_abs R_JsNumber]. intros [= Hx Hy].
    assert (x0 = a - y') as -> by lra. split; [done|]. lra.
Qed.

End RealFrame.

(** ** The gamepad strategies over the reals *)

Section RealGamepad.
Local Open Scope R_scope.

Lemma isNaN_R (x : R) : isNaN x = false.
Proof. unfold isNaN. cbn [num_le R_JsNumber]. by rewrite Rleb_true by lra. Qed.

Lemma Math_max_R (x y : R) : Math_max x y = Rmax x y.
Proof.
  unfold Math_max. rewrite !isNaN_R. cbn [num_lt R_JsNumber].
  destruct (Rlt_dec x y) as [H|H].
  - rewrite (Rltb_true x y) by done. by rewrite Rmax_right by lra.
  - rewrite (Rltb_false x y) by lra. destruct (Rlt_dec y x) as [H'|H'].
    + rewrite (Rltb_true y x) by done. by rewrite Rmax_left by lra.
    + rewrite (Rltb_false y x) by lra. assert (x = y) as -> by lra.
      rewrite Rmax_left by lra. by destruct (Rltb _ _).
Qed.

Lemma Math_min_R (x y : R) : Math_min x y = Rmin x y.
Proof.
  unfold Math_min. rewrite !isNaN_R. cbn [num_lt R_JsNumber].
  destruct (Rlt_dec y x) as [H|H].
  - rewrite (Rltb_true y x) by done. by rewrite Rmin_right by lra.
  - rewrite (Rltb_false y x) by lra. destruct (Rlt_dec x y) as [H'|H'].
    + rewrite (Rltb_true x y) by done. by rewrite Rmin_left by lra.
    + rewrite (Rltb_false x y) by lra. assert (x = y) as -> by lra.
      rewrite Rmin_left by lra. by destruct (Rltb _ _).
Qed.

Lemma clamp_R (min target max : R) :
  clamp min target (Some max) = Rmax min (Rmin target max)
  ∧ clamp min target None = Rmax min target.
Proof. unfold clamp. by rewrite !Math_max_R, Math_min_R. Qed.

Lemma clamp_bounds (min target max : R) :
  min <= max →
  min <= clamp min target (Some max) <= max
  ∧ (min <= target <= max → clamp min target (Some max) = target).
Proof.
  intros Hle. destruct (clamp_R min target max) as [-> _].
  unfold Rmax, Rmin. repeat split; intros; repeat destruct (Rle_dec _ _); lra.
Qed.

Lemma clamp_None_R (min target : R) : clamp min target None = Rmax min target.
Proof. exact (proj2 (clamp_R min target 0)). Qed.

(** X20: [clamp] returns a value within [min, max] when min <= max, the
    target itself when it lies there; when min > max it returns min; and
    without a max it returns the larger of min and the target. *)
Theorem clamp_stays_within (min target max : R) :
  (min <= max →
   min <= clamp min target (Some max) <= max
   ∧ (min <= target <= max → clamp min target (Some max) = target)
   ∧ (target <= min → clamp min target (Some max) = min)
   ∧ (max <= target → clamp min target (Some max) = max))
  ∧ (max < min → clamp min target (Some max) = min)
  ∧ min <= clamp min target None
  ∧ (min <= target → clamp min target None = target).
Proof.
  destruct (clamp_R min target max) as [-> ->].
  unfold Rmax, Rmin.
  repeat split; intros; repeat destruct (Rle_dec _ _); lra.
Qed.

Lemma signedSqrt_R (n : R) : signedSqrt n = sqrt (Rabs n) * spec_sign n.
Proof. unfold signedSqrt. by rewrite Math_sign_R. Qed.

Lemma spec_sign_cases (x : R) :
  (0 < x → spec_sign x = 1) ∧ (x < 0 → spec_sign x = -1) ∧ (x = 0 → spec_sign x = 0).
Proof.
  unfold spec_sign. destruct (total_order_T x 0) as [[?|?]|?]; repeat split; intros; lra.
Qed.

(** X21: [signedSqrt] is the square root carried to both signs: it is
    sqrt(n) for a positive n, -sqrt(-n) for a negative one and 0 at 0, so it
    is odd and its square is |n|. *)
Theorem signedSqrt_keeps_the_sign (n : R) :
  (0 <= n → signedSqrt n = sqrt n)
  ∧ (n <= 0 → signedSqrt n = - sqrt (- n))
  ∧ signedSqrt (- n) = - signedSqrt n
  ∧ signedSqrt n * signedSqrt n = Rabs n.
Proof.
  rewrite !signedSqrt_R.
  destruct (spec_sign_cases n) as (Hp & Hn & Hz).
  destruct (spec_sign_cases (- n)) as (Hp' & Hn' & Hz').
  destruct (total_order_T n 0) as [[Hlt|Heq]|Hgt].
  - rewrite Hn, Hp' by lra. rewrite Rabs_Ropp, (Rabs_left n) by lra.
    repeat split; try lra.
    replace (sqrt (- n) * -1 * (sqrt (- n) * -1)) with (sqrt (- n) * sqrt (- n)) by lra.
    apply sqrt_sqrt. lra.
  - subst n. rewrite Hz, Hz' by lra. rewrite Ropp_0, Rabs_R0, sqrt_0.
    repeat split; lra.
  - rewrite Hp, Hn' by lra. rewrite Rabs_Ropp, (Rabs_right n) by lra.
    repeat split; try lra.
    replace (sqrt n * 1 * (sqrt n * 1)) with (sqrt n * sqrt n) by lra.
    apply sqrt_sqrt. lra.
Qed.

Lemma lit_R_2 : lit (num := R) 2 = 2.
Proof. exact (lit_R_Z 2). Qed.

Lemma lit_R_4 : lit (num := R) 4 = 4.
Proof. exact (lit_R_Z 4). Qed.

Lemma lit_R_10 : lit (num := R) 10 = 10.
Proof. exact (lit_R_Z 10). Qed.

(** The pointer coordinate a strategy returns lies within the window. *)
Lemma pointer_within (w t : R) :
  0 <= w →
  - (w / 2) <= clamp (- w / lit 2) t (Some (w / lit 2)) <= w / 2
  ∧ (- (w / 2) <= t <= w / 2 → clamp (- w / lit 2) t (Some (w / lit 2)) = t).
Proof.
  intros Hw. rewrite lit_R_2. cbn [num_neg num_div R_JsNumber].
  destruct (clamp_bounds (- w / 2) t (w / 2)) as (H1 & H2); [lra|].
  split; [lra|]. intros Ht. apply H2. lra.
Qed.

Lemma pointer_within_halves (w t : R) :
  0 <= w →
  - (w / 2) <= clamp (num_div (num_neg w) 2) t (Some (num_div w 2)) <= w / 2.
Proof.
  intros Hw. cbn [num_neg num_div R_JsNumber].
  destruct (clamp_bounds (- w / 2) t (w / 2)) as (H1 & H2); lra.
Qed.

Lemma signedSqrt_0 : signedSqrt 0 = 0.
Proof.
  rewrite signedSqrt_R, spec_sign_0. lra.
Qed.

(** X22: the standard strategy, on a device that reports its four axes and
    a window whose sides are not negative, returns a movement with a speed
    that is not negative and a pointer within the window.  A left stick at
    rest horizontally gives no rotation; at rest vertically, or pulled back
    (when [Math.pow] is not negative), it gives speed 0; and a right stick at
    rest leaves a pointer that is within the window where it is. *)
Theorem standard_strategy_is_bounded
    (pow : R → R → R) (bounds : Bounds R) (current : Movement R)
    (a0 a1 a2 a3 : R) (more : list R) :
  0 <= width bounds → 0 <= height bounds →
  ∃ m, stdGamepadMovementStrategy pow bounds current
         {| axes := a0 :: a1 :: a2 :: a3 :: more |} = Some m
    ∧ 0 <= mv_speed m
    ∧ - (width bounds / 2) <= mv_x m <= width bounds / 2
    ∧ - (height bounds / 2) <= mv_y m <= height bounds / 2
    ∧ (Rabs a0 < 1 / 10 → mv_rotationSpeed m = 0)
    ∧ (Rabs a1 < 1 / 10 → mv_speed m = 0)
    ∧ ((∀ y, 0 <= pow 2 y) → 1 / 10 <= a1 → mv_speed m = 0)
    ∧ (Rabs a2 < 1 / 10 → - (width bounds / 2) <= mv_x current <= width bounds / 2 →
       mv_x m = mv_x current)
    ∧ (Rabs a3 < 1 / 10 → - (height bounds / 2) <= mv_y current <= height bounds / 2 →
       mv_y m = mv_y current).
Proof.
  intros Hw Hh. unfold stdGamepadMovementStrategy, axis.
  cbn [axes lookup list_lookup].
  eexists. split; [reflexivity|]. cbn [mv_speed mv_x mv_y mv_rotationSpeed].
  rewrite lit_R_0, lit_R_10, lit_R_50, lit_R_4, !Math_sign_R.
  cbn [num_neg num_mul num_add num_div R_JsNumber]. rewrite !clamp_None_R.
  split; [apply Rmax_l|].
  split; [apply pointer_within; done|]. split; [apply pointer_within; done|].
  split.
  { intros Ha. rewrite deadzone_inside by (by rewrite Rabs_Ropp). lra. }
  split.
  { intros Ha. rewrite (deadzone_inside (- a1)) by (by rewrite Rabs_Ropp).
    rewrite spec_sign_0, Rmult_0_r. by rewrite Rmax_left by lra. }
  split.
  { intros Hpow Ha.
    destruct (deadzone_negative (- a1)) as [Hd _]; [lra|]. rewrite Hd.
    rewrite (proj1 (proj2 (spec_sign_cases (- a1 - 1 / 10)))) by lra.
    unfold exponentiate. rewrite Math_sign_R, lit_R_2.
    cbn [num_mul Math_abs R_JsNumber].
    set (m := magnitude pow _ * 4).
    assert (0 <= spec_sign m) as Hs.
    { assert (0 <= m) as Hm.
      { subst m. unfold magnitude. cbn [Math_sqrt R_JsNumber].
        apply Rmult_le_pos; [apply sqrt_pos|lra]. }
      destruct (spec_sign_cases m) as (Hp & _ & Hz).
      destruct (Rle_lt_or_eq_dec 0 m Hm) as [Hlt|Heq];
        [rewrite Hp by done; lra|rewrite Hz by done; lra]. }
    specialize (Hpow (Rabs m)). rewrite Rmax_left; [done|]. nra. }
  split.
  { intros Ha Hx. rewrite deadzone_inside, signedSqrt_0 by done.
    rewrite Rmult_0_l, Rplus_0_l. by apply pointer_within. }
  intros Ha Hy. rewrite deadzone_inside, signedSqrt_0 by done.
  rewrite Rmult_0_l, Rplus_0_l. by apply pointer_within.
Qed.

Lemma lit_R_8 : lit (num := R) 8 = 8.
Proof. exact (lit_R_Z 8). Qed.

Lemma lit_R_fiftieth : lit (num := R) 0.02 = 2 / 100.
Proof. cbn. unfold Q2R. cbn. lra. Qed.

(** X23: the arcade strategy of the first listing reads four buttons.  It
    throws when a small button or the big right button is missing, and when
    the big left button is missing while the big right one is not pressed.
    With its buttons and two axes reported, and a window whose sides are not
    negative, it returns a speed between 2 and 32, a rotation speed of 0
    when the small buttons are both pressed or both released and of 0.02 in
    size otherwise, and a pointer within the window. *)
Theorem arcade_strategy_needs_its_buttons
    (b : ArcadeButtonMapping) (bounds : Bounds R) (current : Movement R)
    (g : GamepadDevice R) (a0 a1 : R) (more : list R) :
  axes (gp_axes g) = a0 :: a1 :: more →
  0 <= width bounds → 0 <= height bounds →
  (gp_buttons g !! bigRightButtonIndex b = None
   ∨ gp_buttons g !! smallRightButtonIndex b = None
   ∨ gp_buttons g !! smallLeftButtonIndex b = None →
   arcadeGamepadMovementStrategyBuilder b bounds current g = None)
  ∧ (∀ br, gp_buttons g !! bigRightButtonIndex b = Some br → pressed br = false →
       gp_buttons g !! bigLeftButtonIndex b = None →
       arcadeGamepadMovementStrategyBuilder b bounds current g = None)
  ∧ (∀ br sr sl,
       gp_buttons g !! bigRightButtonIndex b = Some br →
       (pressed br = false → is_Some (gp_buttons g !! bigLeftButtonIndex b)) →
       gp_buttons g !! smallRightButtonIndex b = Some sr →
       gp_buttons g !! smallLeftButtonIndex b = Some sl →
       ∃ m, arcadeGamepadMovementStrategyBuilder b bounds current g = Some m
         ∧ 2 <= mv_speed m <= 32
         ∧ (pressed br = true → pressed sr && pressed sl = false → mv_speed m = 8)
         ∧ (pressed sr = pressed sl → mv_rotationSpeed m = 0)
         ∧ (pressed sr = true → pressed sl = false → mv_rotationSpeed m = - (2 / 100))
         ∧ (pressed sr = false → pressed sl = true → mv_rotationSpeed m = 2 / 100)
         ∧ - (width bounds / 2) <= mv_x m <= width bounds / 2
         ∧ - (height bounds / 2) <= mv_y m <= height bounds / 2).
Proof.
  intros Hax Hw Hh. unfold arcadeGamepadMovementStrategyBuilder, axis. cbv zeta.
  rewrite Hax. cbn [lookup list_lookup]. split; [|split].
  - intros [Hn|[Hn|Hn]].
    + rewrite Hn. by rewrite !bind_None_eq.
    + rewrite Hn.
      match goal with |- ?o ≫= _ = None => destruct o as [sp|] end;
        [|by rewrite bind_None_eq].
      by rewrite bind_Some_eq, bind_None_eq.
    + rewrite Hn.
      match goal with |- ?o ≫= _ = None => destruct o as [sp|] end;
        [|by rewrite bind_None_eq].
      rewrite bind_Some_eq.
      destruct (gp_buttons g !! smallRightButtonIndex b) as [sr|];
        [|by rewrite bind_None_eq].
      by rewrite bind_Some_eq, bind_None_eq.
  - intros br Hbr Hp Hbl. rewrite Hbr, Hbl, bind_Some_eq, Hp.
    by rewrite !bind_None_eq.
  - intros br sr sl Hbr Hbl Hsr Hsl. rewrite Hbr, Hsr, Hsl, !bind_Some_eq.
    rewrite lit_R_0, lit_R_8, lit_R_4, lit_R_2, lit_R_1, lit_R_10, lit_R_fiftieth.
    destruct (pressed br) eqn:Ebr.
    + rewrite !bind_Some_eq. eexists. split; [reflexivity|].
      cbn [mv_speed mv_rotationSpeed mv_x mv_y num_mul num_neg R_JsNumber].
      split; [destruct (pressed sr), (pressed sl); cbn [andb]; lra|].
      split; [by intros _ ->; lra|].
      split; [intros ->; destruct (pressed sl); cbn [andb]; lra|].
      split; [by intros -> ->|]. split; [by intros -> ->|].
      split; apply pointer_within_halves; done.
    + destruct (Hbl eq_refl) as [bl ->]. rewrite !bind_Some_eq.
      eexists. split; [reflexivity|].
      cbn [mv_speed mv_rotationSpeed mv_x mv_y num_mul num_neg R_JsNumber].
      split; [destruct (pressed bl), (pressed sr), (pressed sl); cbn [andb]; lra|].
      split; [discriminate|].
      split; [intros ->; destruct (pressed sl); cbn [andb]; lra|].
      split; [by intros -> ->|]. split; [by intros -> ->|].
      split; apply pointer_within_halves; done.
Qed.

End RealGamepad.

(** ** The gamepad loop over the reals *)

Section RealGamepadLoop.
Local Open Scope R_scope.
Variable pow : R → R → R.

Lemma standard_keeps_pointer (g : GamepadDevice R) (a0 a1 a2 a3 : R) (more : list R) :
  axes (gp_axes g) = a0 :: a1 :: a2 :: a3 :: more →
  keeps_pointer_within (standard pow) g.
Proof.
  intros Hax bounds current m Hw Hh. unfold standard, stdGamepadMovementStrategy, axis.
  rewrite Hax. cbn [lookup list_lookup]. intros [= <-]. cbn [mv_x mv_y].
  split; apply pointer_within; done.
Qed.

Lemma arcade_builder_keeps_pointer
    (b : ArcadeButtonMapping) (g : GamepadDevice R) (a0 a1 : R) (more : list R) :
  axes (gp_axes g) = a0 :: a1 :: more →
  keeps_pointer_within (arcadeGamepadMovementStrategyBuilder b) g.
Proof.
  intros Hax bounds current m Hw Hh.
  unfold arcadeGamepadMovementStrategyBuilder, axis. cbv zeta.
  rewrite Hax. cbn [lookup list_lookup].
  match goal with |- ?o ≫= _ = _ → _ => destruct o as [sp|] end; [|discriminate].
  rewrite bind_Some_eq.
  destruct (gp_buttons g !! smallRightButtonIndex b) as [sr|]; [|discriminate].
  rewrite bind_Some_eq.
  destruct (gp_buttons g !! smallLeftButtonIndex b) as [sl|]; [|discriminate].
  rewrite bind_Some_eq. intros [= <-]. cbn [mv_x mv_y].
  split; apply pointer_within; done.
Qed.

Lemma arcade_keeps_pointer (g : GamepadDevice R) (a0 a1 : R) (more : list R) :
  axes (gp_axes g) = a0 :: a1 :: more →
  keeps_pointer_within arcadeGamepadMovementStrategy g.
Proof.
  intros Hax bounds current m Hw Hh. unfold arcadeGamepadMovementStrategy, axis.
  cbv zeta. rewrite Hax. cbn [lookup list_lookup].
  match goal with |- ?o ≫= _ = _ → _ => destruct o as [sp|] end; [|discriminate].
  rewrite bind_Some_eq.
  destruct (gp_buttons g !! 1%nat) as [sr|]; [|discriminate].
  rewrite bind_Some_eq.
  destruct (gp_buttons g !! 2%nat) as [sl|]; [|discriminate].
  rewrite bind_Some_eq. intros [= <-]. cbn [mv_x mv_y].
  split; apply pointer_within; done.
Qed.

Lemma build_keeps_pointer (g : GamepadDevice R) (a0 a1 a2 a3 : R) (more : list R) :
  axes (gp_axes g) = a0 :: a1 :: a2 :: a3 :: more →
  keeps_pointer_within (buildGamepadMovementStrategy pow g) g
  ∧ keeps_pointer_within (buildGamepadMovementStrategy_second pow g) g.
Proof.
  intros Hax. unfold buildGamepadMovementStrategy, buildGamepadMovementStrategy_second.
  split; repeat case_match;
    eauto using standard_keeps_pointer, arcade_builder_keeps_pointer,
      arcade_keeps_pointer.
Qed.

Lemma updateGamepadMovement_frame
    (build : GamepadDevice R → MovementStrategy R) (g : GamepadDevice R)
    (st st' : Hopalong R) :
  updateGamepadMovement build g st = Some st' →
  ∃ m, build g (getBounds st) (getCurrentMovement st) g = Some m
    ∧ speed st' = mv_speed m ∧ rotationSpeed st' = mv_rotationSpeed m
    ∧ mouseX st' = mv_x m ∧ mouseY st' = mv_y m
    ∧ same_registry st st' ∧ particleSets st' = particleSets st
    ∧ camera st' = camera st ∧ mouseLocked st' = mouseLocked st
    ∧ controllerConnected st' = controllerConnected st
    ∧ effects st' = effects st ++ [SettingsUpdate (getSettings st')].
Proof.
  unfold updateGamepadMovement. cbv zeta.
  destruct (build g _ _ g) as [m|]; [|discriminate].
  rewrite bind_Some_eq. intros [= <-]. exists m. split; [done|].
  by repeat split.
Qed.

(** X24: a poll of a connected gamepad leaves the counts, the orbit, the
    particle sets, the scene and the camera as they are and tells the
    settings listener once, whichever strategy either listing of gamepad.ts
    chooses for the device, and also when the mouse is locked; and when the
    device reports its four axes the pointer is then within the window.
    Without a connected controller, or without a device, the poll does
    nothing.  (A device that reports fewer axes gives NaN, which the reals
    do not have: see [standard_strategy_without_axes].) *)
Theorem gamepad_poll_keeps_the_pointer_in_the_window
    (build : GamepadDevice R → MovementStrategy R)
    (polled : option (GamepadDevice R)) (st st' : Hopalong R) :
  build = buildGamepadMovementStrategy pow
  ∨ build = buildGamepadMovementStrategy_second pow →
  0 <= windowHalfX st → 0 <= windowHalfY st →
  controllerLoop build polled st = Some st' →
  (controllerConnected st = false ∨ polled = None → st' = st)
  ∧ (∀ g, controllerConnected st = true → polled = Some g →
       same_registry st st' ∧ particleSets st' = particleSets st
       ∧ camera st' = camera st
       ∧ effects st' = effects st ++ [SettingsUpdate (getSettings st')]
       ∧ ∀ a0 a1 a2 a3 more,
           axes (gp_axes g) = a0 :: a1 :: a2 :: a3 :: more →
           - windowHalfX st <= mouseX st' <= windowHalfX st
           ∧ - windowHalfY st <= mouseY st' <= windowHalfY st).
Proof.
  intros Hb Hx Hy Hrun. split.
  - intros [Hc| ->]; [|by injection Hrun].
    unfold controllerLoop in Hrun. rewrite Hc in Hrun.
    destruct polled; by injection Hrun.
  - intros g Hc ->. unfold controllerLoop in Hrun. rewrite Hc in Hrun.
    cbn [negb] in Hrun.
    apply updateGamepadMovement_frame in Hrun
      as (m & Hm & _ & _ & -> & -> & Hreg & Hps & Hcam & _ & _ & Heff).
    split; [done|]. split; [done|]. split; [done|]. split; [done|].
    intros a0 a1 a2 a3 more Hax.
    assert (keeps_pointer_within (build g) g) as Hk.
    { destruct Hb as [-> | ->]; eapply build_keeps_pointer; exact Hax. }
    assert (0 <= width (getBounds st) ∧ 0 <= height (getBounds st)) as [Hw Hh].
    { cbn [getBounds width height]. rewrite lit_R_2. cbn [num_mul R_JsNumber]. lra. }
    destruct (Hk _ _ _ Hw Hh Hm) as [Hmx Hmy].
    cbn [getBounds width height] in Hmx, Hmy. rewrite lit_R_2 in Hmx, Hmy.
    cbn [num_mul R_JsNumber] in Hmx, Hmy.
    split; lra.
Qed.

Lemma standard_poll_returns
    (g : GamepadDevice R) (st : Hopalong R) (a0 a1 a2 a3 : R) (more : list R) :
  axes (gp_axes g) = a0 :: a1 :: a2 :: a3 :: more →
  controllerConnected st = true →
  buildGamepadMovementStrategy pow g = standard pow →
  ∃ st', controllerLoop (buildGamepadMovementStrategy pow) (Some g) st = Some st'.
Proof.
  intros Hax Hc Hb. unfold controllerLoop, updateGamepadMovement. cbv zeta.
  rewrite Hc, Hb. cbn [negb]. unfold standard, stdGamepadMovementStrategy.
  cbv zeta. rewrite bind_Some_eq. eexists. reflexivity.
Qed.

End RealGamepadLoop.

(** [Math.max] and [Math.min] in binary64 on the zeros and on NaN. *)
Example Math_max_min_binary64 :
  Math_max PrimFloat.neg_zero PrimFloat.zero = PrimFloat.zero
  ∧ Math_max PrimFloat.zero PrimFloat.neg_zero = PrimFloat.zero
  ∧ Math_min PrimFloat.zero PrimFloat.neg_zero = PrimFloat.neg_zero
  ∧ Math_min PrimFloat.neg_zero PrimFloat.zero = PrimFloat.neg_zero
  ∧ Math_max PrimFloat.nan PrimFloat.one = PrimFloat.nan
  ∧ Math_max PrimFloat.one PrimFloat.nan = PrimFloat.nan
  ∧ Math_min PrimFloat.nan PrimFloat.one = PrimFloat.nan
  ∧ Math_min PrimFloat.one PrimFloat.nan = PrimFloat.nan
  ∧ NaN = PrimFloat.nan
  ∧ clamp (lit (-400)) PrimFloat.nan (Some (lit 400)) = PrimFloat.nan.
Proof. repeat split; vm_compute; reflexivity. Qed.

(** In binary64, on devices that report no axis: the standard strategy
    returns a movement whose rotation speed and pointer are NaN, and so does
    the arcade strategy for the pointer when its buttons are there. *)
Example standard_strategy_without_axes
    (pow : PrimFloat.float → PrimFloat.float → PrimFloat.float) :
  (λ m, (mv_rotationSpeed m, mv_x m, mv_y m))
    <$> stdGamepadMovementStrategy pow {| width := lit 800; height := lit 600 |}
          {| mv_speed := lit 0; mv_rotationSpeed := lit 0;
             mv_x := lit 0; mv_y := lit 0 |}
          {| axes := [] |}
  = Some (PrimFloat.nan, PrimFloat.nan, PrimFloat.nan)
  ∧ (λ m, (mv_speed m, mv_rotationSpeed m, mv_x m, mv_y m))
      <$> arcadeGamepadMovementStrategyBuilder linuxArcadeButtonMapping
            {| width := lit 800; height := lit 600 |}
            {| mv_speed := lit 0; mv_rotationSpeed := lit 0;
               mv_x := lit 0; mv_y := lit 0 |}
            {| gp_id := EmptyString;
               gp_buttons := [ {| pressed := false |}; {| pressed := false |};
                               {| pressed := false |}; {| pressed := false |} ];
               gp_axes := {| axes := [] |} |}
    = Some (lit 2, lit 0, PrimFloat.nan, PrimFloat.nan).
Proof. split; vm_compute; reflexivity. Qed.

(** ** The further properties on the example objects *)

Ltac decide_by_computation :=
  match goal with |- ?P => apply (bool_decide_unpack P); vm_compute; exact I end.

Lemma small_state_built :
  constructor example_random hsvToHsl_standard small_props = Some small_state.
Proof. vm_compute. reflexivity. Qed.

Lemma small_state_third_level :
  setLevelSubsetCount example_random hsvToHsl_standard three_levels small_state
  = Some small_three_levels.
Proof. vm_compute. reflexivity. Qed.

Lemma X2_witness :
  NoDup (map level_subset (particleSets small_state))
  ∧ setLevelSubsetCount example_random hsvToHsl_standard three_levels small_state
    = Some small_three_levels
  ∧ map level_subset (particleSets small_three_levels) ≡ₚ pairs 3 2
  ∧ length (particleSets small_three_levels) = 6%nat.
Proof.
  assert (NoDup (map level_subset (particleSets small_state))) as H0
    by (decide_by_computation).
  destruct (setLevelSubsetCount_one_set_per_pair example_random hsvToHsl_standard
              three_levels small_state small_three_levels H0 small_state_third_level)
    as (Hperm & _ & Hlen & _).
  exact (conj H0 (conj small_state_third_level (conj Hperm Hlen))).
Defined.

Lemma X3_witness :
  (scene small_state = drawables (particleSets small_state)
   ∧ NoDup (scene small_state)
   ∧ Forall (λ d, (d < allocated small_state)%nat) (scene small_state)
   ∧ setLevelSubsetCount example_random hsvToHsl_standard three_levels small_state
     = Some small_three_levels)
  ∧ scene small_three_levels = drawables (particleSets small_three_levels)
  ∧ NoDup (scene small_three_levels)
  ∧ Forall (λ d, (d < allocated small_three_levels)%nat) (scene small_three_levels).
Proof.
  assert (scene small_state = drawables (particleSets small_state)) as H0
    by reflexivity.
  assert (NoDup (scene small_state)) as H1
    by (decide_by_computation).
  assert (Forall (λ d, (d < allocated small_state)%nat) (scene small_state)) as H2
    by (decide_by_computation).
  exact (conj (conj H0 (conj H1 (conj H2 small_state_third_level)))
    (setLevelSubsetCount_scene_follows_registry example_random hsvToHsl_standard
       three_levels small_state small_three_levels H0 H1 H2 small_state_third_level)).
Defined.

Lemma X4_witness :
  (length (subsets (orbit small_state)) = Z.to_nat (numSubsets small_state)
   ∧ Forall (λ cur, length cur = Z.to_nat (numPointsSubset small_state))
            (subsets (orbit small_state))
   ∧ (0 ≤ numSubsets small_state)%Z
   ∧ ∀ n, p_subsetCount (settings small_props) = Some n → (0 ≤ n)%Z)
  ∧ ∃ st1, setLevelSubsetCount example_random hsvToHsl_standard (settings small_props)
             small_state = Some st1
      ∧ length (subsets (orbit st1)) = Z.to_nat (numSubsets st1)
      ∧ Forall (λ cur, length cur = Z.to_nat (numPointsSubset st1)) (subsets (orbit st1)).
Proof.
  assert (length (subsets (orbit small_state)) = Z.to_nat (numSubsets small_state))
    as H0 by reflexivity.
  assert (Forall (λ cur, length cur = Z.to_nat (numPointsSubset small_state))
                 (subsets (orbit small_state))) as H1
    by (decide_by_computation).
  assert (0 ≤ numSubsets small_state)%Z as H2 by (vm_compute; discriminate).
  assert (∀ n, p_subsetCount (settings small_props) = Some n → (0 ≤ n)%Z) as H3
    by (intros n [= <-]; discriminate).
  exact (conj (conj H0 (conj H1 (conj H2 H3)))
    (setLevelSubsetCount_returns_when_allocated example_random hsvToHsl_standard
       (settings small_props) small_state H0 H1 H2 H3)).
Defined.

Lemma X5_witness :
  (p_subsetCount negative_subsets = Some (-1)%Z ∧ (-1 < 0)%Z)
  ∧ setLevelSubsetCount example_random hsvToHsl_standard negative_subsets small_state
    = None
  ∧ applySettings example_random hsvToHsl_standard negative_subsets small_state = None.
Proof.
  exact (conj (conj eq_refl eq_refl)
    (negative_subsetCount_throws example_random hsvToHsl_standard negative_subsets
       small_state (-1) eq_refl eq_refl)).
Defined.

Lemma X6_witness :
  constructor example_random hsvToHsl_standard small_props = Some small_state
  ∧ numLevels small_state = 2%Z ∧ numSubsets small_state = 2%Z
  ∧ numPointsSubset small_state = 3%Z
  ∧ length (subsets (orbit small_state)) = 2%nat
  ∧ Forall (λ cur, length cur = 3%nat) (subsets (orbit small_state))
  ∧ length (hueValues small_state) = 2%nat
  ∧ map level_subset (particleSets small_state) = [(0, 0); (0, 1); (1, 0); (1, 1)]%nat
  ∧ drawables (particleSets small_state) = [0; 1; 2; 3]%nat
  ∧ scene small_state = [0; 1; 2; 3]%nat
  ∧ allocated small_state = 4%nat
  ∧ effects small_state
    = [SceneAdd 0; SceneAdd 1; SceneAdd 2; SceneAdd 3; RenderFrame;
       SettingsUpdate (getSettings small_state)]
  ∧ randomCalls small_state = 12%nat.
Proof.
  exact (conj small_state_built
    (constructor_builds_the_registry example_random hsvToHsl_standard small_props
       small_state small_state_built)).
Defined.

Lemma X8_witness :
  constructor example_random hsvToHsl_standard still_props = Some still_state
  ∧ p_speed (settings still_props) = Some (lit 0)
  ∧ speed still_state = DEFAULT_SPEED
  ∧ rotationSpeed still_state = DEFAULT_ROTATION_SPEED
  ∧ mouseLocked still_state = true
  ∧ fov (camera still_state) = DEFAULT_FOV
  ∧ controllerConnected still_state = false.
Proof.
  assert (constructor example_random hsvToHsl_standard still_props = Some still_state)
    as H0 by (vm_compute; reflexivity).
  destruct (constructor_falls_back_on_falsy example_random hsvToHsl_standard
              still_props still_state H0) as (Hs & _ & _ & Hr & Hm & Hf & Hc).
  exact (conj H0 (conj eq_refl (conj (Hs _ eq_refl) (conj (Hr eq_refl)
    (conj Hm (conj Hf Hc)))))).
Defined.

Lemma X9_witness :
  (constructor example_random hsvToHsl_standard small_props = Some small_state
   ∧ Forall shortcut example_events)
  ∧ ∃ st, for_each example_events (dispatch example_random hsvToHsl_standard) small_state
          = Some st
      ∧ (1 ≤ numSubsets st)%Z
      ∧ length (subsets (orbit st)) = Z.to_nat (numSubsets st)
      ∧ Forall (λ cur, length cur = Z.to_nat (numPointsSubset st)) (subsets (orbit st))
      ∧ map level_subset (particleSets st)
        ≡ₚ pairs (Z.to_nat (numLevels st)) (Z.to_nat (numSubsets st))
      ∧ scene st = drawables (particleSets st)
      ∧ NoDup (scene st).
Proof.
  assert (Forall shortcut example_events) as H1.
  { unfold example_events.
    repeat (apply Forall_cons_2;
            [first [exact I | cbn [shortcut]; decide_by_computation]|]).
    apply Forall_nil_2. }
  exact (conj (conj small_state_built H1)
    (ui_events_never_throw example_random hsvToHsl_standard small_props small_state
       example_events small_state_built H1)).
Defined.

Lemma X10_witness :
  ((1 ≤ numLevels small_state)%Z ∧ (1 ≤ numSubsets small_state)%Z
   ∧ changeLevelSubset example_random hsvToHsl_standard (-1) small_state
     = Some small_one_level)
  ∧ numLevels small_one_level = 1%Z
  ∧ numSubsets small_one_level = 1%Z
  ∧ numPointsSubset small_one_level = 3%Z.
Proof.
  assert (1 ≤ numLevels small_state)%Z as H0 by (vm_compute; discriminate).
  assert (1 ≤ numSubsets small_state)%Z as H1 by (vm_compute; discriminate).
  assert (changeLevelSubset example_random hsvToHsl_standard (-1) small_state
          = Some small_one_level) as H2 by (vm_compute; reflexivity).
  exact (conj (conj H0 (conj H1 H2))
    (changeLevelSubset_keeps_counts_positive example_random hsvToHsl_standard (-1)
       small_state small_one_level H0 H1 (or_intror eq_refl) H2)).
Defined.

Lemma X11_witness :
  changePointsPerSubset example_random hsvToHsl_standard (-3) small_state
  = Some small_same_points
  ∧ numPointsSubset small_same_points = 3%Z
  ∧ length (subsets (orbit small_same_points)) = 2%nat
  ∧ Forall (λ cur, length cur = 3%nat) (subsets (orbit small_same_points)).
Proof.
  assert (changePointsPerSubset example_random hsvToHsl_standard (-3) small_state
          = Some small_same_points) as H0 by (vm_compute; reflexivity).
  destruct (changePointsPerSubset_skips_zero example_random hsvToHsl_standard (-3)
              small_state small_same_points H0) as (Hn & _ & _ & Hlen & Hall & _).
  exact (conj H0 (conj Hn (conj Hlen Hall))).
Defined.

Lemma X13_witness :
  (s_levelCount example_settings ≠ 0%Z ∧ s_subsetCount example_settings ≠ 0%Z
   ∧ s_pointsPerSubset example_settings ≠ 0%Z
   ∧ applySettings example_random hsvToHsl_standard (all_of example_settings) small_state
     = Some small_applied)
  ∧ getSettings small_applied = example_settings.
Proof.
  assert (s_levelCount example_settings ≠ 0%Z) as H0 by discriminate.
  assert (s_subsetCount example_settings ≠ 0%Z) as H1 by discriminate.
  assert (s_pointsPerSubset example_settings ≠ 0%Z) as H2 by discriminate.
  assert (applySettings example_random hsvToHsl_standard (all_of example_settings)
            small_state = Some small_applied) as H3 by (vm_compute; reflexivity).
  exact (conj (conj H0 (conj H1 (conj H2 H3)))
    (applySettings_getSettings example_random hsvToHsl_standard example_settings
       small_state small_applied H0 H1 H2 H3)).
Defined.

Section RealWitnesses.
Local Open Scope R_scope.

Lemma one_set_R_camera :
  v_x (cam_position (camera one_set_R)) = 0
  ∧ v_y (cam_position (camera one_set_R)) = 0
  ∧ v_z (cam_position (camera one_set_R)) = 0.
Proof. repeat split; exact lit_R_0. Qed.

Lemma one_set_R_renders :
  ∃ st', render (hsvToHsl_standard (num := R)) one_set_R = Some st'.
Proof.
  apply render_returns. apply Forall_cons_2; [discriminate|apply Forall_nil_2].
Qed.

Lemma X15_witness :
  (-200 <= v_x (cam_position (camera one_set_R)) <= 200
   ∧ -200 <= v_y (cam_position (camera one_set_R)) <= 200)
  ∧ ∃ st', render (hsvToHsl_standard (num := R)) one_set_R = Some st'
      ∧ -200 <= v_x (cam_position (camera st')) <= 200
      ∧ -200 <= v_y (cam_position (camera st')) <= 200.
Proof.
  destruct one_set_R_camera as (Hx & Hy & _).
  assert (-200 <= v_x (cam_position (camera one_set_R)) <= 200) as H1
    by (rewrite Hx; lra).
  assert (-200 <= v_y (cam_position (camera one_set_R)) <= 200) as H2
    by (rewrite Hy; lra).
  split; [exact (conj H1 H2)|].
  destruct one_set_R_renders as [st' H0]. exists st'.
  destruct (render_keeps_the_camera_within_bounds hsvToHsl_standard one_set_R st'
              H0 H1 H2) as (Hx' & Hy' & _).
  exact (conj H0 (conj Hx' Hy')).
Defined.

Lemma X16_witness :
  ((1 ≤ numLevels one_set_R)%Z ∧ 0 <= v_z (cam_position (camera one_set_R)))
  ∧ ∃ st', render (hsvToHsl_standard (num := R)) one_set_R = Some st'
      ∧ Forall (λ ps, v_z (position (particles ps)) <= v_z (cam_position (camera st')))
               (particleSets st')
      ∧ length (particleSets st') = length (particleSets one_set_R).
Proof.
  destruct one_set_R_camera as (_ & _ & Hz).
  assert (1 ≤ numLevels one_set_R)%Z as H1 by (change (1 ≤ 1)%Z; lia).
  assert (0 <= v_z (cam_position (camera one_set_R))) as H2 by (rewrite Hz; lra).
  split; [exact (conj H1 H2)|].
  destruct one_set_R_renders as [st' H0]. exists st'.
  exact (conj H0
    (render_leaves_every_set_behind_the_camera hsvToHsl_standard one_set_R st'
       H0 H1 H2)).
Defined.

Lemma X17_witness :
  0 <= speed one_set_R
  ∧ ∃ st', for_each real_events (dispatch zero_draws hsvToHsl_standard) one_set_R
           = Some st'
      ∧ 0 <= speed st'.
Proof.
  assert (0 <= speed one_set_R) as H0
    by (change (0 <= lit (num := R) 0); rewrite lit_R_0; lra).
  split; [exact H0|]. eexists. split; [reflexivity|].
  exact (speed_is_never_negative zero_draws hsvToHsl_standard real_events one_set_R _
           H0 eq_refl).
Defined.

Lemma X18_witness :
  (∀ k, 0 <= zero_draws k < 1)
  ∧ (let p := orbitParams (shuffleParams zero_draws one_subset_R) in
     -30 <= op_a p < 30 ∧ 2 / 10 <= op_b p < 18 / 10 ∧ 5 <= op_c p < 17
     ∧ 0 <= op_d p < 10 ∧ 0 <= op_e p < 12).
Proof.
  assert (∀ k, 0 <= zero_draws k < 1) as H0 by (intros k; unfold zero_draws; lra).
  exact (conj H0 (proj1 (draws_stay_in_range zero_draws one_subset_R 1 H0))).
Defined.

Lemma X22_witness :
  (0 <= width example_bounds_R ∧ 0 <= height example_bounds_R)
  ∧ ∃ m, stdGamepadMovementStrategy Rpower example_bounds_R resting_movement_R
           (gp_axes resting_pad_R) = Some m
      ∧ 0 <= mv_speed m
      ∧ - (width example_bounds_R / 2) <= mv_x m <= width example_bounds_R / 2
      ∧ - (height example_bounds_R / 2) <= mv_y m <= height example_bounds_R / 2.
Proof.
  assert (0 <= width example_bounds_R) as H1 by (cbn [width example_bounds_R]; lra).
  assert (0 <= height example_bounds_R) as H2 by (cbn [height example_bounds_R]; lra).
  split; [exact (conj H1 H2)|].
  destruct (standard_strategy_is_bounded Rpower example_bounds_R resting_movement_R
              0 0 0 0 [] H1 H2) as (m & Hm & Hs & Hx & Hy & _).
  exists m. exact (conj Hm (conj Hs (conj Hx Hy))).
Defined.

Lemma X23_witness :
  (axes (gp_axes arcade_pad_R) = [0; 0]
   ∧ 0 <= width example_bounds_R ∧ 0 <= height example_bounds_R)
  ∧ ∃ m, arcadeGamepadMovementStrategyBuilder linuxArcadeButtonMapping
           example_bounds_R resting_movement_R arcade_pad_R = Some m
      ∧ 2 <= mv_speed m <= 32
      ∧ mv_rotationSpeed m = 0.
Proof.
  assert (0 <= width example_bounds_R) as H1 by (cbn [width example_bounds_R]; lra).
  assert (0 <= height example_bounds_R) as H2 by (cbn [height example_bounds_R]; lra).
  split; [exact (conj eq_refl (conj H1 H2))|].
  destruct (arcade_strategy_needs_its_buttons linuxArcadeButtonMapping
              example_bounds_R resting_movement_R arcade_pad_R 0 0 [] eq_refl H1 H2)
    as (_ & _ & Hall).
  destruct (Hall {| pressed := false |} {| pressed := false |} {| pressed := false |}
              eq_refl (λ _, ex_intro _ {| pressed := false |} eq_refl) eq_refl eq_refl)
    as (m & Hm & Hs & _ & Hr & _).
  exists m. exact (conj Hm (conj Hs (Hr eq_refl))).
Defined.

Lemma connected_R_window :
  windowHalfX connected_R = 400 ∧ windowHalfY connected_R = 300.
Proof.
  unfold connected_R. cbn [windowHalfX windowHalfY set_controllerConnected new_object
    example_props_R innerWidth innerHeight]. rewrite lit_R_2.
  cbn [num_div R_JsNumber]. split; lra.
Qed.

Lemma X24_witness :
  (0 <= windowHalfX connected_R ∧ 0 <= windowHalfY connected_R)
  ∧ ∃ st', controllerLoop (buildGamepadMovementStrategy Rpower) (Some resting_pad_R)
             connected_R = Some st'
      ∧ - windowHalfX connected_R <= mouseX st' <= windowHalfX connected_R
      ∧ - windowHalfY connected_R <= mouseY st' <= windowHalfY connected_R
      ∧ particleSets st' = particleSets connected_R
      ∧ effects st' = effects connected_R ++ [SettingsUpdate (getSettings st')].
Proof.
  destruct connected_R_window as [Hx Hy].
  assert (0 <= windowHalfX connected_R) as H1 by (rewrite Hx; lra).
  assert (0 <= windowHalfY connected_R) as H2 by (rewrite Hy; lra).
  split; [exact (conj H1 H2)|].
  destruct (standard_poll_returns Rpower resting_pad_R connected_R 0 0 0 0 []
              eq_refl eq_refl eq_refl) as [st' H0].
  exists st'.
  destruct (gamepad_poll_keeps_the_pointer_in_the_window Rpower
              (buildGamepadMovementStrategy Rpower) (Some resting_pad_R) connected_R st'
              (or_introl eq_refl) H1 H2 H0) as [_ Hpoll].
  destruct (Hpoll resting_pad_R eq_refl eq_refl) as (_ & Hps & _ & Heff & Hptr).
  destruct (Hptr 0 0 0 0 [] eq_refl) as [Hmx Hmy].
  exact (conj H0 (conj Hmx (conj Hmy (conj Hps Heff)))).
Defined.

End RealWitnesses.
